(** * AI response normalisation and quota-aware fallback of the career-coach
      server actions

    A shallow embedding of the JavaScript server actions

    - [actions/dashboard.js]  ([generateAIInsights], [getIndustryInsights]
      and the record it creates, [improveWithAI]),
    - [actions/interview.js]  ([generateQuiz], [saveQuizResult]),
    - the Inngest job [generateIndustryInsights] and the record it updates,
      and
    - the cover-letter action [generateCoverLetter] with its local helpers
      [parseRetryMs], [isQuotaError] and [attemptGenerate],

    together with the parts of the JavaScript run time they rely on
    (strings, binary64 numbers, property access, [JSON.parse],
    [JSON.stringify], the two regular expressions of the sources).

    Conventions.
    - A JavaScript string is represented by the bytes of its UTF-8
      encoding (a lone surrogate by its three-byte generalised encoding), so
      that [String.string] literals read as in the source.  Every string
      operation of the sources searches for ASCII text only, or strips
      white space, and is modelled on the encoded bytes.
    - A JavaScript number is a binary64 value: [NaN], an infinity, or a
      dyadic rational [m * 2^e].  The sign of zero is not kept: no operation
      used by the sources ([===], truthiness, [ToString], [JSON.stringify],
      [Math.ceil], [>]) tells [-0] from [+0].
    - Calls to collaborators (the generative backend, the database, the
      clock, the console) are events of a trace; the answers of the backend
      and of the database are parameters. *)

From Stdlib Require Import ZArith List Bool Ascii String Lia Arith.
Import ListNotations.

Set Warnings "-register-all".

Local Open Scope string_scope.
Local Open Scope Z_scope.

(* ===================================================================== *)
(** ** Strings *)
(* ===================================================================== *)

Module Str.

Definition code (c : ascii) : Z := Z.of_N (N_of_ascii c).

Definition chr (z : Z) : ascii := ascii_of_N (Z.to_N z).

Definition is_digit (c : ascii) : bool := (48 <=? code c) && (code c <=? 57).

Definition digit_val (c : ascii) : Z := code c - 48.

(** [s.startsWith(p)] *)
Definition startsWith (s p : string) : bool := String.prefix p s.

(** [s.includes(needle)] *)
Fixpoint includes (s needle : string) : bool :=
  String.prefix needle s ||
  match s with
  | EmptyString => false
  | String _ r => includes r needle
  end.

(** White space of [String.prototype.trim] (WhiteSpace and LineTerminator
    of ECMAScript) on the UTF-8 bytes: the one-byte characters TAB, LF, VT,
    FF, CR and SP; U+00A0; and the three-byte characters U+1680,
    U+2000..U+200A, U+2028, U+2029, U+202F, U+205F, U+3000 and U+FEFF. *)
Definition ws1 (c : ascii) : bool :=
  let n := code c in ((9 <=? n) && (n <=? 13)) || (n =? 32).

Definition ws2 (c1 c2 : ascii) : bool :=
  (code c1 =? 194) && (code c2 =? 160).

Definition ws3 (c1 c2 c3 : ascii) : bool :=
  let a := code c1 in let b := code c2 in let c := code c3 in
  ((a =? 225) && (b =? 154) && (c =? 128))
  || ((a =? 226) && (b =? 128)
      && (((128 <=? c) && (c <=? 138)) || (c =? 168) || (c =? 169) || (c =? 175)))
  || ((a =? 226) && (b =? 129) && (c =? 159))
  || ((a =? 227) && (b =? 128) && (c =? 128))
  || ((a =? 239) && (b =? 187) && (c =? 191)).

(** [s.trimStart()] *)
Fixpoint trimStart (s : string) : string :=
  match s with
  | EmptyString => s
  | String c1 r1 =>
      if ws1 c1 then trimStart r1
      else match r1 with
           | EmptyString => s
           | String c2 r2 =>
               if ws2 c1 c2 then trimStart r2
               else match r2 with
                    | EmptyString => s
                    | String c3 r3 =>
                        if ws3 c1 c2 c3 then trimStart r3 else s
                    end
           end
  end.

Definition isEmpty (s : string) : bool :=
  match s with EmptyString => true | _ => false end.

(** [s.trimEnd()]: the longest suffix made of white space is removed. *)
Fixpoint trimEnd (s : string) : string :=
  match s with
  | EmptyString => EmptyString
  | String c r => if isEmpty (trimStart s) then EmptyString else String c (trimEnd r)
  end.

(** [s.trim()] *)
Definition trim (s : string) : string := trimEnd (trimStart s).

(** The rest of [s] after its first character, if that is [c]. *)
Definition expect (c : ascii) (s : string) : option string :=
  match s with
  | String x r => if Ascii.eqb x c then Some r else None
  | EmptyString => None
  end.

Fixpoint drop (n : nat) (s : string) : string :=
  match n, s with
  | S k, String _ r => drop k r
  | _, _ => s
  end.

(** The (generalised) UTF-8 encoding of a code point; a surrogate code
    unit is encoded like any other three-byte character. *)
Definition utf8 (cp : Z) : string :=
  if cp <? 128 then String (chr cp) ""
  else if cp <? 2048 then
    String (chr (192 + cp / 64)) (String (chr (128 + cp mod 64)) "")
  else if cp <? 65536 then
    String (chr (224 + cp / 4096))
      (String (chr (128 + (cp / 64) mod 64)) (String (chr (128 + cp mod 64)) ""))
  else
    String (chr (240 + cp / 262144))
      (String (chr (128 + (cp / 4096) mod 64))
         (String (chr (128 + (cp / 64) mod 64)) (String (chr (128 + cp mod 64)) ""))).

(** The number of bytes of the character that starts with byte [c]. *)
Definition char_len (c : ascii) : nat :=
  let n := code c in
  if n <? 192 then 1%nat else if n <? 224 then 2%nat else if n <? 240 then 3%nat else 4%nat.

(** [s.length]: the number of UTF-16 code units, one for each character
    of the basic plane and two for each of the others. *)
Fixpoint units (s : string) : Z :=
  match s with
  | EmptyString => 0
  | String c r =>
      (if (128 <=? code c) && (code c <? 192) then 0
       else if 240 <=? code c then 2 else 1) + units r
  end.

(** The UTF-16 code units of a string, each as a string: a character of
    the basic plane is one unit, any other character is its two
    surrogates. *)
Fixpoint code_units (s : string) : list string :=
  match s with
  | EmptyString => []
  | String b0 r =>
      let n := code b0 in
      if (128 <=? n) && (n <? 192) then code_units r
      else if n <? 240 then String.substring 0 (char_len b0) s :: code_units r
      else
        match r with
        | String b1 (String b2 (String b3 _)) =>
            let cp := (n mod 8) * 262144 + (code b1 mod 64) * 4096
                      + (code b2 mod 64) * 64 + code b3 mod 64 in
            utf8 (55296 + (cp - 65536) / 1024)
              :: utf8 (56320 + (cp - 65536) mod 1024) :: code_units r
        | _ => code_units r
        end
  end.

End Str.

(* ===================================================================== *)
(** ** Numbers: binary64 *)
(* ===================================================================== *)

Module Num.

Inductive number : Type :=
| NaN
| Inf (neg : bool)
| Fin (m e : Z).          (* the rational  m * 2^e  *)

(** Canonical form: an odd mantissa, or [Fin 0 0]. *)
Fixpoint norm_pos (p : positive) (e : Z) : positive * Z :=
  match p with
  | xO p' => norm_pos p' (e + 1)
  | _ => (p, e)
  end.

Definition mk (m e : Z) : number :=
  match m with
  | Z0 => Fin 0 0
  | Zpos p => let '(p', e') := norm_pos p e in Fin (Zpos p') e'
  | Zneg p => let '(p', e') := norm_pos p e in Fin (Zneg p') e'
  end.

(** A numeric literal of the source that is an integer below 2^53. *)
Definition of_Z (z : Z) : number := mk z 0.

Definition neg (x : number) : number :=
  match x with
  | NaN => NaN
  | Inf b => Inf (negb b)
  | Fin m e => Fin (- m) e
  end.

(** [p / (q * 2^u)] as a fraction of integers. *)
Definition scale2 (p q u : Z) : Z * Z :=
  if 0 <=? u then (p, q * 2 ^ u) else (p * 2 ^ (- u), q).

(** The binary64 value nearest to the rational [p / q] ([0 <= p], [0 < q]),
    ties to even; overflow gives [+Infinity], underflow gives subnormals
    and zero. *)
Definition round_rat (p q : Z) : number :=
  if p <=? 0 then Fin 0 0 else
  let e0 := Z.log2 p - Z.log2 q in
  let '(a, b) := scale2 p q e0 in
  let e1 := if a <? b then e0 - 1 else e0 in       (* 2^e1 <= p/q < 2^(e1+1) *)
  let u := Z.max (e1 - 52) (-1074) in              (* exponent of the last place *)
  let '(n, d) := scale2 p q u in
  let f := n / d in
  let r := n mod d in
  let m := if 2 * r <? d then f
           else if d <? 2 * r then f + 1
           else if Z.even f then f else f + 1 in
  if (971 <? u) || ((u =? 971) && (2 ^ 53 <=? m)) then Inf false else mk m u.

Definition round_signed (sgn : bool) (p q : Z) : number :=
  if sgn then neg (round_rat p q) else round_rat p q.

(** The rational [m * 2^e], rounded (exact on binary64 values). *)
Definition round_dyadic (m e : Z) : number :=
  let sgn := m <? 0 in
  let a := Z.abs m in
  if 0 <=? e then round_signed sgn (a * 2 ^ e) 1 else round_signed sgn a (2 ^ (- e)).

(** [x * y] *)
Definition mul (x y : number) : number :=
  match x, y with
  | NaN, _ | _, NaN => NaN
  | Inf a, Inf b => Inf (xorb a b)
  | Inf a, Fin m _ | Fin m _, Inf a =>
      if m =? 0 then NaN else Inf (xorb a (m <? 0))
  | Fin m1 e1, Fin m2 e2 => round_dyadic (m1 * m2) (e1 + e2)
  end.

(** [Math.ceil(x)] *)
Definition ceil (x : number) : number :=
  match x with
  | Fin m e => if 0 <=? e then x else mk (- ((- m) / 2 ^ (- e))) 0
  | _ => x
  end.

(** [x === y] on numbers. *)
Definition eqb (x y : number) : bool :=
  match x, y with
  | Inf a, Inf b => Bool.eqb a b
  | Fin m1 e1, Fin m2 e2 =>
      if e2 <=? e1 then m1 * 2 ^ (e1 - e2) =? m2 else m1 =? m2 * 2 ^ (e2 - e1)
  | _, _ => false
  end.

(** [x > 0] *)
Definition gt0 (x : number) : bool :=
  match x with
  | NaN => false
  | Inf b => negb b
  | Fin m _ => 0 <? m
  end.

(** ToBoolean on numbers: [NaN] and zero are falsy. *)
Definition truthy (x : number) : bool :=
  match x with
  | NaN => false
  | Inf _ => true
  | Fin m _ => negb (m =? 0)
  end.

(** A non-negative integer (what the specification calls a duration in
    milliseconds). *)
Definition is_nat (x : number) : bool :=
  match x with
  | Fin m e => (0 <=? m) && (0 <=? e)
  | _ => false
  end.

(** *** Decimal input *)

(** The integer written by a string of decimal digits. *)
Fixpoint dec_value (acc : Z) (s : string) : Z :=
  match s with
  | EmptyString => acc
  | String c r => dec_value (10 * acc + Str.digit_val c) r
  end.

(** The number written [ip.fp e ex] in decimal: [ip] and [fp] are digit
    strings, [ex] the exponent. *)
Definition of_decimal (sgn : bool) (ip fp : string) (ex : Z) : number :=
  let mant := dec_value 0 (ip ++ fp) in
  let sc := ex - Z.of_nat (String.length fp) in
  if 0 <=? sc then round_signed sgn (mant * 10 ^ sc) 1
  else round_signed sgn mant (10 ^ (- sc)).

(** *** Decimal output: [Number::toString] *)

Fixpoint dec_digits (fuel : nat) (n : Z) (acc : string) : string :=
  match fuel with
  | O => acc
  | S f =>
      let acc' := String (Str.chr (48 + n mod 10)) acc in
      if n <? 10 then acc' else dec_digits f (n / 10) acc'
  end.

(** The decimal digits of a non-negative integer. *)
Definition Z_to_string (n : Z) : string :=
  dec_digits (S (Z.to_nat (Z.log2 n))) n "".

(** [p / (q * 10^j)] as a fraction of integers. *)
Definition scale10 (p q j : Z) : Z * Z :=
  if 0 <=? j then (p, q * 10 ^ j) else (p * 10 ^ (- j), q).

(** [10^(n-1) <= p/q < 10^n] *)
Definition in_decade (p q n : Z) : bool :=
  let '(a, b) := scale10 p q (n - 1) in (b <=? a) && (a <? 10 * b).

(** The [n] with [10^(n-1) <= p/q < 10^n], looked for around the estimate
    given by the binary logarithms. *)
Definition decade (p q : Z) : Z :=
  let est := ((Z.log2 p - Z.log2 q) * 30103) / 100000 in
  match find (in_decade p q) [est - 1; est; est + 1; est + 2] with
  | Some n => n
  | None => est
  end.

(** The [k]-digit integer [s] such that [s * 10^(n0-k)] reads back as [x],
    the nearest to [p/q] when there are two. *)
Definition try_digits (x : number) (p q n0 k : Z) : option Z :=
  let j := n0 - k in
  let '(a, b) := scale10 p q j in
  let lo := a / b in
  let hi := lo + 1 in
  let back s := if 0 <=? j then round_rat (s * 10 ^ j) 1 else round_rat s (10 ^ (- j)) in
  match eqb (back lo) x, eqb (back hi) x with
  | true, true =>
      let r2 := 2 * (a mod b) in
      Some (if r2 <? b then lo else if b <? r2 then hi else if Z.even lo then lo else hi)
  | true, false => Some lo
  | false, true => Some hi
  | false, false => None
  end.

Fixpoint shortest (fuel : nat) (x : number) (p q n0 k : Z) : Z * Z :=
  match fuel with
  | O => (p / q, k)
  | S f =>
      match try_digits x p q n0 k with
      | Some s => (s, k)
      | None => shortest f x p q n0 (k + 1)
      end
  end.

Fixpoint strip_zeros_rev (s : list ascii) : list ascii :=
  match s with
  | "0"%char :: r => strip_zeros_rev r
  | _ => s
  end.

Definition strip_trailing_zeros (s : string) : string :=
  string_of_list_ascii (rev (strip_zeros_rev (rev (list_ascii_of_string s)))).

Fixpoint zeros (n : nat) : string :=
  match n with O => "" | S k => String "0" (zeros k) end.

(** [Number::toString] of a positive finite number [m * 2^e]. *)
Definition pos_to_string (m e : Z) : string :=
  let '(p, q) := scale2 m 1 (- e) in
  let n0 := decade p q in
  let '(s, k) := shortest 17 (Fin m e) p q n0 1 in
  let ds0 := Z_to_string s in
  let n := n0 + (Z.of_nat (String.length ds0) - k) in
  let ds := strip_trailing_zeros ds0 in
  let kk := Z.of_nat (String.length ds) in
  if (kk <=? n) && (n <=? 21) then ds ++ zeros (Z.to_nat (n - kk))
  else if (0 <? n) && (n <=? 21) then
    String.substring 0 (Z.to_nat n) ds ++ "." ++ String.substring (Z.to_nat n) (Z.to_nat (kk - n)) ds
  else if (-6 <? n) && (n <=? 0) then "0." ++ zeros (Z.to_nat (- n)) ++ ds
  else
    let ex := n - 1 in
    let sx := (if ex <? 0 then "-" else "+") ++ Z_to_string (Z.abs ex) in
    if kk =? 1 then ds ++ "e" ++ sx
    else String.substring 0 1 ds ++ "." ++ String.substring 1 (Z.to_nat (kk - 1)) ds ++ "e" ++ sx.

(** [Number::toString(x)] (radix 10). *)
Definition to_string (x : number) : string :=
  match x with
  | NaN => "NaN"
  | Inf b => if b then "-Infinity" else "Infinity"
  | Fin m e =>
      if m =? 0 then "0"
      else if m <? 0 then "-" ++ pos_to_string (- m) e
      else pos_to_string m e
  end.

End Num.

(* ===================================================================== *)
(** ** Values, property access and coercions *)
(* ===================================================================== *)

Module JS.

Import Num.

(** The values that reach the modelled code: JSON-like trees and
    [undefined].  An object is the list of its own properties in
    enumeration order.  The property names read by the sources ([text],
    [response], [candidates], [0], [content], [parts], [message], [status],
    [error], [details], [@type], [retryDelay], [code]) are defined on no
    built-in prototype, so a property read is a look-up among the own
    properties. *)
Inductive value : Type :=
| VUndef
| VNull
| VBool (b : bool)
| VNum (n : number)
| VStr (s : string)
| VArr (l : list value)
| VObj (l : list (string * value)).

(** The outcome of an evaluation: a value, or a thrown value. *)
Inductive result (A : Type) : Type :=
| Ok (a : A)
| Throw (e : value).
Arguments Ok {A} a.
Arguments Throw {A} e.

Definition bind {A B : Type} (r : result A) (k : A -> result B) : result B :=
  match r with
  | Ok a => k a
  | Throw e => Throw e
  end.

Declare Scope js_scope.
Delimit Scope js_scope with js.
Notation "x <- r ;; k" := (bind r (fun x => k))
  (at level 61, r at next level, right associativity) : js_scope.

(** [new Error(msg)], and the errors raised by the run time.  Only the
    kind of a run-time error is kept, its (engine specific) message is
    not. *)
Definition Error (msg : string) : value :=
  VObj [("name", VStr "Error"); ("message", VStr msg)].
Definition TypeError : value :=
  VObj [("name", VStr "TypeError"); ("message", VStr "")].
Definition SyntaxError : value :=
  VObj [("name", VStr "SyntaxError"); ("message", VStr "")].

Fixpoint assoc (k : string) (l : list (string * value)) : option value :=
  match l with
  | [] => None
  | (k', v) :: r => if String.eqb k k' then Some v else assoc k r
  end.

(** The array index written by a property name, if it is one. *)
Definition index_of_key (k : string) : option nat :=
  match k with
  | EmptyString => None
  | String c r =>
      if forallb Str.is_digit (list_ascii_of_string k)
         && (negb (Ascii.eqb c "0") || Str.isEmpty r)
      then Some (Z.to_nat (dec_value 0 k)) else None
  end.

(** [o?.k]: [undefined] on [null] and [undefined], the property
    otherwise.  On a string [length] and the indices exist: the character at
    an index is the UTF-16 code unit there. *)
Definition get (o : value) (k : string) : value :=
  match o with
  | VObj l => match assoc k l with Some v => v | None => VUndef end
  | VArr l =>
      if String.eqb k "length" then VNum (of_Z (Z.of_nat (List.length l)))
      else match index_of_key k with
           | Some i => nth i l VUndef
           | None => VUndef
           end
  | VStr s =>
      if String.eqb k "length" then VNum (of_Z (Str.units s))
      else match index_of_key k with
           | Some i => nth i (map VStr (Str.code_units s)) VUndef
           | None => VUndef
           end
  | _ => VUndef
  end.

(** [o.k] without the question mark: a [TypeError] on [null] and
    [undefined]. *)
Definition get_strict (o : value) (k : string) : result value :=
  match o with
  | VUndef | VNull => Throw TypeError
  | _ => Ok (get o k)
  end.

(** [typeof v === "string"] *)
Definition is_string (v : value) : bool :=
  match v with VStr _ => true | _ => false end.

(** [Array.isArray(v)] *)
Definition isArray (v : value) : bool :=
  match v with VArr _ => true | _ => false end.

(** ToBoolean *)
Definition truthy (v : value) : bool :=
  match v with
  | VUndef | VNull => false
  | VBool b => b
  | VNum n => Num.truthy n
  | VStr s => negb (Str.isEmpty s)
  | VArr _ | VObj _ => true
  end.

(** [a || b] *)
Definition or_else (a b : value) : value := if truthy a then a else b.

(** [v === n] for a number [n], [v === s] for a string [s]. *)
Definition eq_num (v : value) (n : number) : bool :=
  match v with VNum x => Num.eqb x n | _ => false end.

Definition eq_str (v : value) (s : string) : bool :=
  match v with VStr x => String.eqb x s | _ => false end.

(** [a === b].  Two arrays or objects are equal only if they are the same
    object; the sources compare values that arrive in different arguments
    of an action, which never are. *)
Definition strict_eq (a b : value) : bool :=
  match a, b with
  | VUndef, VUndef | VNull, VNull => true
  | VBool x, VBool y => Bool.eqb x y
  | VNum x, VNum y => Num.eqb x y
  | VStr x, VStr y => String.eqb x y
  | _, _ => false
  end.

(** ToString.  An array is joined with commas, [null] and [undefined]
    elements giving the empty string; a plain object gives
    ["[object Object]"], unless it has an own [toString] property, which in
    this value model is never callable, so that the conversion throws. *)
Fixpoint ToString (v : value) : result string :=
  match v with
  | VUndef => Ok "undefined"
  | VNull => Ok "null"
  | VBool b => Ok (if b then "true" else "false")
  | VNum n => Ok (Num.to_string n)
  | VStr s => Ok s
  | VArr l =>
      (fix elems (l : list value) : result string :=
         match l with
         | [] => Ok EmptyString
         | x :: r =>
             match (match x with VUndef | VNull => Ok EmptyString | _ => ToString x end) with
             | Throw e => Throw e
             | Ok sx =>
                 match r with
                 | [] => Ok sx
                 | _ => match elems r with
                        | Throw e => Throw e
                        | Ok sr => Ok (sx ++ "," ++ sr)
                        end
                 end
             end
         end) l
  | VObj l =>
      match assoc "toString" l with
      | Some _ => Throw TypeError
      | None => Ok "[object Object]"
      end
  end.

(** [l.join("")] *)
Fixpoint join_empty (l : list value) : result string :=
  match l with
  | [] => Ok EmptyString
  | x :: r =>
      match (match x with VUndef | VNull => Ok EmptyString | _ => ToString x end) with
      | Throw e => Throw e
      | Ok sx => match join_empty r with
                 | Throw e => Throw e
                 | Ok sr => Ok (sx ++ sr)
                 end
      end
  end.

(** [l.join(sep)] on the elements of an array. *)
Fixpoint join_sep (sep : string) (l : list value) : result string :=
  match l with
  | [] => Ok EmptyString
  | x :: r =>
      match (match x with VUndef | VNull => Ok EmptyString | _ => ToString x end) with
      | Throw e => Throw e
      | Ok sx =>
          match r with
          | [] => Ok sx
          | _ => match join_sep sep r with
                 | Throw e => Throw e
                 | Ok sr => Ok (sx ++ sep ++ sr)
                 end
          end
      end
  end.

(** [v.join(sep)]: the elements joined on an array, and a [TypeError] on
    every other value (no [join] method; on [null] and [undefined] the
    property read itself throws). *)
Definition join (v : value) (sep : string) : result string :=
  match v with
  | VArr l => join_sep sep l
  | _ => Throw TypeError
  end.

(** [v.includes(s)] for a string [s]: substring search on a string,
    membership on an array, and a [TypeError] on every other value (no
    [includes] method; on [null] and [undefined] the property read itself
    throws). *)
Definition includes (v : value) (s : string) : result bool :=
  match v with
  | VStr x => Ok (Str.includes x s)
  | VArr l => Ok (existsb (fun x => eq_str x s) l)
  | _ => Throw TypeError
  end.

(** *** [JSON.stringify] *)

Definition hex_digit (n : Z) : ascii :=
  if n <? 10 then Str.chr (48 + n) else Str.chr (87 + n).

Definition hex4 (n : Z) : string :=
  String (hex_digit (n / 4096 mod 16)) (String (hex_digit (n / 256 mod 16))
    (String (hex_digit (n / 16 mod 16)) (String (hex_digit (n mod 16)) EmptyString))).

Definition dquote : ascii := "034"%char.
Definition backslash : ascii := "092"%char.

(** QuoteJSONString without the surrounding quotes.  [pend] counts the
    bytes of a lone surrogate still to be skipped, which was written as a
    [\u] escape when its first byte was met. *)
Fixpoint quote_body (pend : nat) (s : string) : string :=
  match s with
  | EmptyString => EmptyString
  | String c r =>
      match pend with
      | S k => quote_body k r
      | O =>
          let n := Str.code c in
          if n =? 8 then String backslash (String "b" (quote_body 0 r))
          else if n =? 9 then String backslash (String "t" (quote_body 0 r))
          else if n =? 10 then String backslash (String "n" (quote_body 0 r))
          else if n =? 12 then String backslash (String "f" (quote_body 0 r))
          else if n =? 13 then String backslash (String "r" (quote_body 0 r))
          else if n =? 34 then String backslash (String dquote (quote_body 0 r))
          else if n =? 92 then String backslash (String backslash (quote_body 0 r))
          else if n <? 32 then String backslash (String "u" (hex4 n ++ quote_body 0 r))
          else
            match r with
            | String c2 (String c3 _) =>
                if (n =? 237) && (160 <=? Str.code c2) then
                  String backslash
                    (String "u" (hex4 (53248 + (Str.code c2 mod 64) * 64 + Str.code c3 mod 64)
                                 ++ quote_body 2 r))
                else String c (quote_body 0 r)
            | _ => String c (quote_body 0 r)
            end
      end
  end.

Definition quote (s : string) : string :=
  String dquote (quote_body 0 s ++ String dquote EmptyString).

Definition commas (l : list string) : string := String.concat "," l.

(** [JSON.stringify(v)] with no replacer and no indentation; [None] is
    [undefined]. *)
Fixpoint stringify (v : value) : option string :=
  match v with
  | VUndef => None
  | VNull => Some "null"
  | VBool b => Some (if b then "true" else "false")
  | VNum n =>
      match n with
      | Fin _ _ => Some (Num.to_string n)
      | _ => Some "null"
      end
  | VStr s => Some (quote s)
  | VArr l =>
      Some ("[" ++ commas (map (fun x => match stringify x with
                                         | Some t => t
                                         | None => "null"
                                         end) l) ++ "]")
  | VObj l =>
      Some ("{" ++ commas
              ((fix props (l : list (string * value)) : list string :=
                  match l with
                  | [] => []
                  | (k, x) :: r =>
                      match stringify x with
                      | Some t => (quote k ++ ":" ++ t) :: props r
                      | None => props r
                      end
                  end) l) ++ "}")
  end.

Definition JSON_stringify (v : value) : value :=
  match stringify v with
  | Some s => VStr s
  | None => VUndef
  end.

End JS.

(* ===================================================================== *)
(** ** [JSON.parse] *)
(* ===================================================================== *)

Module Json.

Import Num JS.

(** The result of a parsing function: a value and the rest of the input, a
    syntax error, or no fuel left (which [parse_fuel_enough] excludes for
    the fuel that [JSON_parse] gives). *)
Inductive pres (A : Type) : Type :=
| POk (a : A) (rest : string)
| PErr
| PFuel.
Arguments POk {A} a rest.
Arguments PErr {A}.
Arguments PFuel {A}.

Definition json_ws (c : ascii) : bool :=
  let n := Str.code c in (n =? 9) || (n =? 10) || (n =? 13) || (n =? 32).

Fixpoint skip_ws (s : string) : string :=
  match s with
  | String c r => if json_ws c then skip_ws r else s
  | EmptyString => s
  end.

Definition hex_val (c : ascii) : option Z :=
  let n := Str.code c in
  if (48 <=? n) && (n <=? 57) then Some (n - 48)
  else if (97 <=? n) && (n <=? 102) then Some (n - 87)
  else if (65 <=? n) && (n <=? 70) then Some (n - 55)
  else None.

(** *** String literals *)

Inductive sstate : Type :=
| SPlain                      (* between two characters *)
| SEsc                        (* after a backslash *)
| SHex (k : nat) (acc : Z).   (* in a [\u] escape, [k] hex digits to come *)

Definition is_high (u : Z) : bool := (55296 <=? u) && (u <? 56320).
Definition is_low (u : Z) : bool := (56320 <=? u) && (u <? 57344).

(** A high surrogate escape waits in [hi] for a low one to pair with. *)
Definition flush (hi : option Z) : string :=
  match hi with
  | Some h => Str.utf8 h
  | None => EmptyString
  end.

Definition emit (pre : string) (r : pres string) : pres string :=
  match r with
  | POk a rest => POk (pre ++ a) rest
  | PErr => PErr
  | PFuel => PFuel
  end.

(** The characters of a string literal after its opening quote, up to and
    including the closing quote. *)
Fixpoint str_body (st : sstate) (hi : option Z) (s : string) : pres string :=
  match s with
  | EmptyString => PErr
  | String c r =>
      match st with
      | SPlain =>
          if Ascii.eqb c dquote then POk (flush hi) r
          else if Ascii.eqb c backslash then str_body SEsc hi r
          else if Str.code c <? 32 then PErr
          else emit (flush hi ++ String c EmptyString) (str_body SPlain None r)
      | SEsc =>
          let plain (z : Z) :=
            emit (flush hi ++ String (Str.chr z) EmptyString) (str_body SPlain None r) in
          if Ascii.eqb c dquote then plain 34
          else if Ascii.eqb c backslash then plain 92
          else if Ascii.eqb c "/" then plain 47
          else if Ascii.eqb c "b" then plain 8
          else if Ascii.eqb c "f" then plain 12
          else if Ascii.eqb c "n" then plain 10
          else if Ascii.eqb c "r" then plain 13
          else if Ascii.eqb c "t" then plain 9
          else if Ascii.eqb c "u" then str_body (SHex 4 0) hi r
          else PErr
      | SHex k acc =>
          match hex_val c with
          | None => PErr
          | Some d =>
              let u := 16 * acc + d in
              match k with
              | O => PErr
              | S O =>
                  match hi with
                  | Some h =>
                      if is_low u then
                        emit (Str.utf8 (65536 + (h - 55296) * 1024 + (u - 56320)))
                             (str_body SPlain None r)
                      else if is_high u then emit (Str.utf8 h) (str_body SPlain (Some u) r)
                      else emit (Str.utf8 h ++ Str.utf8 u) (str_body SPlain None r)
                  | None =>
                      if is_high u then str_body SPlain (Some u) r
                      else emit (Str.utf8 u) (str_body SPlain None r)
                  end
              | S k' => str_body (SHex k' u) hi r
              end
          end
      end
  end.

(** *** Numbers *)

Fixpoint span_digits (s : string) : string * string :=
  match s with
  | String c r =>
      if Str.is_digit c then let '(d, rest) := span_digits r in (String c d, rest)
      else (EmptyString, s)
  | EmptyString => (EmptyString, EmptyString)
  end.

Definition leading_zero (ip : string) : bool :=
  match Str.expect "0" ip with
  | Some r => negb (Str.isEmpty r)
  | None => false
  end.

(** The exponent part: [e] or [E], an optional sign, digits. *)
Definition parse_exponent (s : string) : pres Z :=
  match s with
  | String c r =>
      if Ascii.eqb c "e" || Ascii.eqb c "E" then
        let '(sg, r1) := match Str.expect "-" r, Str.expect "+" r with
                         | Some r', _ => (true, r')
                         | None, Some r' => (false, r')
                         | None, None => (false, r)
                         end in
        let '(d, rest) := span_digits r1 in
        if Str.isEmpty d then PErr
        else POk (if sg then - dec_value 0 d else dec_value 0 d) rest
      else POk 0 s
  | EmptyString => POk 0 s
  end.

(** [-? int frac? exp?] *)
Definition parse_number (s : string) : pres number :=
  let '(sg, s1) := match Str.expect "-" s with
                   | Some r => (true, r)
                   | None => (false, s)
                   end in
  let '(ip, s2) := span_digits s1 in
  if Str.isEmpty ip || leading_zero ip then PErr
  else
    let frac := match Str.expect "." s2 with
                | Some r =>
                    let '(d, rest) := span_digits r in
                    if Str.isEmpty d then PErr else POk d rest
                | None => POk EmptyString s2
                end in
    match frac with
    | POk fp s3 =>
        match parse_exponent s3 with
        | POk ex rest => POk (of_decimal sg ip fp ex) rest
        | PErr => PErr
        | PFuel => PFuel
        end
    | PErr => PErr
    | PFuel => PFuel
    end.

(** *** Values *)

(** Defining property [k] of an object under construction: a repeated name
    replaces the earlier value. *)
Definition obj_set (l : list (string * value)) (k : string) (v : value)
  : list (string * value) :=
  if existsb (fun kv => String.eqb (fst kv) k) l
  then map (fun kv => if String.eqb (fst kv) k then (fst kv, v) else kv) l
  else l ++ [(k, v)].

Definition pmap {A B : Type} (f : A -> B) (r : pres A) : pres B :=
  match r with
  | POk a rest => POk (f a) rest
  | PErr => PErr
  | PFuel => PFuel
  end.

(** Recursive descent.  [parse_value] expects its input to start at the
    first character of a value; [parse_elems] and [parse_members] start
    at an element, respectively at the quote of a member name, and run
    to the closing bracket. *)
Fixpoint parse_value (fuel : nat) (s : string) : pres value :=
  match fuel with
  | O => PFuel
  | S f =>
      match s with
      | EmptyString => PErr
      | String c r =>
          if Ascii.eqb c "{" then
            match Str.expect "}" (skip_ws r) with
            | Some r' => POk (VObj []) r'
            | None => pmap VObj (parse_members f (skip_ws r) [])
            end
          else if Ascii.eqb c "[" then
            match Str.expect "]" (skip_ws r) with
            | Some r' => POk (VArr []) r'
            | None => pmap VArr (parse_elems f (skip_ws r) [])
            end
          else if Ascii.eqb c dquote then pmap VStr (str_body SPlain None r)
          else if String.prefix "true" s then POk (VBool true) (Str.drop 4 s)
          else if String.prefix "false" s then POk (VBool false) (Str.drop 5 s)
          else if String.prefix "null" s then POk VNull (Str.drop 4 s)
          else pmap VNum (parse_number s)
      end
  end

with parse_elems (fuel : nat) (s : string) (acc : list value) : pres (list value) :=
  match fuel with
  | O => PFuel
  | S f =>
      match parse_value f s with
      | POk v r =>
          match Str.expect "," (skip_ws r), Str.expect "]" (skip_ws r) with
          | Some r', _ => parse_elems f (skip_ws r') (v :: acc)
          | None, Some r' => POk (rev (v :: acc)) r'
          | None, None => PErr
          end
      | PErr => PErr
      | PFuel => PFuel
      end
  end

with parse_members (fuel : nat) (s : string) (acc : list (string * value))
  : pres (list (string * value)) :=
  match fuel with
  | O => PFuel
  | S f =>
      match s with
      | String c r =>
          if Ascii.eqb c dquote then
            match str_body SPlain None r with
            | POk k r1 =>
                match Str.expect ":" (skip_ws r1) with
                | Some r2 =>
                    match parse_value f (skip_ws r2) with
                    | POk v r3 =>
                        match Str.expect "," (skip_ws r3), Str.expect "}" (skip_ws r3) with
                        | Some r4, _ => parse_members f (skip_ws r4) (obj_set acc k v)
                        | None, Some r4 => POk (obj_set acc k v) r4
                        | None, None => PErr
                        end
                    | PErr => PErr
                    | PFuel => PFuel
                    end
                | None => PErr
                end
            | PErr => PErr
            | PFuel => PFuel
            end
          else PErr
      | EmptyString => PErr
      end
  end.

Definition fuel_for (s : string) : nat := 2 * String.length s + 2.

(** [JSON.parse(s)]: the value, or a [SyntaxError]. *)
Definition JSON_parse (s : string) : result value :=
  match parse_value (fuel_for s) (skip_ws s) with
  | POk v rest => if Str.isEmpty (skip_ws rest) then Ok v else Throw SyntaxError
  | _ => Throw SyntaxError
  end.

End Json.

(* ===================================================================== *)
(** ** The regular expressions of the sources *)
(* ===================================================================== *)

Module Regex.

Import Json.

(** [s.replace(re, "")] for a global expression [re] that is given by the
    length of its match at the head of a string ([None]: no match there).
    Matches are looked for from left to right and do not overlap. *)
Fixpoint remove_all (match_len : string -> option nat) (skip : nat) (s : string) : string :=
  match s with
  | EmptyString => EmptyString
  | String c r =>
      match skip with
      | S k => remove_all match_len k r
      | O =>
          match match_len s with
          | Some (S n) => remove_all match_len n r
          | _ => String c (remove_all match_len 0 r)
          end
      end
  end.

Definition fence : string := "```".

Definition newline : ascii := "010"%char.

(** The expression of [dashboard.js] and of the Inngest job: three
    backticks, then [json] if it is there, then a line feed if it is
    there.  Both options are greedy and nothing follows them, so the match
    is the longest one. *)
Definition fence_json_nl (s : string) : option nat :=
  if String.prefix fence s then
    let r := Str.drop 3 s in
    let a := if String.prefix "json" r then 4%nat else 0%nat in
    let b := match Str.drop a r with
             | String c _ => if Ascii.eqb c newline then 1%nat else 0%nat
             | EmptyString => 0%nat
             end in
    Some (3 + a + b)%nat
  else None.

(** The expression of [interview.js]: the alternative with [json] is
    tried first. *)
Definition fence_or_json (s : string) : option nat :=
  if String.prefix "```json" s then Some 7%nat
  else if String.prefix fence s then Some 3%nat
  else None.

(** The retry-delay expression matched at the head of [s]: digits, then a
    dot and digits if they are there, then the letter s.  The result is the
    first capture group.  Giving back digits never helps, as the character
    after a shortened run of digits is a digit: only the longest runs are
    tried. *)
Definition match_delay (s : string) : option string :=
  let '(d1, r1) := span_digits s in
  if Str.isEmpty d1 then None
  else
    let with_fraction :=
      match Str.expect "." r1 with
      | Some r2 =>
          let '(d2, r3) := span_digits r2 in
          if Str.isEmpty d2 then None
          else match Str.expect "s" r3 with
               | Some _ => Some (d1 ++ "." ++ d2)
               | None => None
               end
      | None => None
      end in
    match with_fraction with
    | Some g => Some g
    | None => match Str.expect "s" r1 with
              | Some _ => Some d1
              | None => None
              end
    end.

(** [re.exec(s)] for the retry-delay expression: the leftmost match. *)
Fixpoint exec_delay (s : string) : option string :=
  match match_delay s with
  | Some g => Some g
  | None => match s with
            | String _ r => exec_delay r
            | EmptyString => None
            end
  end.

(** [parseFloat(s)]: leading white space and a sign are skipped, then the
    longest prefix that is [Infinity] or a decimal literal (digits, a
    fraction, an exponent) is read; [NaN] if there is none. *)
Definition parseFloat (s : string) : Num.number :=
  let s0 := Str.trimStart s in
  let '(sg, s1) := match Str.expect "-" s0, Str.expect "+" s0 with
                   | Some r, _ => (true, r)
                   | None, Some r => (false, r)
                   | None, None => (false, s0)
                   end in
  if String.prefix "Infinity" s1 then Num.Inf sg
  else
    let '(ip, r) := span_digits s1 in
    let '(fp, r2) := match Str.expect "." r with
                     | Some r' => span_digits r'
                     | None => (EmptyString, r)
                     end in
    if Str.isEmpty ip && Str.isEmpty fp then Num.NaN
    else
      let ex := match parse_exponent r2 with
                | POk e _ => e
                | _ => 0
                end in
      Num.of_decimal sg ip fp ex.

End Regex.

(* ===================================================================== *)
(** ** Effects: collaborators as a trace *)
(* ===================================================================== *)

Module Eff.

Import JS.

Inductive level : Type := LLog | LWarn | LError.

(** What the modelled code asks of the outside.  A console event keeps the
    fixed text the call starts with; the values printed after it are not
    kept.  The prompt of a generation request is a template literal over the
    arguments of the action: its text is not kept either, but the actions
    convert what it interpolates, where the source writes it, since a
    conversion can throw. *)
Inductive event : Type :=
| Generate (model : string)           (* [model.generateContent({ model, contents })] *)
| Sleep (ms : Num.number)             (* [await new Promise((r) => setTimeout(r, ms))] *)
| Console (l : level) (text : string) (* [console.log], [console.warn], [console.error] *)
| DbWrite (table : string) (data : value).  (* [db.<table>.create] or [.update] *)

Definition trace : Type := list event.

(** A computation reads the trace so far, extends it, and ends with a value
    or a throw. *)
Definition M (A : Type) : Type := trace -> result A * trace.

Definition ret {A : Type} (a : A) : M A := fun tr => (Ok a, tr).

Definition throw {A : Type} (e : value) : M A := fun tr => (Throw e, tr).

Definition lift {A : Type} (r : result A) : M A := fun tr => (r, tr).

Definition bindM {A B : Type} (m : M A) (k : A -> M B) : M B :=
  fun tr =>
    match m tr with
    | (Ok a, tr') => k a tr'
    | (Throw e, tr') => (Throw e, tr')
    end.

(** [try { m } catch (e) { h(e) }] *)
Definition catch {A : Type} (m : M A) (h : value -> M A) : M A :=
  fun tr =>
    match m tr with
    | (Ok a, tr') => (Ok a, tr')
    | (Throw e, tr') => h e tr'
    end.

Definition emit (e : event) : M unit := fun tr => (Ok tt, (tr ++ [e])%list).

Definition console (l : level) (text : string) : M unit := emit (Console l text).

Declare Scope eff_scope.
Delimit Scope eff_scope with eff.
Notation "x <- m ;; k" := (bindM m (fun x => k))
  (at level 61, m at next level, right associativity) : eff_scope.
Notation "m ;; k" := (bindM m (fun _ => k))
  (at level 61, right associativity) : eff_scope.

Definition is_generate (e : event) : bool :=
  match e with Generate _ => true | _ => false end.

(** The backend invocations of a trace, in order. *)
Definition invocations (tr : trace) : list event := filter is_generate tr.

End Eff.

(* ===================================================================== *)
(** ** The helpers of [generateCoverLetter] *)
(* ===================================================================== *)

Module Quota.

Import Num JS Json Regex.
Local Open Scope js_scope.

(** [for (const d of details)]: the elements of an array, the characters
    of a string; other values are not iterable. *)
Fixpoint chars (fuel : nat) (s : string) : list value :=
  match fuel, s with
  | S f, String c _ =>
      let n := Str.char_len c in
      VStr (String.substring 0 n s) :: chars f (Str.drop n s)
  | _, _ => []
  end.

Definition iterate (v : value) : result (list value) :=
  match v with
  | VArr l => Ok l
  | VStr s => Ok (chars (String.length s) s)
  | _ => Throw TypeError
  end.

(** The body of the [for] loop of [parseRetryMs]: [Some n] when the loop
    ends with [return n], [None] when it runs to its end. *)
Fixpoint retry_loop (details : list value) : result (option number) :=
  match details with
  | [] => Ok None
  | d :: rest =>
      ty <- get_strict d "@type" ;;
      guard <- (if truthy ty then
                  inc <- includes ty "RetryInfo" ;;
                  Ok (inc && truthy (get d "retryDelay"))
                else Ok false) ;;
      if guard then
        (* retryDelay like 42s or 42.854797884s *)
        text <- ToString (get d "retryDelay") ;;
        match exec_delay text with
        | Some m1 => Ok (Some (Num.ceil (Num.mul (parseFloat m1) (of_Z 1000))))
        | None => retry_loop rest
        end
      else retry_loop rest
  end.

(** [msg && msg.trim().startsWith("{") ? JSON.parse(msg) : null] for a
    [msg] that is a string or [null]. *)
Definition parse_object_text (msg : value) : result value :=
  match msg with
  | VStr m =>
      if negb (Str.isEmpty m) && Str.startsWith (Str.trim m) "{" then JSON_parse m
      else Ok VNull
  | _ => Ok VNull
  end.

(** The [try] block of [parseRetryMs]: [Some n] when it ends with
    [return n], [None] when it runs to its end. *)
Definition retry_try_block (err : value) : result (option number) :=
  let msg := match get err "message" with
             | VStr m => VStr m
             | _ => VNull
             end in
  parsed <- parse_object_text msg ;;
  let details := or_else (get (get parsed "error") "details") (VArr []) in
  items <- iterate details ;;
  retry_loop items.

(** [parseRetryMs(err)], part_000 lines 142-158. *)
Definition parseRetryMs (err : value) : number :=
  match retry_try_block err with
  | Ok (Some n) => n
  | Ok None => of_Z 0
  | Throw _ => of_Z 0          (* ignore parse errors *)
  end.

(** [isQuotaError(err)], part_000 lines 160-173. *)
Definition isQuotaError (err : value) : result bool :=
  if negb (truthy err) then Ok false
  else if eq_num (get err "status") (of_Z 429) then Ok true
  else
    let msg := match get err "message" with
               | VStr m => VStr m
               | _ => JSON_stringify err
               end in
    a <- includes msg "RESOURCE_EXHAUSTED" ;;
    b <- (if a then Ok true else includes msg "Quota exceeded") ;;
    if b then Ok true
    else
      let body :=
        parsed <- parse_object_text msg ;;
        if eq_num (get (get parsed "error") "code") (of_Z 429) then Ok true
        else if eq_str (get (get parsed "error") "status") "RESOURCE_EXHAUSTED" then Ok true
        else Ok false in
      match body with
      | Ok r => Ok r
      | Throw _ => Ok false    (* ignore *)
      end.

End Quota.

(* ===================================================================== *)
(** ** The server actions *)
(* ===================================================================== *)

Module Actions.

Import Num JS Json Regex Eff Quota.
Local Open Scope eff_scope.

Section Collaborators.

(** The answer of [model.generateContent] to a request for a model, given
    everything that happened before; and the answer of the database to a
    write. *)
Variable backend : trace -> string -> result value.
Variable db : trace -> string -> value -> result value.

Definition generateContent (modelName : string) : M value :=
  fun tr => (backend tr modelName, (tr ++ [Generate modelName])%list).

Definition db_write (table : string) (data : value) : M value :=
  fun tr => (db tr table data, (tr ++ [DbWrite table data])%list).

(** *** Normalising the response shape *)

(** [result?.response?.candidates?.[0]?.content?.parts].  The second
    conjunct of the source reads the same path without question marks; it
    is evaluated only when the first is truthy, where both agree. *)
Definition parts_of (result : value) : value :=
  get (get (get (get (get result "response") "candidates") "0") "content") "parts".

(** [(p) => p.text || ""] *)
Definition fragment_text (p : value) : result value :=
  JS.bind (get_strict p "text") (fun t => Ok (or_else t (VStr EmptyString))).

Fixpoint map_result (f : value -> result value) (l : list value) : result (list value) :=
  match l with
  | [] => Ok []
  | x :: r =>
      JS.bind (f x) (fun y => JS.bind (map_result f r) (fun ys => Ok (y :: ys)))
  end.

(** [parts.map((p) => p.text || "").join("")] *)
Definition join_parts (parts : value) : result string :=
  match parts with
  | VArr l => JS.bind (map_result fragment_text l) join_empty
  | _ => Throw TypeError
  end.

(** The chain of [if]s that [generateAIInsights] (dashboard.js lines 38-52),
    [generateQuiz], [saveQuizResult] and the Inngest job share word for
    word. *)
Definition extractText (result : value) : M string :=
  match get result "text" with
  | VStr t => ret t
  | _ =>
      match get (get result "response") "text" with
      | VStr t => ret t
      | _ =>
          if truthy (parts_of result) && isArray (parts_of result)
          then lift (join_parts (parts_of result))
          else
            console LWarn "Unexpected response shape from GenAI SDK, printing raw response" ;;
            console LLog EmptyString ;;
            throw (Error "AI returned no text")
      end
  end.

(** The same chain in [generateCoverLetter] (part_000 lines 204-226): every
    branch trims, and a [try] around it replaces whatever is thrown. *)
Definition extractContent (result : value) : M string :=
  catch
    (match get result "text" with
     | VStr t => ret (Str.trim t)
     | _ =>
         match get (get result "response") "text" with
         | VStr t => ret (Str.trim t)
         | _ =>
             if truthy (parts_of result) && isArray (parts_of result)
             then t <- lift (join_parts (parts_of result)) ;; ret (Str.trim t)
             else
               console LError "Unexpected GenAI response shape:" ;;
               throw (Error "AI returned no text")
         end
     end)
    (fun e =>
       console LError "Error extracting text from GenAI response:" ;;
       throw (Error "Failed to parse AI response")).

(** *** [generateAIInsights] (dashboard.js) *)

Definition cleanedText (text : string) : string :=
  Str.trim (remove_all fence_json_nl 0 text).

(** The prompt interpolates [industry] (lines 11-29). *)
Definition generateAIInsights (industry : value) : M value :=
  _ <- lift (ToString industry) ;;
  result <- generateContent "gemini-2.5-pro" ;;
  text <- extractText result ;;
  lift (JSON_parse (cleanedText text)).

(** [getIndustryInsights] (dashboard.js), the caller of
    [generateAIInsights].  The record created carries the parsed insights;
    the date the source adds is not modelled. *)
Definition getIndustryInsights (userId user : value) : M value :=
  if negb (truthy userId) then throw (Error "Unauthorized")
  else if negb (truthy user) then throw (Error "User not found")
  else if negb (truthy (get user "industryInsight")) then
    insights <- generateAIInsights (get user "industry") ;;
    industryInsight <- db_write "industryInsight"
                         (VObj [("industry", get user "industry"); ("data", insights)]) ;;
    ret industryInsight
  else ret (get user "industryInsight").

(** *** [generateQuiz] (interview.js) *)

Definition cleaned (text : string) : string :=
  Str.trim (remove_all fence_or_json 0 text).

(** [userId] is what [auth()] gave, [user] what the database gave.  The
    prompt (lines 24-44), written before the [try], interpolates
    [user.industry] and, when [user.skills?.length] is truthy,
    [user.skills.join(", ")]. *)
Definition generateQuiz (userId user : value) : M value :=
  if negb (truthy userId) then throw (Error "Unauthorized")
  else if negb (truthy user) then throw (Error "User not found")
  else
    _ <- lift (ToString (get user "industry")) ;;
    _ <- lift (if truthy (get (get user "skills") "length")
               then join (get user "skills") ", "
               else Ok EmptyString) ;;
    catch
      (result <- generateContent "gemini-2.5-pro" ;;
       text <- extractText result ;;
       quiz <- lift (JSON_parse (cleaned text)) ;;
       lift (get_strict quiz "questions"))
      (fun error =>
         console LError "Error generating quiz:" ;;
         throw (Error "Failed to generate quiz questions")).

(** *** [saveQuizResult] (interview.js) *)

(** [questions.map((q, index) => ({ question: q.question, ... }))] from
    index [index] on. *)
Fixpoint questionResults (questions : list value) (answers : value) (index : nat)
  : result (list value) :=
  match questions with
  | [] => Ok []
  | q :: rest =>
      JS.bind (get_strict q "question") (fun question =>
      JS.bind (get_strict answers (Z_to_string (Z.of_nat index))) (fun userAnswer =>
      JS.bind (questionResults rest answers (S index)) (fun others =>
      Ok (VObj [("question", question);
                ("answer", get q "correctAnswer");
                ("userAnswer", userAnswer);
                ("isCorrect", VBool (strict_eq (get q "correctAnswer") userAnswer));
                ("explanation", get q "explanation")] :: others))))
  end.

Definition isCorrect (q : value) : bool := truthy (get q "isCorrect").

(** [wrongAnswers.map((q) => `Question: "${q.question}"...`)] (lines
    99-104): the question, the answer and the user's answer of each wrong
    result are converted, in order. *)
Fixpoint tip_lines (wrongAnswers : list value) : result unit :=
  match wrongAnswers with
  | [] => Ok tt
  | q :: rest =>
      JS.bind (ToString (get q "question")) (fun _ =>
      JS.bind (ToString (get q "answer")) (fun _ =>
      JS.bind (ToString (get q "userAnswer")) (fun _ =>
      tip_lines rest)))
  end.

(** The prompt of the tip is written inside the [if], before the [try]. *)
Definition saveQuizResult (userId user : value) (questions answers score : value)
  : M value :=
  if negb (truthy userId) then throw (Error "Unauthorized")
  else if negb (truthy user) then throw (Error "User not found")
  else
    results <- lift (match questions with
                     | VArr l => questionResults l answers 0
                     | _ => Throw TypeError
                     end) ;;
    let wrongAnswers := filter (fun q => negb (isCorrect q)) results in
    improvementTip <-
      (if (0 <? List.length wrongAnswers)%nat then
         _ <- lift (tip_lines wrongAnswers) ;;
         catch
           (tipResult <- generateContent "gemini-2.5-pro" ;;
            tipText <- extractText tipResult ;;
            ret (VStr (Str.trim tipText)))
           (fun err =>
              console LError "Error generating improvement tip:" ;;
              ret VNull)
       else ret VNull) ;;
    catch
      (db_write "assessment"
         (VObj [("userId", get user "id");
                ("quizScore", score);
                ("questions", VArr results);
                ("category", VStr "Technical");
                ("improvementTip", improvementTip)]))
      (fun error =>
         console LError "Error saving quiz result:" ;;
         throw (Error "Failed to save quiz result")).

(** *** The Inngest job [generateIndustryInsights] (part_000 lines 8-81) *)

(** The body of [for (const { industry } of industries)]; the prompt
    interpolates [industry].  The record written carries the parsed insights;
    the two dates the source adds to it are not modelled. *)
Fixpoint industry_loop (industries : list value) : M value :=
  match industries with
  | [] => ret VUndef
  | item :: rest =>
      industry <- lift (get_strict item "industry") ;;
      _ <- lift (ToString industry) ;;
      res <- generateContent "gemini-2.5-pro" ;;
      text <- extractText res ;;
      insights <- lift (JSON_parse (cleanedText text)) ;;
      _ <- db_write "industryInsight"
             (VObj [("where", VObj [("industry", industry)]); ("data", insights)]) ;;
      industry_loop rest
  end.

Definition generateIndustryInsights (industries : list value) : M value :=
  industry_loop industries.

(** *** [generateCoverLetter] (part_000 lines 99-244) *)

Definition preferredModel : string := "gemini-2.5-pro".
Definition fallbackModel : string := "gemini-2.0-flash".

Definition attemptGenerate (modelName : string) : M value :=
  generateContent modelName.

(** Lines 179-199: the preferred model, then once the fallback model if
    the failure is a quota error. *)
Definition generate_with_fallback : M value :=
  catch
    (attemptGenerate preferredModel)
    (fun err =>
       quota <- lift (isQuotaError err) ;;
       if quota : bool then
         let waitMs := parseRetryMs err in
         console LWarn ("Quota hit for " ++ preferredModel ++ ". Waiting "
                        ++ Num.to_string waitMs
                        ++ "ms (if provided) then trying fallback model "
                        ++ fallbackModel ++ ".") ;;
         (if gt0 waitMs then emit (Sleep waitMs) else ret tt) ;;
         (* Try fallback once *)
         catch
           (attemptGenerate fallbackModel)
           (fun err2 =>
              console LError ("Both preferred model (" ++ preferredModel
                              ++ ") and fallback model (" ++ fallbackModel ++ ") failed.") ;;
              throw err2)
       else
         (* Not a quota issue: rethrow to be handled by outer catch *)
         throw err).

(** [data] is the argument of the action.  The prompt (lines 109-133),
    written before the [try], interpolates [data.jobTitle],
    [data.companyName], [user.industry], [user.experience],
    [user.skills?.join(", ")], [user.bio] and [data.jobDescription], in this
    order. *)
Definition generateCoverLetter (userId user : value) (data : value) : M value :=
  if negb (truthy userId) then throw (Error "Unauthorized")
  else if negb (truthy user) then throw (Error "User not found")
  else
    _ <- lift (JS.bind (get_strict data "jobTitle") ToString) ;;
    _ <- lift (JS.bind (get_strict data "companyName") ToString) ;;
    _ <- lift (ToString (get user "industry")) ;;
    _ <- lift (ToString (get user "experience")) ;;
    _ <- lift (match get user "skills" with
               | VUndef | VNull => ToString VUndef
               | skills => join skills ", "
               end) ;;
    _ <- lift (ToString (get user "bio")) ;;
    _ <- lift (JS.bind (get_strict data "jobDescription") ToString) ;;
    catch
      (result <- generate_with_fallback ;;
       content <- extractContent result ;;
       coverLetter <- db_write "coverLetter"
                        (VObj [("content", VStr content);
                               ("jobDescription", get data "jobDescription");
                               ("companyName", get data "companyName");
                               ("jobTitle", get data "jobTitle");
                               ("status", VStr "completed");
                               ("userId", get user "id")]) ;;
       ret coverLetter)
      (fun error =>
         console LError "Error generating cover letter:" ;;
         throw (Error "Failed to generate cover letter")).

End Collaborators.

End Actions.

(* ===================================================================== *)
(** ** [improveWithAI] *)
(* ===================================================================== *)

Module Resume.

Import Num JS Json Eff Quota Actions.
Local Open Scope eff_scope.

Section Collaborators.

Variable backend : trace -> string -> result value.

(** The chain of [if]s of [improveWithAI] (dashboard.js lines 184-200):
    that of [generateCoverLetter], with no [try] of its own around it. *)
Definition extractImproved (result : value) : M string :=
  match get result "text" with
  | VStr t => ret (Str.trim t)
  | _ =>
      match get (get result "response") "text" with
      | VStr t => ret (Str.trim t)
      | _ =>
          if truthy (parts_of result) && isArray (parts_of result)
          then t <- lift (join_parts (parts_of result)) ;; ret (Str.trim t)
          else
            console LError "Unexpected GenAI response shape:" ;;
            throw (Error "AI returned no text")
      end
  end.

(** [improveWithAI({ current, type })] (dashboard.js lines 147-207).  [arg]
    is the argument of the action, [userId] what [auth()] gave, [user] what
    the database gave.  The prompt is a template literal over [type],
    [user.industry] and [current], written before the [try]: converting them
    to text can throw; the text itself is not kept. *)
Definition improveWithAI (arg userId user : value) : M value :=
  current <- lift (get_strict arg "current") ;;
  if negb (truthy userId) then throw (Error "Unauthorized")
  else if negb (truthy user) then throw (Error "User not found")
  else
    _ <- lift (ToString (get arg "type")) ;;
    _ <- lift (ToString (get user "industry")) ;;
    _ <- lift (ToString current) ;;
    catch
      (result <- generateContent backend "gemini-2.5-pro" ;;
       improvedContent <- extractImproved result ;;
       ret (VStr improvedContent))
      (fun error =>
         console LError "Error improving content:" ;;
         throw (Error "Failed to improve content")).

End Collaborators.

End Resume.

(* ===================================================================== *)
(** ** The records of the insights: spreading the answer of the model *)
(* ===================================================================== *)

Module Records.

Import Str Num JS Json.

(** The elements of a list under their indices, from [i] on. *)
Fixpoint indexed (i : nat) (l : list value) : list (string * value) :=
  match l with
  | [] => []
  | x :: r => (Z_to_string (Z.of_nat i), x) :: indexed (S i) r
  end.

(** [...v] in an object literal: the own enumerable properties of [v],
    which are the properties of an object, the elements of an array and the
    code units of a string under their indices, and nothing for any other
    value. *)
Definition spread (v : value) : list (string * value) :=
  match v with
  | VObj l => l
  | VArr l => indexed 0 l
  | VStr s => indexed 0 (map VStr (code_units s))
  | _ => []
  end.

(** An object literal: its properties are defined from left to right, a
    later definition of a name replacing the value of an earlier one.
    (Properties are read by name; the place that an index takes in the
    enumeration is not modelled.) *)
Definition object_of (fields : list (string * value)) : value :=
  VObj (fold_left (fun o kv => obj_set o (fst kv) (snd kv)) fields []).

(** The [data] of the record that [getIndustryInsights] creates
    (dashboard.js lines 75-79); [nextUpdate] is the date made from the
    clock. *)
Definition created_data (user insights nextUpdate : value) : value :=
  object_of ([("industry", get user "industry")] ++ spread insights
             ++ [("nextUpdate", nextUpdate)]).

(** The [data] of the update of the Inngest job (part_000 lines 72-76);
    [lastUpdated] and [nextUpdate] are the dates made from the clock. *)
Definition updated_data (insights lastUpdated nextUpdate : value) : value :=
  object_of (spread insights
             ++ [("lastUpdated", lastUpdated); ("nextUpdate", nextUpdate)]).

End Records.

(* ===================================================================== *)
(** * Properties *)
(* ===================================================================== *)

(** ** The prompts: what a template literal can print *)

Module Prompts.

Import Num JS Json Eff Quota Actions.

(** A value that a template literal, or [join], can print: its
    conversion to a string does not throw. *)
Definition printable (v : value) : Prop := exists s, ToString v = Ok s.

(** [x?.join(", ")] can be evaluated: [x] is [null] or [undefined], or an
    array of values that can be printed. *)
Definition joinable (x : value) : Prop :=
  x = VUndef \/ x = VNull \/ exists l, x = VArr l /\ printable (VArr l).

(** The prompt of [generateQuiz] (interview.js lines 24-44) can be
    written: [user.industry] can be printed, and [user.skills], when it has a
    truthy [length], is an array that can be joined. *)
Definition quiz_prompt_ok (user : value) : Prop :=
  printable (get user "industry") /\
  (truthy (get (get user "skills") "length") = true ->
   exists l, get user "skills" = VArr l /\ printable (VArr l)).

(** The prompt of the tip of [saveQuizResult] (interview.js lines 99-113)
    can be written: the question, the answer and the user's answer of every
    wrong result can be printed. *)
Definition tip_prompt_ok (results : list value) : Prop :=
  Forall (fun q => printable (get q "question") /\ printable (get q "answer")
                   /\ printable (get q "userAnswer"))
         (filter (fun q => negb (isCorrect q)) results).

(** The prompt of [generateCoverLetter] (part_000 lines 109-133) can be
    written. *)
Definition letter_prompt_ok (data user : value) : Prop :=
  data <> VUndef /\ data <> VNull /\
  printable (get data "jobTitle") /\ printable (get data "companyName") /\
  printable (get user "industry") /\ printable (get user "experience") /\
  joinable (get user "skills") /\ printable (get user "bio") /\
  printable (get data "jobDescription").

End Prompts.

Module PromptFacts.

Import Num JS Json Eff Quota Actions Prompts.

Lemma ToString_array (l : list value) : ToString (VArr l) = join_sep "," l.
Proof.
  cbn [ToString]. induction l as [|x r IH]; [reflexivity|].
  cbn [join_sep]. rewrite <- IH. reflexivity.
Qed.

(** Whether [join] throws does not depend on the separator. *)
Lemma join_sep_any (a b : string) (l : list value) :
  (exists s, join_sep a l = Ok s) -> exists s, join_sep b l = Ok s.
Proof.
  induction l as [|x r IH]; [intros _; exists EmptyString; reflexivity|].
  cbn [join_sep].
  destruct (match x with VUndef | VNull => Ok EmptyString | _ => ToString x end)
    as [sx | e]; [|intros (s & H); discriminate H].
  destruct r as [|y r']; [intros _; eauto|].
  destruct (join_sep a (y :: r')) as [sr | e]; [|intros (s & H); discriminate H].
  intros _. destruct IH as (sr' & ->); eauto.
Qed.

Lemma printable_join (l : list value) (sep : string) :
  printable (VArr l) -> exists s, join (VArr l) sep = Ok s.
Proof.
  unfold printable. rewrite ToString_array. apply join_sep_any.
Qed.

Lemma tip_lines_ok (results : list value) :
  tip_prompt_ok results ->
  tip_lines (filter (fun q => negb (isCorrect q)) results) = Ok tt.
Proof.
  unfold tip_prompt_ok.
  induction 1 as [|q rest ((s1 & H1) & (s2 & H2) & (s3 & H3)) _ IH]; [reflexivity|].
  cbn [tip_lines]. rewrite H1, H2, H3. exact IH.
Qed.

Section Collaborators.

Variable backend : trace -> string -> result value.
Variable db : trace -> string -> value -> result value.

(** With a prompt that can be written, an action is at its generation. *)
Lemma generateAIInsights_try (industry : value) (tr : trace) :
  printable industry ->
  generateAIInsights backend industry tr
  = bindM (generateContent backend "gemini-2.5-pro") (fun result =>
    bindM (extractText result) (fun text =>
    lift (JSON_parse (cleanedText text)))) tr.
Proof.
  intros (s & H). unfold generateAIInsights. unfold bindM at 1. unfold lift at 1.
  rewrite H. reflexivity.
Qed.

Lemma generateQuiz_try (userId user : value) (tr : trace) :
  truthy userId = true -> truthy user = true -> quiz_prompt_ok user ->
  generateQuiz backend userId user tr
  = catch (bindM (generateContent backend "gemini-2.5-pro") (fun result =>
           bindM (extractText result) (fun text =>
           bindM (lift (JSON_parse (cleaned text))) (fun quiz =>
           lift (get_strict quiz "questions")))))
          (fun _ => bindM (console LError "Error generating quiz:")
                          (fun _ => throw (Error "Failed to generate quiz questions"))) tr.
Proof.
  intros Hu Hv ((s & Hi) & Hs). unfold generateQuiz. rewrite Hu, Hv. cbn [negb].
  unfold bindM at 1. unfold lift at 1. rewrite Hi.
  unfold bindM at 1. unfold lift at 1.
  destruct (truthy (get (get user "skills") "length")); [|reflexivity].
  destruct (Hs eq_refl) as (l & -> & Hl).
  destruct (printable_join l ", " Hl) as (t & ->). reflexivity.
Qed.

Lemma generateCoverLetter_try (userId user data : value) (tr : trace) :
  truthy userId = true -> truthy user = true -> letter_prompt_ok data user ->
  generateCoverLetter backend db userId user data tr
  = catch (bindM (generate_with_fallback backend) (fun result =>
           bindM (extractContent result) (fun content =>
           bindM (db_write db "coverLetter"
                    (VObj [("content", VStr content);
                           ("jobDescription", get data "jobDescription");
                           ("companyName", get data "companyName");
                           ("jobTitle", get data "jobTitle");
                           ("status", VStr "completed");
                           ("userId", get user "id")])) (fun coverLetter =>
           ret coverLetter))))
          (fun _ => bindM (console LError "Error generating cover letter:")
                          (fun _ => throw (Error "Failed to generate cover letter"))) tr.
Proof.
  intros Hu Hv (Hd & Hn & (s1 & H1) & (s2 & H2) & (s3 & H3) & (s4 & H4) & Hj
                & (s6 & H6) & (s7 & H7)).
  assert (Hg : forall k, get_strict data k = Ok (get data k)).
  { intros k. destruct data; try reflexivity; congruence. }
  unfold generateCoverLetter. rewrite Hu, Hv. cbn [negb].
  unfold bindM at 1. unfold lift at 1. rewrite Hg. cbn [JS.bind]. rewrite H1.
  unfold bindM at 1. unfold lift at 1. rewrite Hg. cbn [JS.bind]. rewrite H2.
  unfold bindM at 1. unfold lift at 1. rewrite H3.
  unfold bindM at 1. unfold lift at 1. rewrite H4.
  unfold bindM at 1. unfold lift at 1.
  assert (Hs : exists s5, match get user "skills" with
                          | VUndef | VNull => ToString VUndef
                          | skills => join skills ", "
                          end = Ok s5).
  { destruct Hj as [-> | [-> | (l & -> & Hl)]];
      [exists "undefined"; reflexivity | exists "undefined"; reflexivity |].
    exact (printable_join l ", " Hl). }
  destruct Hs as (s5 & ->).
  unfold bindM at 1. unfold lift at 1. rewrite H6.
  unfold bindM at 1. unfold lift at 1. rewrite Hg. cbn [JS.bind]. rewrite H7.
  reflexivity.
Qed.

End Collaborators.

End PromptFacts.

(** ** The response extractor *)

Module ExtractFacts.

Import Num JS Eff Actions.

(** A fragment of the nested shape: an object (anything but [null] and
    [undefined]) whose [text] is the string [t], or is missing with [t]
    empty. *)
Definition fragment_ok (p : value) (t : string) : Prop :=
  p <> VUndef /\ p <> VNull /\
  (get p "text" = VStr t \/ (get p "text" = VUndef /\ t = EmptyString)).

Lemma concat_empty_cons (t : string) (ts : list string) :
  String.concat "" (t :: ts) = t ++ String.concat "" ts.
Proof.
  destruct ts as [|u us]; simpl.
  - induction t as [|c t IH]; simpl; [reflexivity | now rewrite <- IH].
  - reflexivity.
Qed.

Lemma fragment_text_ok (p : value) (t : string) :
  fragment_ok p t -> fragment_text p = Ok (VStr t).
Proof.
  intros (Hu & Hn & Ht). unfold fragment_text.
  assert (Hs : get_strict p "text" = Ok (get p "text"))
    by (destruct p; try reflexivity; congruence).
  rewrite Hs. simpl. destruct Ht as [-> | [-> ->]].
  - unfold or_else. destruct t; reflexivity.
  - reflexivity.
Qed.

Lemma map_fragments_ok (ps : list value) (ts : list string) :
  Forall2 fragment_ok ps ts ->
  exists ys, map_result fragment_text ps = Ok ys /\
             join_empty ys = Ok (String.concat "" ts).
Proof.
  induction 1 as [|p t ps ts Hp _ (ys & Hm & Hj)].
  - exists []. split; reflexivity.
  - exists (VStr t :: ys). split.
    + simpl. rewrite (fragment_text_ok _ _ Hp). simpl. rewrite Hm. reflexivity.
    + rewrite concat_empty_cons. simpl. rewrite Hj. reflexivity.
Qed.

Lemma join_parts_ok (ps : list value) (ts : list string) :
  Forall2 fragment_ok ps ts -> join_parts (VArr ps) = Ok (String.concat "" ts).
Proof.
  intros H. destruct (map_fragments_ok _ _ H) as (ys & Hm & Hj).
  unfold join_parts. rewrite Hm. exact Hj.
Qed.

Lemma extractText_pure (r : value) (tr : trace) (t : string) :
  fst (extractText r tr) = Ok t -> extractText r tr = (Ok t, tr).
Proof.
  unfold extractText. intros H.
  destruct (get r "text");
    try (unfold ret in *; simpl fst in H; rewrite H; reflexivity);
    (destruct (get (get r "response") "text");
     try (unfold ret in *; simpl fst in H; rewrite H; reflexivity);
     (destruct (truthy (parts_of r) && isArray (parts_of r));
      [ unfold lift in *; simpl fst in H; rewrite H; reflexivity
      | cbv in H; discriminate ])).
Qed.

(** The extractor of [generateCoverLetter] against the shared one: the
    same text, trimmed. *)
Lemma extractContent_ok (r : value) (tr : trace) (t : string) :
  fst (extractText r tr) = Ok t -> extractContent r tr = (Ok (Str.trim t), tr).
Proof.
  intros H. apply extractText_pure in H. revert H.
  unfold extractText, extractContent, catch.
  destruct (get r "text");
    try (unfold ret; intros [= ->]; reflexivity);
    (destruct (get (get r "response") "text");
     try (unfold ret; intros [= ->]; reflexivity);
     (destruct (truthy (parts_of r) && isArray (parts_of r));
      [ unfold bindM, lift, ret; intros [= ->]; reflexivity
      | intros H; apply (f_equal fst) in H; cbn in H; discriminate H ])).
Qed.

(** Whatever the shared extractor throws, the extractor of
    [generateCoverLetter] throws its own error. *)
Lemma extractContent_throw (r : value) (tr : trace) (e : value) :
  fst (extractText r tr) = Throw e ->
  fst (extractContent r tr) = Throw (Error "Failed to parse AI response").
Proof.
  unfold extractText, extractContent, catch.
  destruct (get r "text");
    try (unfold ret; simpl fst; discriminate);
    (destruct (get (get r "response") "text");
     try (unfold ret; simpl fst; discriminate);
     (destruct (truthy (parts_of r) && isArray (parts_of r));
      [ unfold bindM, lift, ret; simpl fst;
        destruct (join_parts (parts_of r)); [discriminate | reflexivity]
      | reflexivity ])).
Qed.

(** C1, first shape on the cover-letter path: the text field [" x "] is a
    string, and [generateCoverLetter] extracts ["x"], not the field. *)
Lemma cover_letter_text_is_trimmed :
  get (VObj [("text", VStr " x ")]) "text" = VStr " x " /\
  fst (extractContent (VObj [("text", VStr " x ")]) []) = Ok "x" /\
  fst (extractContent (VObj [("text", VStr " x ")]) []) <> Ok " x ".
Proof. repeat split. discriminate. Qed.

(** A fragment that is [null]: the extractor throws a [TypeError], in
    place of returning a text or of failing with its own error. *)
Lemma null_fragment_throws :
  extractText
    (VObj [("response",
            VObj [("candidates",
                   VArr [VObj [("content", VObj [("parts", VArr [VNull])])]])])])
    [] = (Throw TypeError, []).
Proof. reflexivity. Qed.

(** C1 (amended).  The extractor shared by [generateAIInsights],
    [generateQuiz], [saveQuizResult] and the Inngest job tries the three
    shapes in order, the first that matches wins: a textual [text] is returned
    as it is; otherwise a textual [response.text]; otherwise, when
    [response.candidates[0].content.parts] is a list of fragments, the
    concatenation in list order of the fragments' texts, a missing text
    counting as the empty string; and an envelope of none of the three shapes
    fails with [Error("AI returned no text")].  The extractor of
    [generateCoverLetter] selects the same text and returns it trimmed, and
    turns every failure into [Error("Failed to parse AI response")]. *)
Theorem extract_precedence (r : value) (tr : trace) :
  (forall t, get r "text" = VStr t -> extractText r tr = (Ok t, tr)) /\
  (forall t, is_string (get r "text") = false ->
             get (get r "response") "text" = VStr t ->
             extractText r tr = (Ok t, tr)) /\
  (forall ps ts, is_string (get r "text") = false ->
                 is_string (get (get r "response") "text") = false ->
                 parts_of r = VArr ps ->
                 Forall2 fragment_ok ps ts ->
                 extractText r tr = (Ok (String.concat "" ts), tr)) /\
  (is_string (get r "text") = false ->
   is_string (get (get r "response") "text") = false ->
   isArray (parts_of r) = false ->
   fst (extractText r tr) = Throw (Error "AI returned no text")) /\
  (forall t, fst (extractText r tr) = Ok t ->
             extractContent r tr = (Ok (Str.trim t), tr)) /\
  (forall e, fst (extractText r tr) = Throw e ->
             fst (extractContent r tr) = Throw (Error "Failed to parse AI response")).
Proof.
  repeat split.
  - intros t H. unfold extractText. rewrite H. reflexivity.
  - intros t H1 H2. unfold extractText. rewrite H2.
    destruct (get r "text"); try reflexivity. discriminate.
  - intros ps ts H1 H2 Hp Hf. unfold extractText.
    destruct (get r "text"); try discriminate;
      (destruct (get (get r "response") "text"); try discriminate;
       rewrite Hp; cbn [truthy isArray andb]; unfold lift;
       rewrite (join_parts_ok _ _ Hf); reflexivity).
  - intros H1 H2 Ha. unfold extractText.
    destruct (get r "text"); try discriminate;
      (destruct (get (get r "response") "text"); try discriminate;
       rewrite Ha, andb_false_r; reflexivity).
  - apply extractContent_ok.
  - apply extractContent_throw.
Qed.

(** The envelope of scenario C of the specification: the nested shape
    with the two fragments ["Hello, "] and ["world!"]. *)
Definition scenario_C : value :=
  VObj [("response",
         VObj [("candidates",
                VArr [VObj [("content",
                             VObj [("parts",
                                    VArr [VObj [("text", VStr "Hello, ")];
                                          VObj [("text", VStr "world!")]])])]])])].

Lemma extract_precedence_witness :
  extractText scenario_C [] = (Ok "Hello, world!", []).
Proof.
  refine (proj1 (proj2 (proj2 (extract_precedence scenario_C [])))
            [VObj [("text", VStr "Hello, ")]; VObj [("text", VStr "world!")]]
            ["Hello, "; "world!"] eq_refl eq_refl eq_refl _).
  repeat constructor; discriminate.
Defined.

End ExtractFacts.

(** ** Strings and white space *)

Module StrFacts.

Import Str.

Lemma append_empty_r (s : string) : s ++ EmptyString = s.
Proof. induction s as [|c s IH]; simpl; [reflexivity | now rewrite IH]. Qed.

Lemma append_assoc (a b c : string) : (a ++ b) ++ c = a ++ (b ++ c).
Proof. induction a as [|x a IH]; simpl; [reflexivity | now rewrite IH]. Qed.

Lemma ws2_second (c1 c2 : ascii) : ws2 c1 c2 = true -> code c2 = 160.
Proof.
  unfold ws2. intros H. apply andb_prop in H. destruct H as [_ H].
  now apply Z.eqb_eq in H.
Qed.

Lemma ws3_third (c1 c2 c3 : ascii) : ws3 c1 c2 c3 = true -> 128 <= code c3.
Proof.
  unfold ws3. intros H.
  repeat match goal with
         | H : (_ || _) = true |- _ => apply orb_prop in H; destruct H as [H | H]
         | H : (_ && _) = true |- _ =>
             let H1 := fresh "H" in apply andb_prop in H; destruct H as [H1 H]
         | H : (_ =? _) = true |- _ => apply Z.eqb_eq in H
         | H : (_ <=? _) = true |- _ => apply Z.leb_le in H
         end; lia.
Qed.

Lemma ws3_first (c1 c2 c3 : ascii) : ws3 c1 c2 c3 = true -> 225 <= code c1.
Proof.
  unfold ws3. intros H.
  repeat match goal with
         | H : (_ || _) = true |- _ => apply orb_prop in H; destruct H as [H | H]
         | H : (_ && _) = true |- _ =>
             let H1 := fresh "H" in apply andb_prop in H; destruct H as [H1 H]
         | H : (_ =? _) = true |- _ => apply Z.eqb_eq in H
         | H : (_ <=? _) = true |- _ => apply Z.leb_le in H
         end; lia.
Qed.

(** A string that starts with an ASCII character that is not white space
    is left alone by [trimStart]. *)
Lemma trimStart_head (c : ascii) (r : string) :
  ws1 c = false -> code c < 128 -> trimStart (String c r) = String c r.
Proof.
  intros H1 Hc. simpl. rewrite H1.
  destruct r as [|c2 r2]; [reflexivity|].
  destruct (ws2 c c2) eqn:H2.
  { unfold ws2 in H2. apply andb_prop in H2. destruct H2 as [H2 _].
    apply Z.eqb_eq in H2. lia. }
  destruct r2 as [|c3 r3]; [reflexivity|].
  destruct (ws3 c c2 c3) eqn:H3; [|reflexivity].
  apply ws3_first in H3. lia.
Qed.

Lemma trimEnd_head (c : ascii) (r : string) :
  ws1 c = false -> code c < 128 -> exists r', trimEnd (String c r) = String c r'.
Proof.
  intros H1 Hc. exists (trimEnd r).
  change (trimEnd (String c r))
    with (if isEmpty (trimStart (String c r)) then EmptyString else String c (trimEnd r)).
  rewrite (trimStart_head c r H1 Hc). reflexivity.
Qed.

Lemma trimStart_eq (c1 : ascii) (r1 : string) :
  trimStart (String c1 r1)
  = if ws1 c1 then trimStart r1
    else match r1 with
         | EmptyString => String c1 r1
         | String c2 r2 =>
             if ws2 c1 c2 then trimStart r2
             else match r2 with
                  | EmptyString => String c1 r1
                  | String c3 r3 => if ws3 c1 c2 c3 then trimStart r3 else String c1 r1
                  end
         end.
Proof. reflexivity. Qed.

(** Appending an ASCII white space character: what [trimStart] leaves. *)
Lemma trimStart_snoc_ws_aux (w : ascii) (Hw : ws1 w = true) (Ha : code w < 128) (n : nat) :
  forall t, (String.length t <= n)%nat ->
    trimStart (t ++ String w EmptyString)
    = if isEmpty (trimStart t) then EmptyString
      else trimStart t ++ String w EmptyString.
Proof.
  induction n as [|n IH]; intros t Hlen.
  - destruct t; [simpl; now rewrite Hw | simpl in Hlen; lia].
  - destruct t as [|c1 r1]; [simpl; now rewrite Hw|].
    simpl String.length in Hlen.
    change ((String c1 r1) ++ String w EmptyString)
      with (String c1 (r1 ++ String w EmptyString)).
    rewrite (trimStart_eq c1 r1), (trimStart_eq c1 (r1 ++ String w EmptyString)).
    destruct (ws1 c1) eqn:H1.
    { apply IH. lia. }
    destruct r1 as [|c2 r2].
    { simpl. destruct (ws2 c1 w) eqn:H2; [|reflexivity].
      apply ws2_second in H2. lia. }
    change ((String c2 r2) ++ String w EmptyString)
      with (String c2 (r2 ++ String w EmptyString)).
    cbv iota. destruct (ws2 c1 c2) eqn:H2.
    { apply IH. simpl in Hlen. lia. }
    destruct r2 as [|c3 r3].
    { simpl. destruct (ws3 c1 c2 w) eqn:H3; [|reflexivity].
      apply ws3_third in H3. lia. }
    change ((String c3 r3) ++ String w EmptyString)
      with (String c3 (r3 ++ String w EmptyString)).
    cbv iota. destruct (ws3 c1 c2 c3) eqn:H3.
    { apply IH. simpl in Hlen. lia. }
    reflexivity.
Qed.

Lemma trimStart_snoc_ws (w : ascii) (t : string) :
  ws1 w = true -> code w < 128 ->
  trimStart (t ++ String w EmptyString)
  = if isEmpty (trimStart t) then EmptyString
    else trimStart t ++ String w EmptyString.
Proof. intros Hw Ha. apply (trimStart_snoc_ws_aux w Hw Ha (String.length t)). lia. Qed.

Lemma trimEnd_snoc_ws (w : ascii) (x : string) :
  ws1 w = true -> code w < 128 -> trimEnd (x ++ String w EmptyString) = trimEnd x.
Proof.
  intros Hw Ha. induction x as [|c x IH]; [simpl; now rewrite Hw|].
  change ((String c x) ++ String w EmptyString)
    with (String c (x ++ String w EmptyString)).
  change (trimEnd (String c (x ++ String w EmptyString)))
    with (if isEmpty (trimStart (String c (x ++ String w EmptyString)))
          then EmptyString else String c (trimEnd (x ++ String w EmptyString))).
  change (trimEnd (String c x))
    with (if isEmpty (trimStart (String c x)) then EmptyString else String c (trimEnd x)).
  rewrite IH.
  change (String c (x ++ String w EmptyString))
    with ((String c x) ++ String w EmptyString).
  rewrite (trimStart_snoc_ws w _ Hw Ha).
  destruct (trimStart (String c x)); reflexivity.
Qed.

(** A text that ends in an ASCII character that is not white space is not
    all white space. *)
Lemma trimStart_snoc_solid_aux (w : ascii) (Hw : ws1 w = false) (Ha : code w < 128) (n : nat) :
  forall t, (String.length t <= n)%nat ->
    isEmpty (trimStart (t ++ String w EmptyString)) = false.
Proof.
  induction n as [|n IH]; intros t Hlen.
  - destruct t; [simpl; now rewrite Hw | simpl in Hlen; lia].
  - destruct t as [|c1 r1]; [simpl; now rewrite Hw|].
    simpl String.length in Hlen.
    change ((String c1 r1) ++ String w EmptyString)
      with (String c1 (r1 ++ String w EmptyString)).
    rewrite (trimStart_eq c1 (r1 ++ String w EmptyString)).
    destruct (ws1 c1) eqn:H1.
    { apply IH. lia. }
    destruct r1 as [|c2 r2].
    { simpl. destruct (ws2 c1 w) eqn:H2; [|reflexivity].
      apply ws2_second in H2. lia. }
    change ((String c2 r2) ++ String w EmptyString)
      with (String c2 (r2 ++ String w EmptyString)).
    cbv iota. destruct (ws2 c1 c2) eqn:H2.
    { apply IH. simpl in Hlen. lia. }
    destruct r2 as [|c3 r3].
    { simpl. destruct (ws3 c1 c2 w) eqn:H3; [|reflexivity].
      apply ws3_third in H3. lia. }
    change ((String c3 r3) ++ String w EmptyString)
      with (String c3 (r3 ++ String w EmptyString)).
    cbv iota. destruct (ws3 c1 c2 c3) eqn:H3.
    { apply IH. simpl in Hlen. lia. }
    reflexivity.
Qed.

Lemma trimEnd_snoc_solid (w : ascii) (x : string) :
  ws1 w = false -> code w < 128 ->
  trimEnd (x ++ String w EmptyString) = x ++ String w EmptyString.
Proof.
  intros Hw Ha. induction x as [|c x IH]; [simpl; now rewrite Hw|].
  change ((String c x) ++ String w EmptyString)
    with (String c (x ++ String w EmptyString)).
  change (trimEnd (String c (x ++ String w EmptyString)))
    with (if isEmpty (trimStart (String c (x ++ String w EmptyString)))
          then EmptyString else String c (trimEnd (x ++ String w EmptyString))).
  rewrite IH.
  change (String c (x ++ String w EmptyString))
    with ((String c x) ++ String w EmptyString).
  rewrite (trimStart_snoc_solid_aux w Hw Ha (String.length (String c x))) by lia.
  reflexivity.
Qed.

Lemma trim_snoc_ws (w : ascii) (t : string) :
  ws1 w = true -> code w < 128 -> trim (t ++ String w EmptyString) = trim t.
Proof.
  intros Hw Ha. unfold trim. rewrite (trimStart_snoc_ws w t Hw Ha).
  destruct (trimStart t) eqn:E; [reflexivity|].
  cbv [isEmpty]. now apply trimEnd_snoc_ws.
Qed.

(** [(t + "\n").trim()] is [t.trim()]. *)
Lemma trim_newline (t : string) : trim (t ++ String "010" EmptyString) = trim t.
Proof. apply trim_snoc_ws; reflexivity. Qed.

Lemma length_append (a b : string) :
  String.length (a ++ b) = (String.length a + String.length b)%nat.
Proof. induction a as [|c a IH]; simpl; [reflexivity | now rewrite IH]. Qed.

End StrFacts.

(** ** The JSON extractor: fences *)

Module FenceFacts.

Import Str JS Json Regex Actions StrFacts.

(** [t] between an opening fence, with or without the [json] tag, and a
    closing fence, each on a line of its own. *)
Definition wrap (tag : bool) (t : string) : string :=
  fence ++ (if tag then "json" else EmptyString)
        ++ String newline (t ++ String newline fence).

(** Follows the specification: wrapping [t] and extracting gives what
    parsing [t] directly gives. *)
Definition spec_fence_roundtrip (t : string) : Prop :=
  JSON_parse (cleanedText (wrap true t)) = JSON_parse t.

Lemma prefix_cons (a b : ascii) (s1 s2 : string) :
  String.prefix (String a s1) (String b s2)
  = if ascii_dec a b then String.prefix s1 s2 else false.
Proof. reflexivity. Qed.

Lemma prefix_app_true (a b s : string) :
  String.prefix (a ++ b) s = true -> String.prefix a s = true.
Proof.
  revert s. induction a as [|x a IH]; intros s H.
  - destruct s; reflexivity.
  - destruct s as [|y s]; [discriminate H|].
    change ((String x a) ++ b) with (String x (a ++ b)) in H.
    rewrite prefix_cons in *.
    destruct (ascii_dec x y); [apply IH; exact H | discriminate].
Qed.

Lemma prefix_fence_newline (t r : string) :
  String.prefix fence t = false ->
  String.prefix fence (t ++ String newline r) = false.
Proof.
  unfold fence. intros H.
  destruct t as [|c1 t]; [reflexivity|].
  change ((String c1 t) ++ String newline r) with (String c1 (t ++ String newline r)).
  rewrite prefix_cons in *. destruct (ascii_dec "`" c1); [|reflexivity].
  destruct t as [|c2 t]; [reflexivity|].
  change ((String c2 t) ++ String newline r) with (String c2 (t ++ String newline r)).
  rewrite prefix_cons in *. destruct (ascii_dec "`" c2); [|reflexivity].
  destruct t as [|c3 t]; [reflexivity|].
  change ((String c3 t) ++ String newline r) with (String c3 (t ++ String newline r)).
  rewrite prefix_cons in *. destruct (ascii_dec "`" c3); [|reflexivity].
  destruct t; discriminate.
Qed.

Lemma fence_json_nl_none (s : string) :
  String.prefix fence s = false -> fence_json_nl s = None.
Proof. intros H. unfold fence_json_nl. rewrite H. reflexivity. Qed.

Lemma fence_or_json_none (s : string) :
  String.prefix fence s = false -> fence_or_json s = None.
Proof.
  intros H. unfold fence_or_json. rewrite H.
  destruct (String.prefix "```json" s) eqn:E; [|reflexivity].
  apply (prefix_app_true fence "json") in E. congruence.
Qed.

(** A text with no fence in it passes through the replacement, and the
    closing fence after it goes. *)
Lemma remove_all_no_fence (f : string -> option nat) :
  (forall s, String.prefix fence s = false -> f s = None) ->
  remove_all f 0 (String newline fence) = String newline EmptyString ->
  forall t, Str.includes t fence = false ->
    remove_all f 0 (t ++ String newline fence) = t ++ String newline EmptyString.
Proof.
  intros Hf Hend t. induction t as [|c t IH]; intros H.
  - exact Hend.
  - simpl in H. apply orb_false_elim in H. destruct H as [Hp Hi].
    change ((String c t) ++ String newline fence)
      with (String c (t ++ String newline fence)).
    change (remove_all f 0 (String c (t ++ String newline fence)))
      with (match f (String c (t ++ String newline fence)) with
            | Some (S n) => remove_all f n (t ++ String newline fence)
            | _ => String c (remove_all f 0 (t ++ String newline fence))
            end).
    pose proof (Hf _ (prefix_fence_newline (String c t) fence Hp)) as E.
    change ((String c t) ++ String newline fence)
      with (String c (t ++ String newline fence)) in E.
    rewrite E, (IH Hi). reflexivity.
Qed.

Lemma cleanedText_wrap (tag : bool) (t : string) :
  Str.includes t fence = false -> cleanedText (wrap tag t) = Str.trim t.
Proof.
  intros H. unfold cleanedText.
  replace (remove_all fence_json_nl 0 (wrap tag t))
    with (remove_all fence_json_nl 0 (t ++ String newline fence))
    by (destruct tag; reflexivity).
  rewrite (remove_all_no_fence fence_json_nl fence_json_nl_none eq_refl t H).
  apply trim_newline.
Qed.

Lemma cleaned_wrap (tag : bool) (t : string) :
  Str.includes t fence = false -> cleaned (wrap tag t) = Str.trim t.
Proof.
  intros H. unfold cleaned.
  replace (remove_all fence_or_json 0 (wrap tag t))
    with (String newline (remove_all fence_or_json 0 (t ++ String newline fence)))
    by (destruct tag; reflexivity).
  rewrite (remove_all_no_fence fence_or_json fence_or_json_none eq_refl t H).
  unfold trim. rewrite (trimStart_eq newline). cbn [ws1 code newline].
  apply trim_newline.
Qed.

End FenceFacts.

(** ** [JSON.parse]: what a result tells about the text *)

Module JsonFacts.

Import Str JS Json StrFacts.

(** [JSON.parse] throws nothing but a [SyntaxError]. *)
Lemma JSON_parse_throws (s : string) (e : value) :
  JSON_parse s = Throw e -> e = SyntaxError.
Proof.
  unfold JSON_parse.
  destruct (parse_value (fuel_for s) (skip_ws s)) as [v rest | |];
    [destruct (isEmpty (skip_ws rest))|..]; congruence.
Qed.

(** Syntactically valid JSON. *)
Definition valid_json (s : string) : Prop := exists v, JSON_parse s = Ok v.

Lemma invalid_json_throws (s : string) :
  ~ valid_json s -> JSON_parse s = Throw SyntaxError.
Proof.
  intros H. destruct (JSON_parse s) as [v | e] eqn:E.
  - exfalso. apply H. exists v. exact E.
  - now rewrite (JSON_parse_throws s e E).
Qed.

Lemma pmap_inv {A B : Type} (f : A -> B) (r : pres A) (b : B) (rest : string) :
  pmap f r = POk b rest -> exists a, r = POk a rest /\ b = f a.
Proof. destruct r; simpl; intros [= <- <-] || discriminate. eauto. Qed.

(** Only a text that starts with a brace parses to an object. *)
Lemma parse_value_object (f : nat) (s : string) (l : list (string * value)) (rest : string) :
  parse_value f s = POk (VObj l) rest -> exists r, s = String "{" r.
Proof.
  destruct f as [|f]; [discriminate|].
  destruct s as [|c r]; [discriminate|]. cbn [parse_value].
  destruct (Ascii.eqb_spec c "{") as [-> | _]; [eauto|].
  destruct (Ascii.eqb c "[").
  { destruct (expect "]" (skip_ws r)); [discriminate|].
    intros H; apply pmap_inv in H; destruct H as (a & _ & Ha); discriminate Ha. }
  destruct (Ascii.eqb c dquote).
  { intros H; apply pmap_inv in H; destruct H as (a & _ & Ha); discriminate Ha. }
  destruct (String.prefix "true" (String c r)); [discriminate|].
  destruct (String.prefix "false" (String c r)); [discriminate|].
  destruct (String.prefix "null" (String c r)); [discriminate|].
  intros H; apply pmap_inv in H; destruct H as (a & _ & Ha); discriminate Ha.
Qed.

Lemma json_ws_ws1 (c : ascii) : json_ws c = true -> ws1 c = true.
Proof.
  unfold json_ws, ws1. intros H.
  repeat match goal with
         | H : (_ || _) = true |- _ => apply orb_prop in H; destruct H as [H | H]
         | H : (_ =? _) = true |- _ => apply Z.eqb_eq in H; rewrite H
         end; reflexivity.
Qed.

Lemma trimStart_skip_ws (s : string) : trimStart s = trimStart (skip_ws s).
Proof.
  induction s as [|c s IH]; [reflexivity|].
  simpl skip_ws. destruct (json_ws c) eqn:E; [|reflexivity].
  rewrite trimStart_eq, (json_ws_ws1 c E). exact IH.
Qed.

(** The test that [parseRetryMs] and [isQuotaError] make before they
    parse loses nothing: a text that parses to an object is not empty and
    starts, once trimmed, with a brace. *)
Lemma object_text_starts_with_brace (m : string) (l : list (string * value)) :
  JSON_parse m = Ok (VObj l) ->
  negb (isEmpty m) && startsWith (trim m) "{" = true.
Proof.
  unfold JSON_parse. intros H.
  destruct (parse_value (fuel_for m) (skip_ws m)) as [v rest | |] eqn:E; try discriminate.
  destruct (isEmpty (skip_ws rest)); [|discriminate].
  injection H as ->.
  destruct (parse_value_object _ _ _ _ E) as (r & Hr).
  assert (Hm : isEmpty m = false).
  { destruct m; [discriminate Hr | reflexivity]. }
  rewrite Hm. simpl negb. simpl andb.
  unfold trim. rewrite (trimStart_skip_ws m), Hr.
  rewrite (trimStart_head "{" r eq_refl) by (cbv; reflexivity).
  destruct (trimEnd_head "{" r eq_refl) as (r' & ->); [cbv; reflexivity|].
  destruct r'; reflexivity.
Qed.

End JsonFacts.

(** ** [JSON.parse]: fuel *)

Module JsonFuel.

Import Str Num JS Json.

Local Open Scope nat_scope.

Lemma skip_ws_length (s : string) : String.length (skip_ws s) <= String.length s.
Proof.
  induction s as [|c s IH]; simpl; [lia|].
  destruct (json_ws c); simpl; lia.
Qed.

Lemma expect_length (c : ascii) (s r : string) :
  expect c s = Some r -> String.length s = S (String.length r).
Proof.
  destruct s as [|x s]; simpl; [discriminate|].
  destruct (Ascii.eqb x c); [intros [= ->]; reflexivity | discriminate].
Qed.

Lemma emit_inv (pre : string) (r : pres string) (a rest : string) :
  emit pre r = POk a rest -> exists a', r = POk a' rest.
Proof. destruct r; simpl; intros [= _ <-] || discriminate. eauto. Qed.

Lemma emit_fuel (pre : string) (r : pres string) : emit pre r = PFuel -> r = PFuel.
Proof. destruct r; simpl; congruence. Qed.

Lemma str_body_length (s : string) :
  forall st hi a r, str_body st hi s = POk a r -> String.length r < String.length s.
Proof.
  induction s as [|c s IH]; intros st hi a r; [discriminate|].
  cbn [str_body String.length].
  assert (Hemit : forall pre st' hi',
             emit pre (str_body st' hi' s) = POk a r -> String.length r < S (String.length s)).
  { intros pre st' hi' H. apply emit_inv in H. destruct H as (a' & H).
    apply IH in H. lia. }
  destruct st as [| | k acc].
  - destruct (Ascii.eqb c dquote); [intros [= _ <-]; lia|].
    destruct (Ascii.eqb c backslash); [intros H; apply IH in H; lia|].
    destruct (code c <? 32)%Z; [discriminate|]. apply Hemit.
  - repeat match goal with
           | |- context [if ?b then _ else _] => destruct b; [apply Hemit|]
           end.
    destruct (Ascii.eqb c "u"); [intros H; apply IH in H; lia | discriminate].
  - destruct (hex_val c) as [d|]; [|discriminate].
    destruct k as [|[|k]]; [discriminate | |intros H; apply IH in H; lia].
    destruct hi as [h|].
    + destruct (is_low _); [apply Hemit|]. destruct (is_high _); apply Hemit.
    + destruct (is_high _); [intros H; apply IH in H; lia | apply Hemit].
Qed.

Lemma str_body_fuel (s : string) : forall st hi, str_body st hi s <> PFuel.
Proof.
  induction s as [|c s IH]; intros st hi; [discriminate|].
  cbn [str_body].
  assert (Hemit : forall pre st' hi', emit pre (str_body st' hi' s) <> PFuel).
  { intros pre st' hi' H. apply emit_fuel in H. exact (IH _ _ H). }
  destruct st as [| | k acc].
  - destruct (Ascii.eqb c dquote); [discriminate|].
    destruct (Ascii.eqb c backslash); [apply IH|].
    destruct (code c <? 32)%Z; [discriminate | apply Hemit].
  - repeat match goal with
           | |- context [if ?b then _ else _] => destruct b; [apply Hemit|]
           end.
    destruct (Ascii.eqb c "u"); [apply IH | discriminate].
  - destruct (hex_val c) as [d|]; [|discriminate].
    destruct k as [|[|k]]; [discriminate | | apply IH].
    destruct hi as [h|].
    + destruct (is_low _); [apply Hemit|]. destruct (is_high _); apply Hemit.
    + destruct (is_high _); [apply IH | apply Hemit].
Qed.

Lemma span_digits_length (s : string) :
  String.length (fst (span_digits s)) + String.length (snd (span_digits s))
  = String.length s.
Proof.
  induction s as [|c s IH]; [reflexivity|].
  simpl. destruct (is_digit c); [|reflexivity].
  destruct (span_digits s) as [d rest]. simpl in *. lia.
Qed.

Lemma isEmpty_length (s : string) : isEmpty s = false -> 0 < String.length s.
Proof. destruct s; [discriminate | simpl; lia]. Qed.

Lemma parse_exponent_length (s : string) (ex : Z) (rest : string) :
  parse_exponent s = POk ex rest -> String.length rest <= String.length s.
Proof.
  unfold parse_exponent. destruct s as [|c r]; [intros [= _ <-]; lia|].
  destruct (Ascii.eqb c "e" || Ascii.eqb c "E"); [|intros [= _ <-]; lia].
  assert (H : forall sg r1, String.length r1 <= String.length r ->
            (let '(d, rest0) := span_digits r1 in
             if isEmpty d then PErr
             else POk (if sg : bool then (- dec_value 0 d)%Z else dec_value 0 d) rest0)
            = POk ex rest -> String.length rest <= String.length (String c r)).
  { intros sg r1 Hr. pose proof (span_digits_length r1) as Hl.
    destruct (span_digits r1) as [d rest0]. simpl in Hl.
    destruct (isEmpty d); [discriminate|]. intros [= _ <-]. simpl. lia. }
  destruct (expect "-" r) as [r'|] eqn:E1.
  { apply (H true r'). apply expect_length in E1. lia. }
  destruct (expect "+" r) as [r'|] eqn:E2.
  { apply (H false r'). apply expect_length in E2. lia. }
  apply (H false r). lia.
Qed.

Lemma parse_exponent_fuel (s : string) : parse_exponent s <> PFuel.
Proof.
  unfold parse_exponent. destruct s as [|c r]; [discriminate|].
  destruct (Ascii.eqb c "e" || Ascii.eqb c "E"); [|discriminate].
  destruct (expect "-" r); [|destruct (expect "+" r)];
    match goal with
    | |- context [span_digits ?x] => destruct (span_digits x) as [d rest0]
    end; destruct (isEmpty d); discriminate.
Qed.

Lemma parse_number_length (s : string) (n : number) (rest : string) :
  parse_number s = POk n rest -> String.length rest < String.length s.
Proof.
  unfold parse_number.
  assert (H : forall sg s1, String.length s1 <= String.length s ->
            (let '(ip, s2) := span_digits s1 in
             if isEmpty ip || leading_zero ip then PErr
             else
               match
                 match expect "." s2 with
                 | Some r =>
                     let '(d, rest0) := span_digits r in
                     if isEmpty d then PErr else POk d rest0
                 | None => POk EmptyString s2
                 end
               with
               | POk fp s3 =>
                   match parse_exponent s3 with
                   | POk ex rest0 => POk (of_decimal sg ip fp ex) rest0
                   | PErr => PErr
                   | PFuel => PFuel
                   end
               | PErr => PErr
               | PFuel => PFuel
               end) = POk n rest -> String.length rest < String.length s).
  { intros sg s1 Hs1. pose proof (span_digits_length s1) as Hl.
    destruct (span_digits s1) as [ip s2]. simpl in Hl.
    destruct (isEmpty ip) eqn:Ei; [discriminate|]. apply isEmpty_length in Ei.
    destruct (leading_zero ip); [discriminate|]. cbn [orb].
    destruct (expect "." s2) as [r|] eqn:Ed.
    - apply expect_length in Ed. pose proof (span_digits_length r) as Hl2.
      destruct (span_digits r) as [d rest0]. simpl in Hl2.
      destruct (isEmpty d); [discriminate|].
      destruct (parse_exponent rest0) as [ex rest1| |] eqn:Ee; try discriminate.
      apply parse_exponent_length in Ee. intros [= _ <-]. lia.
    - destruct (parse_exponent s2) as [ex rest1| |] eqn:Ee; try discriminate.
      apply parse_exponent_length in Ee. intros [= _ <-]. lia. }
  destruct (expect "-" s) as [r|] eqn:E.
  - apply (H true r). apply expect_length in E. lia.
  - apply (H false s). lia.
Qed.

Lemma parse_number_fuel (s : string) : parse_number s <> PFuel.
Proof.
  unfold parse_number.
  destruct (expect "-" s);
    match goal with
    | |- context [span_digits ?x] => destruct (span_digits x) as [ip s2]
    end;
    (destruct (isEmpty ip || leading_zero ip); [discriminate|]);
    (destruct (expect "." s2) as [r|];
     [ destruct (span_digits r) as [d rest0]; destruct (isEmpty d); [discriminate|] | ]);
    match goal with
    | |- context [parse_exponent ?x] =>
        pose proof (parse_exponent_fuel x); destruct (parse_exponent x)
    end; congruence.
Qed.

Lemma prefix_drop_length (p s : string) :
  String.prefix p s = true ->
  String.length (drop (String.length p) s) + String.length p = String.length s.
Proof.
  revert s. induction p as [|a p IH]; intros s H.
  - simpl. lia.
  - destruct s as [|b s]; [discriminate H|].
    simpl in H. destruct (ascii_dec a b); [|discriminate].
    simpl. specialize (IH s H). lia.
Qed.


Lemma pmap_ok {A B : Type} (f : A -> B) (r : pres A) (b : B) (rest : string) :
  pmap f r = POk b rest -> exists a, r = POk a rest.
Proof. destruct r; simpl; intros [= _ <-] || discriminate. eauto. Qed.

Lemma pmap_fuel {A B : Type} (f : A -> B) (r : pres A) : pmap f r = PFuel -> r = PFuel.
Proof. destruct r; simpl; congruence. Qed.

Lemma prefix_drop_lt (p s : string) :
  String.prefix p s = true -> 0 < String.length p ->
  String.length (drop (String.length p) s) < String.length s.
Proof. intros H Hp. apply prefix_drop_length in H. lia. Qed.

(** Every successful parse consumes at least one character. *)
Lemma parse_length (f : nat) :
  (forall s v r, parse_value f s = POk v r -> String.length r < String.length s) /\
  (forall s acc l r, parse_elems f s acc = POk l r -> String.length r < String.length s) /\
  (forall s acc l r, parse_members f s acc = POk l r -> String.length r < String.length s).
Proof.
  induction f as [|f (IHv & IHe & IHm)]; [repeat split; discriminate|].
  split; [|split].
  - intros s v r. cbn [parse_value]. destruct s as [|c r0]; [discriminate|].
    pose proof (skip_ws_length r0) as Hw. cbn [String.length].
    destruct (Ascii.eqb c "{").
    { destruct (expect "}" (skip_ws r0)) as [r'|] eqn:E.
      - apply expect_length in E. intros [= _ <-]. lia.
      - intros H. apply pmap_ok in H. destruct H as (a & H). apply IHm in H. lia. }
    destruct (Ascii.eqb c "[").
    { destruct (expect "]" (skip_ws r0)) as [r'|] eqn:E.
      - apply expect_length in E. intros [= _ <-]. lia.
      - intros H. apply pmap_ok in H. destruct H as (a & H). apply IHe in H. lia. }
    destruct (Ascii.eqb c dquote).
    { intros H. apply pmap_ok in H. destruct H as (a & H).
      apply str_body_length in H. lia. }
    destruct (String.prefix "true" (String c r0)) eqn:Pt.
    { intros [= _ <-]. exact (prefix_drop_lt "true" _ Pt ltac:(simpl; lia)). }
    destruct (String.prefix "false" (String c r0)) eqn:Pf.
    { intros [= _ <-]. exact (prefix_drop_lt "false" _ Pf ltac:(simpl; lia)). }
    destruct (String.prefix "null" (String c r0)) eqn:Pn.
    { intros [= _ <-]. exact (prefix_drop_lt "null" _ Pn ltac:(simpl; lia)). }
    intros H. apply pmap_ok in H. destruct H as (a & H).
    apply parse_number_length in H. cbn [String.length] in H. lia.
  - intros s acc l r. cbn [parse_elems].
    destruct (parse_value f s) as [v r1| |] eqn:Ev; try discriminate.
    apply IHv in Ev. pose proof (skip_ws_length r1) as Hw.
    destruct (expect "," (skip_ws r1)) as [r'|] eqn:E1.
    { apply expect_length in E1. pose proof (skip_ws_length r') as Hw'.
      intros H. apply IHe in H. lia. }
    destruct (expect "]" (skip_ws r1)) as [r'|] eqn:E2; [|discriminate].
    apply expect_length in E2. intros [= _ <-]. lia.
  - intros s acc l r. cbn [parse_members]. destruct s as [|c r0]; [discriminate|].
    cbn [String.length].
    destruct (Ascii.eqb c dquote); [|discriminate].
    destruct (str_body SPlain None r0) as [k r1| |] eqn:Es; try discriminate.
    apply str_body_length in Es. pose proof (skip_ws_length r1) as Hw1.
    destruct (expect ":" (skip_ws r1)) as [r2|] eqn:E1; [|discriminate].
    apply expect_length in E1. pose proof (skip_ws_length r2) as Hw2.
    destruct (parse_value f (skip_ws r2)) as [v r3| |] eqn:Ev; try discriminate.
    apply IHv in Ev. pose proof (skip_ws_length r3) as Hw3.
    destruct (expect "," (skip_ws r3)) as [r4|] eqn:E2.
    { apply expect_length in E2. pose proof (skip_ws_length r4) as Hw4.
      intros H. apply IHm in H. lia. }
    destruct (expect "}" (skip_ws r3)) as [r4|] eqn:E3; [|discriminate].
    apply expect_length in E3. intros [= _ <-]. lia.
Qed.

(** With fuel for twice the length of the text, the parser does not run
    out of it. *)
Lemma parse_fuel (f : nat) :
  (forall s, 2 * String.length s + 1 <= f -> parse_value f s <> PFuel) /\
  (forall s acc, 2 * String.length s + 2 <= f -> parse_elems f s acc <> PFuel) /\
  (forall s acc, 2 * String.length s + 2 <= f -> parse_members f s acc <> PFuel).
Proof.
  induction f as [|f (IHv & IHe & IHm)]; [repeat split; intros; lia|].
  destruct (parse_length f) as (Lv & Le & Lm).
  split; [|split].
  - intros s Hf. cbn [parse_value]. destruct s as [|c r0]; [discriminate|].
    pose proof (skip_ws_length r0) as Hw. cbn [String.length] in Hf.
    destruct (Ascii.eqb c "{").
    { destruct (expect "}" (skip_ws r0)) as [r'|]; [discriminate|].
      intros H. apply pmap_fuel in H. revert H. apply IHm. lia. }
    destruct (Ascii.eqb c "[").
    { destruct (expect "]" (skip_ws r0)) as [r'|]; [discriminate|].
      intros H. apply pmap_fuel in H. revert H. apply IHe. lia. }
    destruct (Ascii.eqb c dquote).
    { intros H. apply pmap_fuel in H. revert H. apply str_body_fuel. }
    destruct (String.prefix "true" (String c r0)); [discriminate|].
    destruct (String.prefix "false" (String c r0)); [discriminate|].
    destruct (String.prefix "null" (String c r0)); [discriminate|].
    intros H. apply pmap_fuel in H. revert H. apply parse_number_fuel.
  - intros s acc Hf. cbn [parse_elems].
    destruct (parse_value f s) as [v r1| |] eqn:Ev; [|discriminate|].
    + apply Lv in Ev. pose proof (skip_ws_length r1) as Hw.
      destruct (expect "," (skip_ws r1)) as [r'|] eqn:E1.
      { apply expect_length in E1. pose proof (skip_ws_length r') as Hw'.
        apply IHe. lia. }
      destruct (expect "]" (skip_ws r1)); discriminate.
    + exfalso. revert Ev. apply IHv. lia.
  - intros s acc Hf. cbn [parse_members]. destruct s as [|c r0]; [discriminate|].
    cbn [String.length] in Hf.
    destruct (Ascii.eqb c dquote); [|discriminate].
    destruct (str_body SPlain None r0) as [k r1| |] eqn:Es; [|discriminate|].
    + apply str_body_length in Es. pose proof (skip_ws_length r1) as Hw1.
      destruct (expect ":" (skip_ws r1)) as [r2|] eqn:E1; [|discriminate].
      apply expect_length in E1. pose proof (skip_ws_length r2) as Hw2.
      destruct (parse_value f (skip_ws r2)) as [v r3| |] eqn:Ev; [|discriminate|].
      * apply Lv in Ev. pose proof (skip_ws_length r3) as Hw3.
        destruct (expect "," (skip_ws r3)) as [r4|] eqn:E2.
        { apply expect_length in E2. pose proof (skip_ws_length r4) as Hw4.
          apply IHm. lia. }
        destruct (expect "}" (skip_ws r3)); discriminate.
      * exfalso. revert Ev. apply IHv. lia.
    + exfalso. exact (str_body_fuel _ _ _ Es).
Qed.

(** The fuel that [JSON_parse] gives is enough: a [SyntaxError] is never
    due to a lack of fuel. *)
Theorem parse_fuel_enough (s : string) :
  parse_value (fuel_for s) (skip_ws s) <> PFuel.
Proof.
  apply (proj1 (parse_fuel (fuel_for s))).
  pose proof (skip_ws_length s). unfold fuel_for. lia.
Qed.

End JsonFuel.

(** ** The rate-limit classifier *)

Module QuotaFacts.

Import Num JS Json Quota JsonFacts.

(** The message parses as JSON with [error.code] 429 or [error.status]
    ["RESOURCE_EXHAUSTED"]. *)
Definition parsed_says_quota (m : string) : bool :=
  match JSON_parse m with
  | Ok v =>
      eq_num (get (get v "error") "code") (of_Z 429)
      || eq_str (get (get v "error") "status") "RESOURCE_EXHAUSTED"
  | Throw _ => false
  end.

(** The rule of the specification on a status and a message text. *)
Definition rule (status : value) (m : string) : bool :=
  eq_num status (of_Z 429)
  || Str.includes m "RESOURCE_EXHAUSTED"
  || Str.includes m "Quota exceeded"
  || parsed_says_quota m.

(** Follows the specification: rate-limited if the status code is 429, or
    the message contains one of the two texts, or the message parses as JSON
    that says so; an error with no message has its status only. *)
Definition spec_isRateLimited (err : value) : bool :=
  match get err "message" with
  | VStr m => rule (get err "status") m
  | _ => eq_num (get err "status") (of_Z 429)
  end.

Lemma get_error_non_object (v : value) (k : string) :
  (forall l, v <> VObj l) -> get (get v "error") k = VUndef.
Proof.
  intros H. destruct v as [| | b | n | s | l | l]; try reflexivity.
  exfalso. apply (H l). reflexivity.
Qed.

(** The [try] block of [isQuotaError] on a message text. *)
Lemma quota_try_block (m : string) :
  match (bind (parse_object_text (VStr m)) (fun parsed =>
           if eq_num (get (get parsed "error") "code") (of_Z 429) then Ok true
           else if eq_str (get (get parsed "error") "status") "RESOURCE_EXHAUSTED"
                then Ok true
                else Ok false)) with
  | Ok r => Ok r
  | Throw _ => Ok false
  end = Ok (parsed_says_quota m).
Proof.
  unfold parse_object_text, parsed_says_quota.
  destruct (negb (Str.isEmpty m) && Str.startsWith (Str.trim m) "{") eqn:G.
  - destruct (JSON_parse m) as [v | e]; cbn [bind]; [|reflexivity].
    destruct (eq_num (get (get v "error") "code") (of_Z 429)); [reflexivity|].
    destruct (eq_str (get (get v "error") "status") "RESOURCE_EXHAUSTED"); reflexivity.
  - cbn [bind]. destruct (JSON_parse m) as [v | e] eqn:E; [|reflexivity].
    assert (Hv : forall l, v <> VObj l).
    { intros l ->. rewrite (object_text_starts_with_brace m l E) in G. discriminate. }
    rewrite !(get_error_non_object v _ Hv). reflexivity.
Qed.

Lemma string_message_object (err : value) (m : string) :
  get err "message" = VStr m -> exists l, err = VObj l.
Proof.
  destruct err as [| | b | n | s | l | l]; simpl; try discriminate. eauto.
Qed.

Lemma status_429_truthy (err : value) :
  eq_num (get err "status") (of_Z 429) = true -> truthy err = true.
Proof.
  destruct err as [| | b | n | s | l | l]; simpl; try discriminate; reflexivity.
Qed.

Lemma stringify_truthy (err : value) :
  truthy err = true -> exists m, JSON_stringify err = VStr m.
Proof.
  unfold JSON_stringify.
  destruct err as [| | b | n | s | l | l]; simpl; try discriminate; eauto.
  destruct n; eauto.
Qed.

(** What [isQuotaError] computes once the error is truthy and its status
    is not 429: the rule on the text that stands for the message. *)
Lemma isQuotaError_text (err : value) (m : string) :
  truthy err = true ->
  match get err "message" with
  | VStr x => VStr x
  | _ => JSON_stringify err
  end = VStr m ->
  isQuotaError err = Ok (rule (get err "status") m).
Proof.
  intros Ht Hm. unfold isQuotaError, rule. rewrite Ht. simpl negb. cbv iota.
  destruct (eq_num (get err "status") (of_Z 429)); [reflexivity|].
  rewrite Hm. unfold includes. simpl bind.
  destruct (Str.includes m "RESOURCE_EXHAUSTED"); [reflexivity|].
  simpl bind.
  destruct (Str.includes m "Quota exceeded"); [reflexivity|].
  simpl orb. apply quota_try_block.
Qed.

(** [isQuotaError] returns: what its [try] block throws is caught. *)
Lemma isQuotaError_returns (err : value) : exists b, isQuotaError err = Ok b.
Proof.
  destruct (truthy err) eqn:Ht.
  - destruct (stringify_truthy err Ht) as (m & Hm).
    destruct (get err "message") as [| | b | n | x | l | l] eqn:Hg;
      try (exists (rule (get err "status") m);
           apply isQuotaError_text; [exact Ht | rewrite Hg; exact Hm]).
    exists (rule (get err "status") x).
    apply isQuotaError_text; [exact Ht | rewrite Hg; reflexivity].
  - exists false. unfold isQuotaError. rewrite Ht. reflexivity.
Qed.

(** An error value with no message and no status: a bare object that
    names the quota in another field. *)
Definition bare_quota_error : value := VObj [("code", VStr "RESOURCE_EXHAUSTED")].

(** C4 as stated fails: the error has no status and no message, so the
    rule of the specification says it is not rate-limited, and
    [isQuotaError] says it is, having searched the serialised error. *)
Lemma serialised_error_is_searched :
  get bare_quota_error "status" = VUndef /\
  get bare_quota_error "message" = VUndef /\
  spec_isRateLimited bare_quota_error = false /\
  isQuotaError bare_quota_error = Ok true.
Proof. repeat split. Qed.

(** C4 (amended).  [isQuotaError] never throws.  A falsy error value
    ([null], [undefined]) is not rate-limited; a status of 429 makes an error
    rate-limited whatever its message; on every error value with a textual
    message the classifier is exactly the rule of the specification; and on a
    truthy error value with no textual message the same rule is applied to the
    JSON serialisation of the whole error value in place of the message. *)
Theorem isQuotaError_rule (err : value) :
  (truthy err = false -> isQuotaError err = Ok false) /\
  (eq_num (get err "status") (of_Z 429) = true -> isQuotaError err = Ok true) /\
  (forall m, get err "message" = VStr m ->
             isQuotaError err = Ok (spec_isRateLimited err)) /\
  (truthy err = true -> is_string (get err "message") = false ->
   exists m, JSON_stringify err = VStr m /\
             isQuotaError err = Ok (rule (get err "status") m)) /\
  (exists b, isQuotaError err = Ok b).
Proof.
  assert (H1 : truthy err = false -> isQuotaError err = Ok false).
  { intros H. unfold isQuotaError. rewrite H. reflexivity. }
  assert (H2 : eq_num (get err "status") (of_Z 429) = true -> isQuotaError err = Ok true).
  { intros H. unfold isQuotaError.
    rewrite (status_429_truthy err H), H. reflexivity. }
  assert (H3 : forall m, get err "message" = VStr m ->
                         isQuotaError err = Ok (spec_isRateLimited err)).
  { intros m Hm. destruct (string_message_object err m Hm) as (l & ->).
    unfold spec_isRateLimited. rewrite Hm.
    apply isQuotaError_text; [reflexivity | rewrite Hm; reflexivity]. }
  assert (H4 : truthy err = true -> is_string (get err "message") = false ->
               exists m, JSON_stringify err = VStr m /\
                         isQuotaError err = Ok (rule (get err "status") m)).
  { intros Ht Hs. destruct (stringify_truthy err Ht) as (m & Hm).
    exists m. split; [exact Hm|].
    apply isQuotaError_text; [exact Ht|].
    destruct (get err "message"); try exact Hm. discriminate Hs. }
  repeat split; try assumption.
  apply isQuotaError_returns.
Qed.

(** [isQuotaError_rule] on a 429 with a message that says nothing. *)
Lemma isQuotaError_rule_witness :
  eq_num (get (VObj [("status", VNum (of_Z 429)); ("message", VStr "Too many")]) "status")
         (of_Z 429) = true /\
  isQuotaError (VObj [("status", VNum (of_Z 429)); ("message", VStr "Too many")]) = Ok true.
Proof.
  split; [reflexivity|].
  exact (proj1 (proj2 (isQuotaError_rule
           (VObj [("status", VNum (of_Z 429)); ("message", VStr "Too many")]))) eq_refl).
Defined.

End QuotaFacts.

(** ** The retry-delay expression and [parseFloat] *)

Module DelayFacts.

Import Str Num Json Regex StrFacts.

(** A string of decimal digits. *)
Fixpoint digits (s : string) : bool :=
  match s with
  | EmptyString => true
  | String c r => is_digit c && digits r
  end.

(** No digit at the head of [s]. *)
Definition no_digit_head (s : string) : bool :=
  match s with
  | EmptyString => true
  | String c _ => negb (is_digit c)
  end.

(** The text of a decimal number: [ip], or [ip.fp] when there is a
    fraction. *)
Definition decimal (ip fp : string) : string :=
  if isEmpty fp then ip else ip ++ String "." fp.

Lemma span_digits_app (d r : string) :
  digits d = true -> no_digit_head r = true -> span_digits (d ++ r) = (d, r).
Proof.
  intros Hd Hr. induction d as [|c d IH].
  - destruct r as [|x r]; [reflexivity|]. simpl in *.
    destruct (is_digit x); [discriminate | reflexivity].
  - simpl in Hd. apply andb_prop in Hd. destruct Hd as [Hc Hd].
    simpl. rewrite Hc, (IH Hd). reflexivity.
Qed.

Lemma span_digits_all (d : string) : digits d = true -> span_digits d = (d, EmptyString).
Proof.
  intros Hd. rewrite <- (append_empty_r d) at 1. now apply span_digits_app.
Qed.

Lemma span_digits_fst (s : string) : digits (fst (span_digits s)) = true.
Proof.
  induction s as [|c s IH]; [reflexivity|].
  simpl. destruct (is_digit c) eqn:E; [|reflexivity].
  destruct (span_digits s) as [d rest]. simpl in *. now rewrite E.
Qed.

Lemma is_digit_code (c : ascii) : is_digit c = true -> 48 <= code c <= 57.
Proof.
  unfold is_digit. intros H. apply andb_prop in H. destruct H as [H1 H2].
  apply Z.leb_le in H1, H2. lia.
Qed.

Lemma eqb_digit_false (c x : ascii) :
  is_digit c = true -> (code x < 48 \/ 57 < code x) -> Ascii.eqb c x = false.
Proof.
  intros Hc Hx. apply is_digit_code in Hc.
  destruct (Ascii.eqb_spec c x) as [-> | ]; [lia | reflexivity].
Qed.

Lemma expect_digit (c x : ascii) (r : string) :
  is_digit c = true -> (code x < 48 \/ 57 < code x) -> expect x (String c r) = None.
Proof. intros Hc Hx. unfold expect. now rewrite (eqb_digit_false c x Hc Hx). Qed.

(** The expression matches a decimal number followed by the letter s at
    the head of a text, and captures the number. *)
Lemma match_delay_decimal (ip fp rest : string) :
  digits ip = true -> isEmpty ip = false -> digits fp = true ->
  match_delay (decimal ip fp ++ String "s" rest) = Some (decimal ip fp).
Proof.
  intros Hi Hn Hf. unfold match_delay, decimal.
  destruct fp as [|c fp]; cbn [isEmpty].
  - rewrite (span_digits_app ip (String "s" rest) Hi eq_refl), Hn. reflexivity.
  - rewrite append_assoc.
    change (String "." (String c fp) ++ String "s" rest)
      with (String "." (String c fp ++ String "s" rest)).
    rewrite (span_digits_app ip (String "." (String c fp ++ String "s" rest)) Hi eq_refl), Hn.
    cbn [expect Ascii.eqb Bool.eqb].
    rewrite (span_digits_app (String c fp) (String "s" rest) Hf eq_refl).
    reflexivity.
Qed.

Lemma exec_delay_eq (s : string) :
  exec_delay s = match match_delay s with
                 | Some g => Some g
                 | None => match s with
                           | String _ r => exec_delay r
                           | EmptyString => None
                           end
                 end.
Proof. destruct s; reflexivity. Qed.

Lemma exec_delay_decimal (ip fp rest : string) :
  digits ip = true -> isEmpty ip = false -> digits fp = true ->
  exec_delay (decimal ip fp ++ String "s" rest) = Some (decimal ip fp).
Proof.
  intros Hi Hn Hf.
  rewrite exec_delay_eq, (match_delay_decimal ip fp rest Hi Hn Hf). reflexivity.
Qed.

Lemma match_delay_shape (s g : string) :
  match_delay s = Some g ->
  exists ip fp, digits ip = true /\ isEmpty ip = false /\ digits fp = true
                /\ g = decimal ip fp.
Proof.
  unfold match_delay.
  pose proof (span_digits_fst s) as Hd1.
  destruct (span_digits s) as [d1 r1]. cbn [fst] in Hd1.
  destruct (isEmpty d1) eqn:En; [discriminate|].
  assert (Hplain : match expect "s" r1 with
                   | Some _ => Some d1
                   | None => None
                   end = Some g ->
                   exists ip fp, digits ip = true /\ isEmpty ip = false
                                 /\ digits fp = true /\ g = decimal ip fp).
  { destruct (expect "s" r1); [|discriminate].
    intros [= <-]. exists d1, EmptyString. repeat split; assumption. }
  destruct (expect "." r1) as [r2|]; [|exact Hplain].
  pose proof (span_digits_fst r2) as Hd2.
  destruct (span_digits r2) as [d2 r3]. cbn [fst] in Hd2.
  destruct (isEmpty d2) eqn:E2; [exact Hplain|].
  destruct (expect "s" r3); [|exact Hplain].
  intros [= <-]. exists d1, d2. repeat split; try assumption.
  unfold decimal. rewrite E2. reflexivity.
Qed.

Lemma exec_delay_shape (s g : string) :
  exec_delay s = Some g ->
  exists ip fp, digits ip = true /\ isEmpty ip = false /\ digits fp = true
                /\ g = decimal ip fp.
Proof.
  induction s as [|c s IH]; rewrite exec_delay_eq.
  - destruct (match_delay EmptyString) eqn:E; [|discriminate].
    intros [= <-]. eapply match_delay_shape; eassumption.
  - destruct (match_delay (String c s)) eqn:E; [|exact IH].
    intros [= <-]. eapply match_delay_shape; eassumption.
Qed.

Lemma digit_not_ws (c : ascii) : is_digit c = true -> ws1 c = false.
Proof.
  intros H. apply is_digit_code in H. unfold ws1.
  destruct (Z.leb_spec (code c) 13); [lia|].
  destruct (Z.eqb_spec (code c) 32); [lia|].
  now rewrite andb_false_r.
Qed.

Lemma prefix_head_differs (a c : ascii) (x r : string) :
  a <> c -> String.prefix (String a x) (String c r) = false.
Proof. intros H. simpl. destruct (ascii_dec a c); [contradiction | reflexivity]. Qed.

Lemma decimal_head (ip fp : string) :
  digits ip = true -> isEmpty ip = false ->
  exists c r, decimal ip fp = String c r /\ is_digit c = true.
Proof.
  intros Hi Hn. destruct ip as [|c ip]; [discriminate|].
  simpl in Hi. apply andb_prop in Hi. destruct Hi as [Hc _].
  unfold decimal. destruct (isEmpty fp).
  - exists c, ip. split; [reflexivity | exact Hc].
  - exists c, (ip ++ String "." fp). split; [reflexivity | exact Hc].
Qed.

(** [parseFloat] on the text of a decimal number is the number nearest
    to it. *)
Lemma parseFloat_decimal (ip fp : string) :
  digits ip = true -> isEmpty ip = false -> digits fp = true ->
  parseFloat (decimal ip fp) = of_decimal false ip fp 0.
Proof.
  intros Hi Hn Hf. unfold parseFloat.
  destruct (decimal_head ip fp Hi Hn) as (c & r & E & Hc).
  pose proof (is_digit_code c Hc) as Hcode.
  rewrite E.
  rewrite (trimStart_head c r (digit_not_ws c Hc)) by lia.
  rewrite (expect_digit c "-" r Hc) by (left; reflexivity).
  rewrite (expect_digit c "+" r Hc) by (left; reflexivity).
  rewrite prefix_head_differs
    by (intros <-; change (code "I") with 73 in Hcode; lia).
  rewrite <- E. unfold decimal. destruct fp as [|x fp]; cbn [isEmpty].
  - rewrite (span_digits_all ip Hi). cbn [expect]. rewrite Hn. reflexivity.
  - rewrite (span_digits_app ip (String "." (String x fp)) Hi eq_refl).
    cbn [expect Ascii.eqb Bool.eqb].
    rewrite (span_digits_all (String x fp) Hf), Hn. reflexivity.
Qed.

End DelayFacts.

(** ** [JSON.parse] and white space around a text *)

Module JsonTrim.

Import Str Num JS Json StrFacts JsonFacts JsonFuel DelayFacts.

(** A text made of JSON white space. *)
Definition blank (r : string) : Prop := skip_ws r = EmptyString.

(** A parsing result with [r] put back after the rest. *)
Definition ext {A : Type} (r : string) (res : pres A) : pres A :=
  match res with
  | POk a y => POk a (y ++ r)
  | PErr => PErr
  | PFuel => PFuel
  end.

Lemma blank_cons (c : ascii) (r : string) :
  blank (String c r) -> json_ws c = true /\ blank r.
Proof.
  unfold blank. simpl. destruct (json_ws c); [auto | discriminate].
Qed.

Lemma skip_ws_app (y r : string) :
  blank r ->
  skip_ws (y ++ r) = if isEmpty (skip_ws y) then EmptyString else skip_ws y ++ r.
Proof.
  intros Hr. induction y as [|c y IH]; [exact Hr|].
  simpl. destruct (json_ws c); [exact IH | reflexivity].
Qed.

Lemma expect_app (c : ascii) (y r : string) :
  json_ws c = false -> blank r ->
  expect c (y ++ r) = option_map (fun t => t ++ r) (expect c y).
Proof.
  intros Hc Hr. destruct y as [|x y]; simpl.
  - destruct r as [|x r]; [reflexivity|]. simpl.
    apply blank_cons in Hr. destruct Hr as [Hx _].
    destruct (Ascii.eqb_spec x c) as [-> |]; [congruence | reflexivity].
  - destruct (Ascii.eqb x c); reflexivity.
Qed.

Lemma json_ws_not_digit (c : ascii) : json_ws c = true -> is_digit c = false.
Proof.
  unfold json_ws, is_digit. intros H.
  repeat match goal with
         | H : (_ || _) = true |- _ => apply orb_prop in H; destruct H as [H | H]
         | H : (_ =? _) = true |- _ => apply Z.eqb_eq in H; rewrite H
         end; reflexivity.
Qed.

Lemma span_digits_blank (x r : string) :
  blank r ->
  span_digits (x ++ r) = (fst (span_digits x), snd (span_digits x) ++ r).
Proof.
  intros Hr. induction x as [|c x IH].
  - destruct r as [|c r]; [reflexivity|]. simpl.
    apply blank_cons in Hr. destruct Hr as [Hc _].
    rewrite (json_ws_not_digit c Hc). reflexivity.
  - simpl. destruct (is_digit c); [|reflexivity].
    rewrite IH. destruct (span_digits x). reflexivity.
Qed.

Lemma emit_ext (pre r : string) (res : pres string) :
  emit pre (ext r res) = ext r (emit pre res).
Proof. destruct res; reflexivity. Qed.

Lemma json_ws_cases (c : ascii) :
  json_ws c = true -> c = "009"%char \/ c = "010"%char \/ c = "013"%char \/ c = " "%char.
Proof.
  unfold json_ws. intros H.
  assert (Hinj : forall a b : ascii, code a = code b -> a = b).
  { intros a b E. unfold code in E. apply N2Z.inj in E.
    rewrite <- (ascii_N_embedding a), <- (ascii_N_embedding b). now rewrite E. }
  repeat match goal with
         | H : (_ || _) = true |- _ => apply orb_prop in H; destruct H as [H | H]
         | H : (_ =? _) = true |- _ => apply Z.eqb_eq in H
         end.
  - left. apply Hinj. exact H.
  - right. left. apply Hinj. exact H.
  - right. right. left. apply Hinj. exact H.
  - right. right. right. apply Hinj. exact H.
Qed.

(** No string literal ends in white space that follows it. *)
Lemma str_body_blank (r : string) :
  blank r -> forall st hi, str_body st hi r = PErr.
Proof.
  induction r as [|c r IH]; intros Hr st hi; [reflexivity|].
  apply blank_cons in Hr. destruct Hr as [Hc Hr].
  destruct (json_ws_cases c Hc) as [-> | [-> | [-> | ->]]];
    destruct st as [| | [|[|k]] acc]; try reflexivity.
  cbn [str_body Ascii.eqb Bool.eqb]. cbn. rewrite (IH Hr). reflexivity.
Qed.

Lemma str_body_app (x r : string) :
  blank r -> forall st hi, str_body st hi (x ++ r) = ext r (str_body st hi x).
Proof.
  intros Hr. induction x as [|c x IH]; intros st hi.
  - simpl. apply str_body_blank. exact Hr.
  - change ((String c x) ++ r) with (String c (x ++ r)).
    cbn [str_body].
    destruct st as [| | k acc].
    + destruct (Ascii.eqb c dquote); [reflexivity|].
      destruct (Ascii.eqb c backslash); [apply IH|].
      destruct (code c <? 32); [reflexivity|].
      rewrite IH. apply emit_ext.
    + repeat match goal with
             | |- context [if ?b then _ else _] =>
                 destruct b; [rewrite IH; apply emit_ext|]
             end.
      destruct (Ascii.eqb c "u"); [apply IH | reflexivity].
    + destruct (hex_val c) as [d|]; [|reflexivity].
      destruct k as [|[|k]]; [reflexivity | | apply IH].
      destruct hi as [h|].
      * destruct (is_low _); [rewrite IH; apply emit_ext|].
        destruct (is_high _); rewrite IH; apply emit_ext.
      * destruct (is_high _); [apply IH | rewrite IH; apply emit_ext].
Qed.


(** A literal name has no white space in it. *)
Fixpoint solid (p : string) : bool :=
  match p with
  | EmptyString => true
  | String a p' => negb (json_ws a) && solid p'
  end.

Lemma prefix_blank (p x r : string) :
  solid p = true -> blank r -> String.prefix p (x ++ r) = String.prefix p x.
Proof.
  intros Hp Hr. revert x. induction p as [|a p IH]; intros x.
  - destruct x; destruct r; reflexivity.
  - simpl in Hp. apply andb_prop in Hp. destruct Hp as [Ha Hp].
    destruct x as [|b x].
    + destruct r as [|c r]; [reflexivity|].
      apply blank_cons in Hr. destruct Hr as [Hc _].
      simpl. destruct (ascii_dec a c) as [-> |]; [|reflexivity].
      rewrite Hc in Ha. discriminate Ha.
    + change ((String b x) ++ r) with (String b (x ++ r)).
      rewrite !FenceFacts.prefix_cons. destruct (ascii_dec a b); [|reflexivity].
      apply IH. exact Hp.
Qed.

Lemma drop_app (p x r : string) :
  String.prefix p x = true ->
  drop (String.length p) (x ++ r) = drop (String.length p) x ++ r.
Proof.
  revert x. induction p as [|a p IH]; intros x H; [reflexivity|].
  destruct x as [|b x]; [discriminate H|].
  rewrite FenceFacts.prefix_cons in H. destruct (ascii_dec a b); [|discriminate H].
  simpl. apply IH. exact H.
Qed.

Lemma parse_exponent_app (y r : string) :
  blank r -> parse_exponent (y ++ r) = ext r (parse_exponent y).
Proof.
  intros Hr. destruct y as [|c y].
  - destruct r as [|c r]; [reflexivity|]. simpl.
    apply blank_cons in Hr. destruct Hr as [Hc _].
    destruct (json_ws_cases c Hc) as [-> | [-> | [-> | ->]]]; reflexivity.
  - change ((String c y) ++ r) with (String c (y ++ r)).
    unfold parse_exponent.
    destruct (Ascii.eqb c "e" || Ascii.eqb c "E"); [|reflexivity].
    rewrite !(expect_app _ y r) by (reflexivity || exact Hr).
    destruct (expect "-" y) as [r1|]; cbn [option_map].
    { rewrite (span_digits_blank r1 r Hr). destruct (span_digits r1) as [d rest].
      cbn [fst snd]. destruct (isEmpty d); reflexivity. }
    destruct (expect "+" y) as [r1|]; cbn [option_map].
    { rewrite (span_digits_blank r1 r Hr). destruct (span_digits r1) as [d rest].
      cbn [fst snd]. destruct (isEmpty d); reflexivity. }
    rewrite (span_digits_blank y r Hr). destruct (span_digits y) as [d rest].
    cbn [fst snd]. destruct (isEmpty d); reflexivity.
Qed.

Lemma parse_number_app (x r : string) :
  blank r -> parse_number (x ++ r) = ext r (parse_number x).
Proof.
  intros Hr. unfold parse_number.
  rewrite (expect_app "-" x r eq_refl Hr).
  assert (H : forall sg s1,
            (let '(ip, s2) := span_digits (s1 ++ r) in
             if isEmpty ip || leading_zero ip then PErr
             else
               match
                 match expect "." s2 with
                 | Some r0 =>
                     let '(d, rest0) := span_digits r0 in
                     if isEmpty d then PErr else POk d rest0
                 | None => POk EmptyString s2
                 end
               with
               | POk fp s3 =>
                   match parse_exponent s3 with
                   | POk ex rest0 => POk (of_decimal sg ip fp ex) rest0
                   | PErr => PErr
                   | PFuel => PFuel
                   end
               | PErr => PErr
               | PFuel => PFuel
               end)
            = ext r
                (let '(ip, s2) := span_digits s1 in
                 if isEmpty ip || leading_zero ip then PErr
                 else
                   match
                     match expect "." s2 with
                     | Some r0 =>
                         let '(d, rest0) := span_digits r0 in
                         if isEmpty d then PErr else POk d rest0
                     | None => POk EmptyString s2
                     end
                   with
                   | POk fp s3 =>
                       match parse_exponent s3 with
                       | POk ex rest0 => POk (of_decimal sg ip fp ex) rest0
                       | PErr => PErr
                       | PFuel => PFuel
                       end
                   | PErr => PErr
                   | PFuel => PFuel
                   end)).
  { intros sg s1. rewrite (span_digits_blank s1 r Hr).
    destruct (span_digits s1) as [ip s2]. cbn [fst snd].
    destruct (isEmpty ip || leading_zero ip); [reflexivity|].
    rewrite (expect_app "." s2 r eq_refl Hr).
    destruct (expect "." s2) as [r0|]; cbn [option_map].
    - rewrite (span_digits_blank r0 r Hr). destruct (span_digits r0) as [d rest0].
      cbn [fst snd]. destruct (isEmpty d); [reflexivity|].
      rewrite (parse_exponent_app rest0 r Hr).
      destruct (parse_exponent rest0); reflexivity.
    - rewrite (parse_exponent_app s2 r Hr).
      destruct (parse_exponent s2); reflexivity. }
  destruct (expect "-" x) as [r1|]; cbn [option_map].
  - apply (H true r1).
  - apply (H false x).
Qed.


Lemma pmap_ext {A B : Type} (g : A -> B) (r : string) (res : pres A) :
  pmap g (ext r res) = ext r (pmap g res).
Proof. destruct res; reflexivity. Qed.

Lemma parse_value_blank (f : nat) (r : string) :
  blank r -> parse_value f r = ext r (parse_value f EmptyString).
Proof.
  intros Hr. destruct f as [|f]; [reflexivity|].
  destruct r as [|c r]; [reflexivity|].
  apply blank_cons in Hr. destruct Hr as [Hc _].
  destruct (json_ws_cases c Hc) as [-> | [-> | [-> | ->]]]; reflexivity.
Qed.

Lemma parse_members_blank (f : nat) (r : string) (acc : list (string * value)) :
  blank r -> parse_members f r acc = ext r (parse_members f EmptyString acc).
Proof.
  intros Hr. destruct f as [|f]; [reflexivity|].
  destruct r as [|c r]; [reflexivity|].
  apply blank_cons in Hr. destruct Hr as [Hc _].
  destruct (json_ws_cases c Hc) as [-> | [-> | [-> | ->]]]; reflexivity.
Qed.

Lemma parse_elems_empty (f : nat) (acc : list value) (r : string) :
  ext r (parse_elems f EmptyString acc) = parse_elems f EmptyString acc.
Proof. destruct f as [|[|f]]; reflexivity. Qed.

(** The rest of the input after white space, seen from a text [y] that
    is followed by the white space [r]. *)
Lemma skip_ws_app_cases (y r : string) :
  blank r ->
  (skip_ws y = EmptyString /\ skip_ws (y ++ r) = EmptyString) \/
  (exists c z, skip_ws y = String c z /\ skip_ws (y ++ r) = String c z ++ r).
Proof.
  intros Hr. rewrite (skip_ws_app y r Hr).
  destruct (skip_ws y) as [|c z]; [left; split; reflexivity|].
  right. exists c, z. split; reflexivity.
Qed.

(** White space after a text does not change what is parsed from it: it
    stays in the rest. *)
Lemma parse_ext (r : string) (Hr : blank r) (f : nat) :
  (forall x, parse_value f (x ++ r) = ext r (parse_value f x)) /\
  (forall x acc, parse_elems f (x ++ r) acc = ext r (parse_elems f x acc)) /\
  (forall x acc, parse_members f (x ++ r) acc = ext r (parse_members f x acc)).
Proof.
  induction f as [|f (IHv & IHe & IHm)]; [repeat split; reflexivity|].
  split; [|split].
  - intros x. destruct x as [|c x].
    { apply parse_value_blank. exact Hr. }
    change ((String c x) ++ r) with (String c (x ++ r)).
    cbn [parse_value].
    destruct (Ascii.eqb c "{").
    { destruct (skip_ws_app_cases x r Hr) as [[E1 E2] | (c' & z & E1 & E2)];
        rewrite E1, E2.
      - cbn [expect]. destruct f; reflexivity.
      - rewrite (expect_app "}" (String c' z) r eq_refl Hr).
        destruct (expect "}" (String c' z)); cbn [option_map]; [reflexivity|].
        rewrite IHm. apply pmap_ext. }
    destruct (Ascii.eqb c "[").
    { destruct (skip_ws_app_cases x r Hr) as [[E1 E2] | (c' & z & E1 & E2)];
        rewrite E1, E2.
      - cbn [expect]. rewrite <- pmap_ext, parse_elems_empty. reflexivity.
      - rewrite (expect_app "]" (String c' z) r eq_refl Hr).
        destruct (expect "]" (String c' z)); cbn [option_map]; [reflexivity|].
        rewrite IHe. apply pmap_ext. }
    destruct (Ascii.eqb c dquote).
    { rewrite (str_body_app x r Hr). apply pmap_ext. }
    change (String c (x ++ r)) with ((String c x) ++ r).
    rewrite !(prefix_blank _ (String c x) r) by (reflexivity || exact Hr).
    destruct (String.prefix "true" (String c x)) eqn:Pt.
    { exact (f_equal (POk (VBool true)) (drop_app "true" _ r Pt)). }
    destruct (String.prefix "false" (String c x)) eqn:Pf.
    { exact (f_equal (POk (VBool false)) (drop_app "false" _ r Pf)). }
    destruct (String.prefix "null" (String c x)) eqn:Pn.
    { exact (f_equal (POk VNull) (drop_app "null" _ r Pn)). }
    rewrite (parse_number_app (String c x) r Hr). apply pmap_ext.
  - intros x acc. cbn [parse_elems]. rewrite IHv.
    destruct (parse_value f x) as [v y| |]; try reflexivity.
    cbn [ext].
    destruct (skip_ws_app_cases y r Hr) as [[E1 E2] | (c' & z & E1 & E2)];
      rewrite E1, E2; [reflexivity|].
    rewrite !(expect_app _ (String c' z) r) by (reflexivity || exact Hr).
    destruct (expect "," (String c' z)) as [r'|]; cbn [option_map].
    { destruct (skip_ws_app_cases r' r Hr) as [[F1 F2] | (c2 & z2 & F1 & F2)];
        rewrite F1, F2.
      - symmetry. apply parse_elems_empty.
      - apply IHe. }
    destruct (expect "]" (String c' z)); reflexivity.
  - intros x acc. destruct x as [|c x].
    { apply parse_members_blank. exact Hr. }
    change ((String c x) ++ r) with (String c (x ++ r)).
    cbn [parse_members].
    destruct (Ascii.eqb c dquote); [|reflexivity].
    rewrite (str_body_app x r Hr).
    destruct (str_body SPlain None x) as [k y| |]; try reflexivity.
    cbn [ext].
    destruct (skip_ws_app_cases y r Hr) as [[E1 E2] | (c1 & z1 & E1 & E2)];
      rewrite E1, E2; [reflexivity|].
    rewrite (expect_app ":" (String c1 z1) r eq_refl Hr).
    destruct (expect ":" (String c1 z1)) as [r2|]; cbn [option_map]; [|reflexivity].
    assert (Hv : parse_value f (skip_ws (r2 ++ r)) = ext r (parse_value f (skip_ws r2))).
    { destruct (skip_ws_app_cases r2 r Hr) as [[F1 F2] | (c2 & z2 & F1 & F2)];
        rewrite F1, F2; [destruct f; reflexivity | apply IHv]. }
    rewrite Hv.
    destruct (parse_value f (skip_ws r2)) as [v y3| |]; try reflexivity.
    cbn [ext].
    destruct (skip_ws_app_cases y3 r Hr) as [[G1 G2] | (c3 & z3 & G1 & G2)];
      rewrite G1, G2; [reflexivity|].
    rewrite !(expect_app _ (String c3 z3) r) by (reflexivity || exact Hr).
    destruct (expect "," (String c3 z3)) as [r4|]; cbn [option_map].
    { destruct (skip_ws_app_cases r4 r Hr) as [[F1 F2] | (c4 & z4 & F1 & F2)];
        rewrite F1, F2.
      - destruct f as [|f]; reflexivity.
      - apply IHm. }
    destruct (expect "}" (String c3 z3)); reflexivity.
Qed.


Lemma pmap_not_fuel {A B : Type} (g : A -> B) (res : pres A) :
  pmap g res <> PFuel -> res <> PFuel.
Proof. destruct res; simpl; congruence. Qed.

(** More fuel changes nothing once there is enough. *)
Lemma parse_mono (f : nat) :
  (forall s, parse_value f s <> PFuel -> parse_value (S f) s = parse_value f s) /\
  (forall s acc, parse_elems f s acc <> PFuel ->
                 parse_elems (S f) s acc = parse_elems f s acc) /\
  (forall s acc, parse_members f s acc <> PFuel ->
                 parse_members (S f) s acc = parse_members f s acc).
Proof.
  induction f as [|f (IHv & IHe & IHm)]; [repeat split; intros; contradiction|].
  split; [|split].
  - intros s. cbn [parse_value]. destruct s as [|c r0]; [reflexivity|].
    destruct (Ascii.eqb c "{").
    { destruct (expect "}" (skip_ws r0)); [reflexivity|].
      intros H. apply pmap_not_fuel in H. now rewrite (IHm _ _ H). }
    destruct (Ascii.eqb c "[").
    { destruct (expect "]" (skip_ws r0)); [reflexivity|].
      intros H. apply pmap_not_fuel in H. now rewrite (IHe _ _ H). }
    reflexivity.
  - intros s acc.
    change (parse_elems (S (S f)) s acc)
      with (match parse_value (S f) s with
            | POk v r =>
                match expect "," (skip_ws r), expect "]" (skip_ws r) with
                | Some r', _ => parse_elems (S f) (skip_ws r') (v :: acc)
                | None, Some r' => POk (rev (v :: acc)) r'
                | None, None => PErr
                end
            | PErr => PErr
            | PFuel => PFuel
            end).
    change (parse_elems (S f) s acc)
      with (match parse_value f s with
            | POk v r =>
                match expect "," (skip_ws r), expect "]" (skip_ws r) with
                | Some r', _ => parse_elems f (skip_ws r') (v :: acc)
                | None, Some r' => POk (rev (v :: acc)) r'
                | None, None => PErr
                end
            | PErr => PErr
            | PFuel => PFuel
            end).
    intros H.
    assert (Hv : parse_value f s <> PFuel).
    { intros E. rewrite E in H. apply H. reflexivity. }
    rewrite (IHv s Hv).
    destruct (parse_value f s) as [v r| |]; try reflexivity.
    destruct (expect "," (skip_ws r)) as [r'|]; [|reflexivity].
    apply IHe. exact H.
  - intros s acc. destruct s as [|c r0]; [reflexivity|].
    change (parse_members (S (S f)) (String c r0) acc)
      with (if Ascii.eqb c dquote then
              match str_body SPlain None r0 with
              | POk k r1 =>
                  match expect ":" (skip_ws r1) with
                  | Some r2 =>
                      match parse_value (S f) (skip_ws r2) with
                      | POk v r3 =>
                          match expect "," (skip_ws r3), expect "}" (skip_ws r3) with
                          | Some r4, _ => parse_members (S f) (skip_ws r4) (obj_set acc k v)
                          | None, Some r4 => POk (obj_set acc k v) r4
                          | None, None => PErr
                          end
                      | PErr => PErr
                      | PFuel => PFuel
                      end
                  | None => PErr
                  end
              | PErr => PErr
              | PFuel => PFuel
              end
            else PErr).
    change (parse_members (S f) (String c r0) acc)
      with (if Ascii.eqb c dquote then
              match str_body SPlain None r0 with
              | POk k r1 =>
                  match expect ":" (skip_ws r1) with
                  | Some r2 =>
                      match parse_value f (skip_ws r2) with
                      | POk v r3 =>
                          match expect "," (skip_ws r3), expect "}" (skip_ws r3) with
                          | Some r4, _ => parse_members f (skip_ws r4) (obj_set acc k v)
                          | None, Some r4 => POk (obj_set acc k v) r4
                          | None, None => PErr
                          end
                      | PErr => PErr
                      | PFuel => PFuel
                      end
                  | None => PErr
                  end
              | PErr => PErr
              | PFuel => PFuel
              end
            else PErr).
    destruct (Ascii.eqb c dquote); [|reflexivity].
    destruct (str_body SPlain None r0) as [k r1| |]; try reflexivity.
    destruct (expect ":" (skip_ws r1)) as [r2|]; [|reflexivity].
    intros H.
    assert (Hv : parse_value f (skip_ws r2) <> PFuel).
    { intros E. rewrite E in H. apply H. reflexivity. }
    rewrite (IHv _ Hv).
    destruct (parse_value f (skip_ws r2)) as [v r3| |]; try reflexivity.
    destruct (expect "," (skip_ws r3)) as [r4|]; [|reflexivity].
    apply IHm. exact H.
Qed.

Lemma parse_value_more_fuel (k f : nat) (s : string) :
  parse_value f s <> PFuel -> parse_value (k + f) s = parse_value f s.
Proof.
  intros H. induction k as [|k IH]; [reflexivity|].
  simpl. rewrite <- IH. apply (proj1 (parse_mono (k + f))). now rewrite IH.
Qed.


(** *** What a successful parse has read *)

(** [s] is some text, then an ASCII character that is not white space,
    then [rest]. *)
Definition ends_solid (s rest : string) : Prop :=
  exists B c, s = B ++ String c rest /\ ws1 c = false /\ code c < 128.

Definition tail_of (rest s : string) : Prop := exists X, s = X ++ rest.

Lemma ends_solid_here (c : ascii) (rest : string) :
  ws1 c = false -> code c < 128 -> ends_solid (String c rest) rest.
Proof. intros H1 H2. exists EmptyString, c. auto. Qed.

Lemma ends_solid_cons (a : ascii) (s rest : string) :
  ends_solid s rest -> ends_solid (String a s) rest.
Proof. intros (B & c & -> & H). exists (String a B), c. auto. Qed.

Lemma ends_solid_tail (a s rest : string) :
  tail_of a s -> ends_solid a rest -> ends_solid s rest.
Proof.
  intros (X & ->) (B & c & -> & H). exists (X ++ B), c.
  rewrite append_assoc. auto.
Qed.

Lemma tail_refl (s : string) : tail_of s s.
Proof. now exists EmptyString. Qed.

Lemma tail_cons (a : ascii) (r s : string) : tail_of r s -> tail_of r (String a s).
Proof. intros (X & ->). now exists (String a X). Qed.

Lemma tail_trans (a b c : string) : tail_of a b -> tail_of b c -> tail_of a c.
Proof. intros (X & ->) (Y & ->). exists (Y ++ X). now rewrite append_assoc. Qed.

Lemma ends_solid_is_tail (s rest : string) : ends_solid s rest -> tail_of rest s.
Proof.
  intros (B & c & -> & _). exists (B ++ String c EmptyString).
  now rewrite append_assoc.
Qed.

Lemma skip_ws_tail (s : string) : tail_of (skip_ws s) s.
Proof.
  induction s as [|c s IH]; [apply tail_refl|].
  simpl. destruct (json_ws c); [now apply tail_cons | apply tail_refl].
Qed.

Lemma expect_eq (c : ascii) (s r : string) : expect c s = Some r -> s = String c r.
Proof.
  destruct s as [|x s]; simpl; [discriminate|].
  destruct (Ascii.eqb_spec x c) as [-> |]; [intros [= ->]; reflexivity | discriminate].
Qed.

Lemma expect_tail (c : ascii) (s r : string) : expect c s = Some r -> tail_of r s.
Proof. intros H. apply expect_eq in H. subst s. apply tail_cons, tail_refl. Qed.

Lemma digit_solid (c : ascii) : is_digit c = true -> ws1 c = false /\ code c < 128.
Proof.
  intros H. split; [now apply digit_not_ws|]. apply is_digit_code in H. lia.
Qed.

Lemma span_digits_none (s : string) :
  isEmpty (fst (span_digits s)) = true -> snd (span_digits s) = s.
Proof.
  destruct s as [|c s]; [reflexivity|]. simpl.
  destruct (is_digit c); [|reflexivity].
  destruct (span_digits s). discriminate.
Qed.

Lemma span_digits_solid (s : string) :
  isEmpty (fst (span_digits s)) = false -> ends_solid s (snd (span_digits s)).
Proof.
  induction s as [|c s IH]; [discriminate|]. simpl.
  destruct (is_digit c) eqn:Hc; [|discriminate].
  pose proof (span_digits_none s) as Hn.
  destruct (span_digits s) as [d rest]. cbn [fst snd] in *. intros _.
  destruct (isEmpty d) eqn:Hd.
  - rewrite (Hn eq_refl). apply ends_solid_here; now apply digit_solid.
  - apply ends_solid_cons, IH. reflexivity.
Qed.

Lemma str_body_consumed (s : string) :
  forall st hi a r, str_body st hi s = POk a r -> ends_solid s r.
Proof.
  induction s as [|c s IH]; intros st hi a r; [discriminate|].
  cbn [str_body].
  assert (Hrec : forall st' hi' a',
             str_body st' hi' s = POk a' r -> ends_solid (String c s) r).
  { intros st' hi' a' H. apply ends_solid_cons. exact (IH _ _ _ _ H). }
  assert (Hemit : forall pre st' hi',
             emit pre (str_body st' hi' s) = POk a r -> ends_solid (String c s) r).
  { intros pre st' hi' H. apply emit_inv in H. destruct H as (a' & H).
    exact (Hrec _ _ _ H). }
  destruct st as [| | k acc].
  - destruct (Ascii.eqb_spec c dquote) as [-> |_].
    { intros [= _ <-]. apply ends_solid_here; reflexivity. }
    destruct (Ascii.eqb c backslash); [apply Hrec|].
    destruct (code c <? 32)%Z; [discriminate|]. apply Hemit.
  - repeat match goal with
           | |- context [if ?b then _ else _] => destruct b; [apply Hemit|]
           end.
    destruct (Ascii.eqb c "u"); [apply Hrec | discriminate].
  - destruct (hex_val c) as [d|]; [|discriminate].
    destruct k as [|[|k]]; [discriminate | |apply Hrec].
    destruct hi as [h|].
    + destruct (is_low _); [apply Hemit|]. destruct (is_high _); apply Hemit.
    + destruct (is_high _); [apply Hrec | apply Hemit].
Qed.

Lemma parse_exponent_consumed (s : string) (ex : Z) (rest : string) :
  parse_exponent s = POk ex rest -> rest = s \/ ends_solid s rest.
Proof.
  unfold parse_exponent. destruct s as [|c r]; [intros [= _ <-]; now left|].
  destruct (Ascii.eqb c "e" || Ascii.eqb c "E"); [|intros [= _ <-]; now left].
  assert (H : forall sg r1, tail_of r1 r ->
            (let '(d, rest0) := span_digits r1 in
             if isEmpty d then PErr
             else POk (if sg : bool then (- dec_value 0 d)%Z else dec_value 0 d) rest0)
            = POk ex rest -> rest = String c r \/ ends_solid (String c r) rest).
  { intros sg r1 Hr. pose proof (span_digits_solid r1) as Hl.
    destruct (span_digits r1) as [d rest0]. cbn [fst snd] in Hl.
    destruct (isEmpty d); [discriminate|]. intros [= _ <-]. right.
    apply (ends_solid_tail r1); [now apply tail_cons | now apply Hl]. }
  destruct (expect "-" r) as [r'|] eqn:E1.
  { apply (H true r'). now apply expect_tail in E1. }
  destruct (expect "+" r) as [r'|] eqn:E2.
  { apply (H false r'). now apply expect_tail in E2. }
  apply (H false r). apply tail_refl.
Qed.

Lemma parse_number_consumed (s : string) (n : number) (rest : string) :
  parse_number s = POk n rest -> ends_solid s rest.
Proof.
  unfold parse_number.
  assert (H : forall sg s1, tail_of s1 s ->
            (let '(ip, s2) := span_digits s1 in
             if isEmpty ip || leading_zero ip then PErr
             else
               match
                 match expect "." s2 with
                 | Some r =>
                     let '(d, rest0) := span_digits r in
                     if isEmpty d then PErr else POk d rest0
                 | None => POk EmptyString s2
                 end
               with
               | POk fp s3 =>
                   match parse_exponent s3 with
                   | POk ex rest0 => POk (of_decimal sg ip fp ex) rest0
                   | PErr => PErr
                   | PFuel => PFuel
                   end
               | PErr => PErr
               | PFuel => PFuel
               end) = POk n rest -> ends_solid s rest).
  { intros sg s1 Hs1. pose proof (span_digits_solid s1) as Hl.
    destruct (span_digits s1) as [ip s2]. cbn [fst snd] in Hl.
    destruct (isEmpty ip) eqn:Ei; [discriminate|]. specialize (Hl eq_refl).
    destruct (leading_zero ip); [discriminate|]. cbn [orb].
    intros H. apply (ends_solid_tail s1); [exact Hs1|]. revert H.
    destruct (expect "." s2) as [r|] eqn:Ed.
    - apply expect_tail in Ed. pose proof (span_digits_solid r) as Hl2.
      destruct (span_digits r) as [d rest0]. cbn [fst snd] in Hl2.
      destruct (isEmpty d); [discriminate|]. specialize (Hl2 eq_refl).
      assert (Hr0 : ends_solid s1 rest0).
      { apply (ends_solid_tail r); [|exact Hl2].
        apply (tail_trans _ s2); [exact Ed | now apply ends_solid_is_tail]. }
      destruct (parse_exponent rest0) as [ex rest1| |] eqn:Ee; try discriminate.
      apply parse_exponent_consumed in Ee. intros [= _ <-].
      destruct Ee as [-> | Ee]; [exact Hr0|].
      apply (ends_solid_tail rest0); [now apply ends_solid_is_tail | exact Ee].
    - destruct (parse_exponent s2) as [ex rest1| |] eqn:Ee; try discriminate.
      apply parse_exponent_consumed in Ee. intros [= _ <-].
      destruct Ee as [-> | Ee]; [exact Hl|].
      apply (ends_solid_tail s2); [now apply ends_solid_is_tail | exact Ee]. }
  destruct (expect "-" s) as [r|] eqn:E.
  - apply (H true r). now apply expect_tail in E.
  - apply (H false s). apply tail_refl.
Qed.

Lemma prefix_app_drop (p s : string) :
  String.prefix p s = true -> s = p ++ drop (String.length p) s.
Proof.
  revert s. induction p as [|a p IH]; intros s H; [reflexivity|].
  destruct s as [|b s]; [discriminate H|].
  rewrite FenceFacts.prefix_cons in H. destruct (ascii_dec a b) as [-> |]; [|discriminate H].
  simpl. f_equal. apply IH. exact H.
Qed.

(** A successful parse ends at an ASCII character that is not white
    space: a closing bracket or quote, a digit, the last letter of a
    literal. *)
Lemma parse_consumed (f : nat) :
  (forall s v r, parse_value f s = POk v r -> ends_solid s r) /\
  (forall s acc l r, parse_elems f s acc = POk l r -> ends_solid s r) /\
  (forall s acc l r, parse_members f s acc = POk l r -> ends_solid s r).
Proof.
  induction f as [|f (IHv & IHe & IHm)]; [repeat split; discriminate|].
  assert (Hclose : forall c x r, ws1 c = false -> code c < 128 ->
                     expect c (skip_ws x) = Some r -> ends_solid x r).
  { intros c x r H1 H2 E. apply expect_eq in E.
    apply (ends_solid_tail (skip_ws x)); [apply skip_ws_tail|].
    rewrite E. now apply ends_solid_here. }
  assert (Hnext : forall c x r, expect c (skip_ws x) = Some r -> tail_of (skip_ws r) x).
  { intros c x r E. apply expect_tail in E.
    apply (tail_trans _ r); [apply skip_ws_tail|].
    apply (tail_trans _ (skip_ws x)); [exact E | apply skip_ws_tail]. }
  split; [|split].
  - intros s v r. cbn [parse_value]. destruct s as [|c r0]; [discriminate|].
    destruct (Ascii.eqb c "{").
    { destruct (expect "}" (skip_ws r0)) as [r'|] eqn:E.
      - intros [= _ <-]. apply ends_solid_cons.
        now apply (Hclose "}"%char r0 r').
      - intros H. apply pmap_ok in H. destruct H as (a & H). apply IHm in H.
        apply ends_solid_cons. apply (ends_solid_tail (skip_ws r0)); [apply skip_ws_tail | exact H]. }
    destruct (Ascii.eqb c "[").
    { destruct (expect "]" (skip_ws r0)) as [r'|] eqn:E.
      - intros [= _ <-]. apply ends_solid_cons.
        now apply (Hclose "]"%char r0 r').
      - intros H. apply pmap_ok in H. destruct H as (a & H). apply IHe in H.
        apply ends_solid_cons. apply (ends_solid_tail (skip_ws r0)); [apply skip_ws_tail | exact H]. }
    destruct (Ascii.eqb c dquote).
    { intros H. apply pmap_ok in H. destruct H as (a & H).
      apply ends_solid_cons. exact (str_body_consumed _ _ _ _ _ H). }
    destruct (String.prefix "true" (String c r0)) eqn:Pt.
    { intros [= _ <-]. apply prefix_app_drop in Pt.
      exists "tru", "e"%char. split; [exact Pt | split; reflexivity]. }
    destruct (String.prefix "false" (String c r0)) eqn:Pf.
    { intros [= _ <-]. apply prefix_app_drop in Pf.
      exists "fals", "e"%char. split; [exact Pf | split; reflexivity]. }
    destruct (String.prefix "null" (String c r0)) eqn:Pn.
    { intros [= _ <-]. apply prefix_app_drop in Pn.
      exists "nul", "l"%char. split; [exact Pn | split; reflexivity]. }
    intros H. apply pmap_ok in H. destruct H as (a & H).
    exact (parse_number_consumed _ _ _ H).
  - intros s acc l r. cbn [parse_elems].
    destruct (parse_value f s) as [v r1| |] eqn:Ev; try discriminate.
    apply IHv, ends_solid_is_tail in Ev.
    destruct (expect "," (skip_ws r1)) as [r'|] eqn:E1.
    { intros H. apply IHe in H.
      apply (ends_solid_tail (skip_ws r')); [|exact H].
      apply (tail_trans _ r1); [exact (Hnext _ _ _ E1) | exact Ev]. }
    destruct (expect "]" (skip_ws r1)) as [r'|] eqn:E2; [|discriminate].
    intros [= _ <-]. apply (ends_solid_tail r1); [exact Ev|].
    now apply (Hclose "]"%char r1 r').
  - intros s acc l r. cbn [parse_members]. destruct s as [|c r0]; [discriminate|].
    destruct (Ascii.eqb c dquote); [|discriminate].
    destruct (str_body SPlain None r0) as [k r1| |] eqn:Es; try discriminate.
    apply str_body_consumed, ends_solid_is_tail in Es.
    destruct (expect ":" (skip_ws r1)) as [r2|] eqn:E1; [|discriminate].
    apply Hnext in E1.
    destruct (parse_value f (skip_ws r2)) as [v r3| |] eqn:Ev; try discriminate.
    apply IHv, ends_solid_is_tail in Ev.
    assert (T3 : tail_of r3 (String c r0)).
    { apply tail_cons. apply (tail_trans _ r1); [|exact Es].
      apply (tail_trans _ (skip_ws r2)); [exact Ev | exact E1]. }
    destruct (expect "," (skip_ws r3)) as [r4|] eqn:E2.
    { intros H. apply IHm in H.
      apply (ends_solid_tail (skip_ws r4)); [|exact H].
      apply (tail_trans _ r3); [exact (Hnext _ _ _ E2) | exact T3]. }
    destruct (expect "}" (skip_ws r3)) as [r4|] eqn:E3; [|discriminate].
    intros [= _ <-]. apply (ends_solid_tail r3); [exact T3|].
    now apply (Hclose "}"%char r3 r4).
Qed.


Lemma json_ws_ascii (c : ascii) : json_ws c = true -> code c < 128.
Proof.
  intros H. destruct (json_ws_cases c H) as [-> | [-> | [-> | ->]]]; reflexivity.
Qed.

(** JSON white space at the end of a text is trimmed. *)
Lemma trimEnd_blank (r : string) :
  blank r -> forall x, trimEnd (x ++ r) = trimEnd x.
Proof.
  induction r as [|c r IH]; intros Hr x; [now rewrite append_empty_r|].
  apply blank_cons in Hr. destruct Hr as [Hc Hr].
  change (String c r) with (String c EmptyString ++ r).
  rewrite <- append_assoc, (IH Hr).
  apply trimEnd_snoc_ws; [now apply json_ws_ws1 | now apply json_ws_ascii].
Qed.


(** *** [JSON.parse] of a trimmed text *)

Lemma parse_number_head (c : ascii) (r : string) (n : number) (rest : string) :
  parse_number (String c r) = POk n rest -> ws1 c = false /\ code c < 128.
Proof.
  unfold parse_number. cbn [expect].
  destruct (Ascii.eqb_spec c "-") as [-> |_]; [intros _; split; reflexivity|].
  cbn [span_digits]. destruct (is_digit c) eqn:Hd; [intros _; now apply digit_solid|].
  cbn. discriminate.
Qed.

(** A value starts with an ASCII character that is not white space. *)
Lemma parse_value_head (f : nat) (c : ascii) (r : string) (v : value) (rest : string) :
  parse_value f (String c r) = POk v rest -> ws1 c = false /\ code c < 128.
Proof.
  destruct f as [|f]; [discriminate|]. cbn [parse_value].
  destruct (Ascii.eqb_spec c "{") as [-> |_]; [intros _; split; reflexivity|].
  destruct (Ascii.eqb_spec c "[") as [-> |_]; [intros _; split; reflexivity|].
  destruct (Ascii.eqb_spec c dquote) as [-> |_]; [intros _; split; reflexivity|].
  rewrite !FenceFacts.prefix_cons.
  destruct (ascii_dec "t" c) as [<- |_]; [intros _; split; reflexivity|].
  destruct (ascii_dec "f" c) as [<- |_]; [intros _; split; reflexivity|].
  destruct (ascii_dec "n" c) as [<- |_]; [intros _; split; reflexivity|].
  intros H. apply pmap_ok in H. destruct H as (a & H).
  exact (parse_number_head _ _ _ _ H).
Qed.

Lemma append_eq_self (y r : string) : y ++ r = r -> y = EmptyString.
Proof.
  intros H. apply (f_equal String.length) in H. rewrite length_append in H.
  destruct y; [reflexivity | simpl in H; lia].
Qed.

Lemma ext_inv {A : Type} (r : string) (res : pres A) (a : A) :
  ext r res = POk a r -> res = POk a EmptyString.
Proof.
  destruct res as [a' y| |]; simpl; try discriminate.
  intros [= -> H]. now rewrite (append_eq_self _ _ H).
Qed.

(** [JSON.parse(t.trim())] is [JSON.parse(t)] for every text [t] that is
    JSON: trimming removes white space that the parser skips. *)
Theorem JSON_parse_trim (t : string) (v : value) :
  JSON_parse t = Ok v -> JSON_parse (trim t) = Ok v.
Proof.
  unfold JSON_parse at 1. intros H.
  destruct (parse_value (fuel_for t) (skip_ws t)) as [v' rest| |] eqn:E; try discriminate.
  destruct (isEmpty (skip_ws rest)) eqn:Hb; [|discriminate]. injection H as ->.
  assert (Hr : blank rest).
  { unfold blank. destruct (skip_ws rest); [reflexivity | discriminate]. }
  destruct (proj1 (parse_consumed _) _ _ _ E) as (B & c & HX & Hc1 & Hc2).
  set (X := B ++ String c EmptyString).
  assert (HX' : skip_ws t = X ++ rest).
  { unfold X. rewrite append_assoc. exact HX. }
  assert (Hhead : exists h r0, X = String h r0 /\ ws1 h = false /\ code h < 128).
  { unfold X. destruct B as [|h B'].
    - exists c, EmptyString. auto.
    - exists h, (B' ++ String c EmptyString). split; [reflexivity|].
      rewrite HX in E. exact (parse_value_head _ _ _ _ _ E). }
  destruct Hhead as (h & r0 & Hh & Hh1 & Hh2).
  assert (Ht : trim t = X).
  { unfold trim. rewrite (trimStart_skip_ws t), HX', Hh.
    change ((String h r0) ++ rest) with (String h (r0 ++ rest)).
    rewrite (trimStart_head h _ Hh1 Hh2).
    change (String h (r0 ++ rest)) with ((String h r0) ++ rest).
    rewrite <- Hh, (trimEnd_blank rest Hr). now apply trimEnd_snoc_solid. }
  rewrite Ht. unfold JSON_parse.
  assert (Hs : skip_ws X = X).
  { rewrite Hh. simpl. destruct (json_ws h) eqn:Hj; [|reflexivity].
    apply json_ws_ws1 in Hj. congruence. }
  rewrite Hs.
  rewrite HX', (proj1 (parse_ext rest Hr _)) in E. apply ext_inv in E.
  assert (Hlen : (String.length X <= String.length t)%nat).
  { pose proof (skip_ws_length t) as Hl. rewrite HX', length_append in Hl. lia. }
  assert (Hf : parse_value (fuel_for X) X <> PFuel).
  { apply (proj1 (parse_fuel _)). unfold fuel_for. lia. }
  apply (parse_value_more_fuel (fuel_for t - fuel_for X)) in Hf.
  replace (fuel_for t - fuel_for X + fuel_for X)%nat with (fuel_for t) in Hf
    by (unfold fuel_for; lia).
  rewrite <- Hf, E. reflexivity.
Qed.

End JsonTrim.

(** ** The JSON extractor: a text between fences *)

Module FenceRoundtrip.

Import Str JS Json Regex Actions StrFacts FenceFacts JsonFacts JsonTrim.

(** A JSON string literal whose content has a fence in it. *)
Definition fenced_string : string :=
  String dquote ("a```b" ++ String dquote EmptyString).

(** A vertical tab, which [trim] strips and JSON does not accept, before a
    number. *)
Definition tab_one : string := String "011" "1".

(** C2 as stated fails: the fence inside a string literal is removed too,
    so the wrapped text parses to another value than the text itself; and a
    text that JSON rejects for its white space is accepted once wrapped. *)
Lemma fence_inside_string_is_lost :
  JSON_parse fenced_string = Ok (VStr "a```b") /\
  JSON_parse (cleanedText (wrap true fenced_string)) = Ok (VStr "ab") /\
  ~ spec_fence_roundtrip fenced_string /\
  ~ spec_fence_roundtrip tab_one.
Proof.
  unfold spec_fence_roundtrip.
  repeat split; try (vm_compute; reflexivity); vm_compute; discriminate.
Qed.

(** C2 (amended).  For every text [t] with no run of three backticks in
    it, wrapping [t] in fences (with or without the [json] tag) and cleaning
    the result, with the expression of [dashboard.js] or with that of
    [interview.js], gives [t] trimmed, so that the JSON extractor yields what
    parsing the trimmed [t] yields; and when [t] is JSON, that is the value
    that parsing [t] directly yields.  (Fence markers are removed wherever
    they stand, not only at the two ends, and [trim] removes white space that
    JSON does not allow.) *)
Theorem fence_roundtrip (tag : bool) (t : string) :
  Str.includes t fence = false ->
  cleanedText (wrap tag t) = Str.trim t /\
  cleaned (wrap tag t) = Str.trim t /\
  JSON_parse (cleanedText (wrap tag t)) = JSON_parse (Str.trim t) /\
  JSON_parse (cleaned (wrap tag t)) = JSON_parse (Str.trim t) /\
  (forall v, JSON_parse t = Ok v ->
             JSON_parse (cleanedText (wrap tag t)) = Ok v /\
             JSON_parse (cleaned (wrap tag t)) = Ok v).
Proof.
  intros H. rewrite (cleanedText_wrap tag t H), (cleaned_wrap tag t H).
  repeat split; now apply JSON_parse_trim.
Qed.

(** [fence_roundtrip] on a list, with white space around it, in a tagged
    fence. *)
Lemma fence_roundtrip_witness :
  Str.includes " [1, 2] " fence = false /\
  JSON_parse " [1, 2] " = Ok (VArr [VNum (Num.of_Z 1); VNum (Num.of_Z 2)]) /\
  JSON_parse (cleanedText (wrap true " [1, 2] "))
  = Ok (VArr [VNum (Num.of_Z 1); VNum (Num.of_Z 2)]).
Proof.
  split; [reflexivity|]. split; [vm_compute; reflexivity|].
  apply (proj2 (proj2 (proj2 (proj2 (fence_roundtrip true " [1, 2] " eq_refl))))).
  vm_compute. reflexivity.
Defined.

End FenceRoundtrip.

(** ** Numbers: signs and integers *)

Module NumFacts.

Import Num.

(** Zero, a positive finite number, or [+Infinity]. *)
Definition nonneg (x : number) : Prop :=
  match x with
  | Fin m _ => 0 <= m
  | Inf b => b = false
  | NaN => False
  end.

Lemma norm_pos_exp (p : positive) (e : Z) : e <= snd (norm_pos p e).
Proof.
  revert e. induction p as [p IH | p IH |]; intros e; simpl; try lia.
  specialize (IH (e + 1)). lia.
Qed.

Lemma mk_nonneg (m e : Z) : 0 <= m -> nonneg (mk m e).
Proof.
  intros H. destruct m as [|p|p]; simpl; try lia.
  destruct (norm_pos p e). simpl. lia.
Qed.

Lemma mk_is_nat (m e : Z) : 0 <= m -> 0 <= e -> is_nat (mk m e) = true.
Proof.
  intros Hm He. destruct m as [|p|p]; [reflexivity | | lia].
  pose proof (norm_pos_exp p e) as H. simpl.
  destruct (norm_pos p e) as [p' e'].
  simpl in *. apply Z.leb_le. lia.
Qed.

Lemma scale2_sign (p q u n d : Z) :
  0 <= p -> 0 < q -> scale2 p q u = (n, d) -> 0 <= n /\ 0 < d.
Proof.
  intros Hp Hq. unfold scale2.
  destruct (Z.leb_spec 0 u); intros [= <- <-].
  - split; [lia|]. apply Z.mul_pos_pos; [lia|]. apply Z.pow_pos_nonneg; lia.
  - split; [|lia]. apply Z.mul_nonneg_nonneg; [lia|]. apply Z.pow_nonneg. lia.
Qed.

Lemma round_rat_nonneg (p q : Z) : 0 < q -> nonneg (round_rat p q).
Proof.
  intros Hq. unfold round_rat.
  destruct (Z.leb_spec p 0) as [|Hp]; [simpl; lia|].
  destruct (scale2 p q (Z.log2 p - Z.log2 q)) as [a b].
  set (u := Z.max _ _).
  destruct (scale2 p q u) as [n d] eqn:E.
  destruct (scale2_sign p q u n d ltac:(lia) Hq E) as [Hn Hd].
  pose proof (Z.div_pos n d Hn Hd) as Hf.
  match goal with
  | |- nonneg (if ?c then _ else _) => destruct c; [reflexivity|]
  end.
  apply mk_nonneg.
  destruct (2 * (n mod d) <? d); [assumption|].
  destruct (d <? 2 * (n mod d)); [lia|].
  destruct (Z.even (n / d)); lia.
Qed.

Lemma of_decimal_nonneg (ip fp : string) (ex : Z) : nonneg (of_decimal false ip fp ex).
Proof.
  unfold of_decimal, round_signed.
  destruct (0 <=? ex - Z.of_nat (String.length fp)) eqn:E.
  - apply round_rat_nonneg. lia.
  - apply round_rat_nonneg. apply Z.pow_pos_nonneg; [lia|].
    apply Z.leb_gt in E. lia.
Qed.

(** [x * 1000] for a non-negative [x]. *)
Lemma mul_1000_nonneg (x : number) : nonneg x -> nonneg (mul x (of_Z 1000)).
Proof.
  destruct x as [|b|m e]; simpl; try contradiction.
  - intros ->. reflexivity.
  - intros Hm. change (mul (Fin m e) (of_Z 1000)) with (round_dyadic (m * 125) (e + 3)).
    unfold round_dyadic.
    assert (Hs : (m * 125 <? 0) = false) by (apply Z.ltb_ge; lia).
    rewrite Hs. unfold round_signed.
    destruct (Z.leb_spec 0 (e + 3)).
    + apply round_rat_nonneg. lia.
    + apply round_rat_nonneg. apply Z.pow_pos_nonneg; lia.
Qed.

(** [Math.ceil] of a non-negative number is a non-negative integer, or
    [+Infinity]. *)
Lemma ceil_nonneg (x : number) :
  nonneg x -> is_nat (ceil x) = true \/ ceil x = Inf false.
Proof.
  destruct x as [|b|m e]; simpl; try contradiction.
  - intros ->. right. reflexivity.
  - intros Hm. left. destruct (Z.leb_spec 0 e) as [He|He].
    + simpl. apply andb_true_intro. split; apply Z.leb_le; lia.
    + apply mk_is_nat; [|lia].
      assert (Hd : 0 < 2 ^ (- e)) by (apply Z.pow_pos_nonneg; lia).
      assert (Hq : (- m) / 2 ^ (- e) <= 0).
      { apply Z.div_le_upper_bound; lia. }
      lia.
Qed.

(** [Math.ceil] gives [Infinity] for [Infinity] alone. *)
Lemma ceil_infinite (x : number) : ceil x = Inf false -> x = Inf false.
Proof.
  destruct x as [|b|m e]; simpl; try (intros H; exact H).
  destruct (0 <=? e); [discriminate|].
  unfold mk. destruct (- (- m / 2 ^ (- e))) as [|p|p]; [discriminate| |];
    destruct (norm_pos p 0); discriminate.
Qed.

Lemma norm_pos_value (p : positive) (e : Z) :
  Zpos (fst (norm_pos p e)) * 2 ^ (snd (norm_pos p e) - e) = Zpos p.
Proof.
  revert e. induction p as [p IH | p IH |]; intros e.
  - cbn [norm_pos fst snd]. rewrite Z.sub_diag. lia.
  - change (norm_pos p~0 e) with (norm_pos p (e + 1)).
    specialize (IH (e + 1)). pose proof (norm_pos_exp p (e + 1)) as He.
    replace (snd (norm_pos p (e + 1)) - e)
      with (Z.succ (snd (norm_pos p (e + 1)) - (e + 1))) by lia.
    rewrite Z.pow_succ_r by lia.
    rewrite (Pos2Z.inj_xO p), <- IH. ring.
  - cbn [norm_pos fst snd]. rewrite Z.sub_diag. lia.
Qed.

(** What [mk] builds from a non-negative integer has its value. *)
Lemma mk_value (m : Z) :
  0 <= m -> exists m' e', mk m 0 = Fin m' e' /\ 0 <= m' /\ 0 <= e' /\ m' * 2 ^ e' = m.
Proof.
  intros Hm. destruct m as [|p|p]; [| |lia].
  - exists 0, 0. repeat split; lia.
  - pose proof (norm_pos_value p 0) as Hv. pose proof (norm_pos_exp p 0) as He.
    cbn [mk]. destruct (norm_pos p 0) as [p' e']. cbn [fst snd] in *.
    exists (Zpos p'), e'. rewrite Z.sub_0_r in Hv. repeat split; try lia.
Qed.

Lemma mk_double (m e : Z) : mk (2 * m) e = mk m (e + 1).
Proof. destruct m; reflexivity. Qed.

Lemma mk_shift (j : nat) (m e : Z) : mk (m * 2 ^ Z.of_nat j) (e - Z.of_nat j) = mk m e.
Proof.
  revert m e. induction j as [|j IH]; intros m e.
  - simpl. rewrite Z.mul_1_r, Z.sub_0_r. reflexivity.
  - rewrite Nat2Z.inj_succ, Z.pow_succ_r by lia.
    replace (m * (2 * 2 ^ Z.of_nat j)) with (2 * (m * 2 ^ Z.of_nat j)) by ring.
    rewrite mk_double.
    replace (e - Z.succ (Z.of_nat j) + 1) with (e - Z.of_nat j) by lia.
    apply IH.
Qed.

(** An integer below 2^53 is a binary64 value. *)
Lemma round_rat_integer (p : Z) : 0 <= p < 2 ^ 53 -> round_rat p 1 = mk p 0.
Proof.
  intros [Hp Hlt]. unfold round_rat.
  destruct (Z.leb_spec p 0) as [H0 | Hpos].
  { assert (p = 0) by lia. subst p. reflexivity. }
  change (Z.log2 1) with 0. rewrite Z.sub_0_r.
  pose proof (Z.log2_spec p Hpos) as [Hlo Hhi].
  pose proof (Z.log2_nonneg p) as Hk.
  assert (Hk52 : Z.log2 p <= 52).
  { apply Z.lt_succ_r. apply (Z.log2_lt_pow2 p 53); lia. }
  unfold scale2 at 1.
  destruct (Z.leb_spec 0 (Z.log2 p)) as [_|]; [|lia].
  rewrite Z.mul_1_l.
  destruct (Z.ltb_spec p (2 ^ Z.log2 p)) as [|_]; [lia|].
  rewrite Z.max_l by lia.
  unfold scale2.
  destruct (Z.leb_spec 0 (Z.log2 p - 52)) as [Hu | Hu].
  - assert (Hz : Z.log2 p - 52 = 0) by lia. rewrite Hz.
    change (1 * 2 ^ 0) with 1. rewrite Z.div_1_r, Z.mod_1_r.
    cbn [Z.mul Z.ltb Z.compare]. cbn [Z.ltb Z.eqb orb andb]. reflexivity.
  - rewrite Z.div_1_r, Z.mod_1_r.
    cbn [Z.mul]. change (0 <? 1) with true. cbv iota.
    destruct (Z.ltb_spec 971 (Z.log2 p - 52)) as [|_]; [lia|].
    destruct (Z.eqb_spec (Z.log2 p - 52) 971) as [|_]; [lia|].
    cbn [orb andb].
    rewrite <- (mk_shift (Z.to_nat (52 - Z.log2 p)) p 0).
    f_equal; [f_equal; f_equal; lia | lia].
Qed.

(** [n * 1000] is exact for an integer [n] with [1000 n] below 2^53. *)
Lemma mul_1000_integer (n : Z) :
  0 <= n -> n * 1000 < 2 ^ 53 -> mul (mk n 0) (of_Z 1000) = mk (n * 1000) 0.
Proof.
  intros Hn Hlt. destruct (mk_value n Hn) as (m' & e' & -> & Hm & He & Hv).
  change (mul (Fin m' e') (of_Z 1000)) with (round_dyadic (m' * 125) (e' + 3)).
  unfold round_dyadic.
  destruct (Z.ltb_spec (m' * 125) 0) as [|_]; [lia|].
  destruct (Z.leb_spec 0 (e' + 3)) as [_|]; [|lia].
  unfold round_signed. rewrite Z.abs_eq by lia.
  replace (m' * 125 * 2 ^ (e' + 3)) with (n * 1000).
  - apply round_rat_integer. lia.
  - rewrite <- Hv, Z.pow_add_r by lia. change (2 ^ 3) with 8. ring.
Qed.

Lemma ceil_integer (n : Z) : 0 <= n -> ceil (mk n 0) = mk n 0.
Proof.
  intros Hn. destruct (mk_value n Hn) as (m' & e' & -> & _ & He & _).
  simpl. destruct (Z.leb_spec 0 e'); [reflexivity | lia].
Qed.

End NumFacts.

(** ** The retry-delay extractor *)

Module RetryFacts.

Import Str Num JS Json Regex Quota StrFacts JsonFacts DelayFacts NumFacts.

(** A detail entry of another kind: an object whose [@type] is missing,
    or is a text without [RetryInfo]. *)
Definition other_detail (x : value) : Prop :=
  exists l, x = VObj l /\
            (get x "@type" = VUndef \/
             exists s, get x "@type" = VStr s /\ Str.includes s "RetryInfo" = false).

Lemma retry_loop_other (x : value) (rest : list value) :
  other_detail x -> retry_loop (x :: rest) = retry_loop rest.
Proof.
  intros (l & -> & H). cbn [retry_loop get_strict bind].
  destruct H as [-> | (s & -> & Hs)]; [reflexivity|].
  cbn [truthy includes bind]. rewrite Hs.
  destruct (negb (isEmpty s)); reflexivity.
Qed.

Lemma retry_loop_others (pre rest : list value) :
  Forall other_detail pre -> retry_loop (pre ++ rest) = retry_loop rest.
Proof.
  induction 1 as [|x pre Hx _ IH]; [reflexivity|].
  rewrite <- app_comm_cons, (retry_loop_other _ _ Hx). exact IH.
Qed.

Lemma includes_nonempty (s needle : string) :
  isEmpty needle = false -> Str.includes s needle = true -> isEmpty s = false.
Proof.
  intros Hn. destruct s; [|reflexivity].
  destruct needle; [discriminate|]. simpl. discriminate.
Qed.

Lemma text_property_object (d : value) (k s : string) :
  get d k = VStr s -> d <> VUndef /\ d <> VNull.
Proof. intros H. split; intros ->; discriminate H. Qed.

(** The loop stops at a [RetryInfo] entry whose delay starts with a
    decimal number and the letter s. *)
Lemma retry_loop_hit (d : value) (rest : list value) (ty ip fp tail : string) :
  get d "@type" = VStr ty ->
  Str.includes ty "RetryInfo" = true ->
  digits ip = true -> isEmpty ip = false -> digits fp = true ->
  get d "retryDelay" = VStr (decimal ip fp ++ String "s" tail) ->
  retry_loop (d :: rest)
  = Ok (Some (Num.ceil (Num.mul (of_decimal false ip fp 0) (of_Z 1000)))).
Proof.
  intros Hty Hinc Hi Hn Hf Hd.
  destruct (text_property_object d _ _ Hty) as [Hu Hnull].
  cbn [retry_loop].
  assert (Hs : get_strict d "@type" = Ok (VStr ty)).
  { unfold get_strict. rewrite <- Hty. destruct d; congruence. }
  rewrite Hs, Hd. cbn [bind truthy includes ToString].
  rewrite (includes_nonempty ty "RetryInfo" eq_refl Hinc), Hinc.
  destruct (decimal_head ip fp Hi Hn) as (c & r & E & _).
  assert (Hne : isEmpty (decimal ip fp ++ String "s" tail) = false)
    by (rewrite E; reflexivity).
  rewrite Hne. cbn [negb andb bind].
  rewrite (exec_delay_decimal ip fp tail Hi Hn Hf).
  rewrite (parseFloat_decimal ip fp Hi Hn Hf). reflexivity.
Qed.

Definition quoted (s : string) : string := String dquote (s ++ String dquote EmptyString).

(** The text of a [RetryInfo] entry with the given delay. *)
Definition retry_entry (delay : string) : string :=
  "{" ++ quoted "@type" ++ ":" ++ quoted "type.googleapis.com/google.rpc.RetryInfo" ++ ","
      ++ quoted "retryDelay" ++ ":" ++ quoted delay ++ "}".

(** The message of an error of the backend: JSON with the given entries
    in [error.details]. *)
Definition details_message (entries : string) : string :=
  "{" ++ quoted "error" ++ ":{" ++ quoted "code" ++ ":429," ++ quoted "details" ++ ":["
      ++ entries ++ "]}}".

(** The message of a quota error: one [RetryInfo] entry. *)
Definition retry_message (delay : string) : string :=
  details_message (retry_entry delay).

Definition retry_error (delay : string) : value :=
  VObj [("message", VStr (retry_message delay))].

(** Follows the specification: the number of seconds written [ip.fp],
    converted to milliseconds and rounded up, in exact arithmetic. *)
Definition spec_retry_ms (ip fp : string) : Z :=
  - ((- (dec_value 0 (ip ++ fp) * 1000)) / 10 ^ Z.of_nat (String.length fp)).

(** C5 as stated fails: 4.03 seconds are 4030 milliseconds, and
    [parseRetryMs] gives 4031, as the binary64 product of 4.03 and 1000 lies
    just above 4030. *)
Lemma four_point_zero_three :
  spec_retry_ms "4" "03" = 4030 /\
  parseRetryMs (retry_error "4.03s") = of_Z 4031 /\
  parseRetryMs (retry_error "4.03s") <> of_Z (spec_retry_ms "4" "03").
Proof. repeat split; try (vm_compute; reflexivity). vm_compute. discriminate. Qed.

(** An entry that is [null] before the [RetryInfo] entry hides it: the
    loop throws on it, and the delay is 0. *)
Lemma null_detail_hides_delay :
  parseRetryMs (VObj [("message",
                       VStr (details_message ("null," ++ retry_entry "3.5s")))])
  = of_Z 0.
Proof. vm_compute. reflexivity. Qed.

Lemma details_object (v : value) (ds : list value) :
  get (get v "error") "details" = VArr ds -> exists l, v = VObj l.
Proof.
  destruct v as [| | b | n | s | l | l]; try discriminate; eauto.
Qed.

Lemma dec_value_nonneg (s : string) (acc : Z) :
  digits s = true -> 0 <= acc -> 0 <= dec_value acc s.
Proof.
  revert acc. induction s as [|c s IH]; intros acc Hd Ha; [exact Ha|].
  simpl in Hd. apply andb_prop in Hd. destruct Hd as [Hc Hd].
  apply is_digit_code in Hc. cbn [dec_value]. apply IH; [exact Hd|].
  unfold digit_val. lia.
Qed.

(** Whole seconds are converted exactly, up to 2^53 milliseconds. *)
Lemma whole_seconds_exact (ip : string) :
  digits ip = true -> dec_value 0 ip * 1000 < 2 ^ 53 ->
  Num.ceil (Num.mul (of_decimal false ip EmptyString 0) (of_Z 1000))
  = of_Z (spec_retry_ms ip EmptyString).
Proof.
  intros Hi Hlt. pose proof (dec_value_nonneg ip 0 Hi ltac:(lia)) as Hn.
  unfold spec_retry_ms.
  change (of_decimal false ip EmptyString 0)
    with (round_rat (dec_value 0 (ip ++ EmptyString) * 1) 1).
  rewrite append_empty_r, Z.mul_1_r.
  change (10 ^ Z.of_nat (String.length EmptyString)) with 1.
  rewrite Z.div_1_r, Z.opp_involutive.
  rewrite round_rat_integer by lia.
  rewrite mul_1000_integer by lia.
  unfold of_Z. apply ceil_integer. lia.
Qed.

(** An entry of the details at which the loop returns: a truthy [@type]
    that includes [RetryInfo], and a delay in whose text the expression finds
    a match. *)
Definition delay_entry (d : value) (g : string) : Prop :=
  truthy (get d "@type") = true /\
  includes (get d "@type") "RetryInfo" = Ok true /\
  truthy (get d "retryDelay") = true /\
  exists text, ToString (get d "retryDelay") = Ok text /\ exec_delay text = Some g.

(** A well-formed retry delay is found in the error: its message is a
    text that parses as JSON, with an [error.details] list that has such an
    entry. *)
Definition delay_found (err : value) : Prop :=
  exists m v ds d g,
    get err "message" = VStr m /\ JSON_parse m = Ok v /\
    get (get v "error") "details" = VArr ds /\ In d ds /\ delay_entry d g.

Lemma get_strict_ok (d : value) (k : string) (x : value) :
  get_strict d k = Ok x -> x = get d k.
Proof. unfold get_strict. destruct d; intros [= <-] || discriminate; reflexivity. Qed.

Lemma retry_loop_found (l : list value) (n : number) :
  retry_loop l = Ok (Some n) ->
  exists d g, In d l /\ delay_entry d g
              /\ n = Num.ceil (Num.mul (parseFloat g) (of_Z 1000)).
Proof.
  induction l as [|d l IH]; [discriminate|].
  assert (IH' : retry_loop l = Ok (Some n) ->
                exists d0 g, In d0 (d :: l) /\ delay_entry d0 g
                             /\ n = Num.ceil (Num.mul (parseFloat g) (of_Z 1000))).
  { intros H. destruct (IH H) as (d0 & g & Hin & Hrest).
    exists d0, g. split; [right; exact Hin | exact Hrest]. }
  cbn [retry_loop].
  destruct (get_strict d "@type") as [ty | e] eqn:Hs; cbn [bind]; [|discriminate].
  apply get_strict_ok in Hs. subst ty.
  destruct (truthy (get d "@type")) eqn:Ht; cbn [bind]; [|exact IH'].
  destruct (includes (get d "@type") "RetryInfo") as [inc | e] eqn:Hi;
    cbn [bind]; [|discriminate].
  destruct inc; cbn [andb]; [|exact IH'].
  destruct (truthy (get d "retryDelay")) eqn:Hr; [|exact IH'].
  destruct (ToString (get d "retryDelay")) as [text | e] eqn:Hts;
    cbn [bind]; [|discriminate].
  destruct (exec_delay text) as [g|] eqn:He; [|exact IH'].
  intros [= <-]. exists d, g. split; [left; reflexivity|].
  split; [|reflexivity].
  split; [exact Ht|]. split; [exact Hi|]. split; [exact Hr|].
  exists text. split; assumption.
Qed.

Lemma chars_strings (f : nat) (s : string) (d : value) :
  In d (chars f s) -> exists x, d = VStr x.
Proof.
  revert s. induction f as [|f IH]; intros s; [contradiction|].
  destruct s as [|c r]; [contradiction|].
  cbn [chars]. intros [<- | H]; [eauto | exact (IH _ H)].
Qed.

Lemma try_block_some (err : value) (n : number) :
  retry_try_block err = Ok (Some n) ->
  exists m v items,
    get err "message" = VStr m /\ JSON_parse m = Ok v /\
    iterate (or_else (get (get v "error") "details") (VArr [])) = Ok items /\
    retry_loop items = Ok (Some n).
Proof.
  unfold retry_try_block.
  destruct (get err "message") as [| | b | x | m | l | l]; try discriminate.
  unfold parse_object_text.
  destruct (negb (isEmpty m) && startsWith (Str.trim m) "{"); [|discriminate].
  destruct (JSON_parse m) as [v | e] eqn:Hp; cbn [bind]; [|discriminate].
  destruct (iterate (or_else (get (get v "error") "details") (VArr []))) as [items | e] eqn:E;
    cbn [bind]; [|discriminate].
  intros H. exists m, v, items. repeat split; assumption.
Qed.

(** When the [try] block returns a delay, it has found an entry of the
    details with a delay that the expression matches, and the delay is the
    ceiling of the product of the matched number and 1000. *)
Lemma try_block_found (err : value) (n : number) :
  retry_try_block err = Ok (Some n) ->
  exists m v ds d g,
    get err "message" = VStr m /\ JSON_parse m = Ok v /\
    get (get v "error") "details" = VArr ds /\ In d ds /\ delay_entry d g /\
    n = Num.ceil (Num.mul (parseFloat g) (of_Z 1000)).
Proof.
  intros E.
  destruct (try_block_some err n E) as (m & v & items & Hm & Hp & Hit & Hl).
  destruct (retry_loop_found items n Hl) as (d & g & Hin & Hd & Hn).
  exists m, v, items, d, g.
  split; [exact Hm|]. split; [exact Hp|].
  split; [|split; [exact Hin | split; [exact Hd | exact Hn]]].
  revert Hit. unfold or_else.
  destruct (get (get v "error") "details") as [| | b | x | s | l | l];
    cbn [truthy iterate];
    try (intros [= <-]; contradiction);
    try (destruct b; cbn [iterate]; [discriminate | intros [= <-]; contradiction]);
    try (destruct (Num.truthy x); cbn [iterate];
         [discriminate | intros [= <-]; contradiction]);
    try discriminate.
  + destruct (negb (isEmpty s)); cbn [iterate]; intros [= <-]; [|contradiction].
    destruct (chars_strings _ _ _ Hin) as (x & ->).
    destruct Hd as (Ht & _). discriminate Ht.
  + intros [= <-]. reflexivity.
Qed.

(** With no [RetryInfo] entry whose delay the expression matches, the
    delay is 0. *)
Lemma no_delay_zero (err : value) : ~ delay_found err -> parseRetryMs err = of_Z 0.
Proof.
  intros Hnot. unfold parseRetryMs.
  destruct (retry_try_block err) as [[n|] | e] eqn:E; try reflexivity.
  exfalso. apply Hnot.
  destruct (try_block_found err n E) as (m & v & ds & d & g & Hm & Hp & Hds & Hin & Hd & _).
  exists m, v, ds, d, g. repeat split; try assumption; apply Hd.
Qed.

(** C5 (amended).  For every error whose textual message parses as JSON
    with an [error.details] list, in which the first entry that is not a detail
    object of another type has an [@type] containing [RetryInfo] and a
    [retryDelay] made of a decimal number and the letter s, the extracted delay
    is the ceiling of the binary64 product of that number, read as a binary64
    value, and 1000.  For a whole number of seconds, up to 2^53 milliseconds,
    this is exactly the number of milliseconds.  And for every error in which
    no [RetryInfo] entry with such a delay is found, the delay is 0. *)
Theorem retry_delay_extracted
  (err : value) (msg : string) (v : value) (pre post : list value) (d : value)
  (ty ip fp : string) :
  get err "message" = VStr msg ->
  JSON_parse msg = Ok v ->
  get (get v "error") "details" = VArr (pre ++ d :: post) ->
  Forall other_detail pre ->
  get d "@type" = VStr ty ->
  Str.includes ty "RetryInfo" = true ->
  digits ip = true -> isEmpty ip = false -> digits fp = true ->
  get d "retryDelay" = VStr (decimal ip fp ++ "s") ->
  parseRetryMs err = Num.ceil (Num.mul (of_decimal false ip fp 0) (of_Z 1000)) /\
  (isEmpty fp = true -> dec_value 0 ip * 1000 < 2 ^ 53 ->
   parseRetryMs err = of_Z (spec_retry_ms ip fp)) /\
  (forall other, ~ delay_found other -> parseRetryMs other = of_Z 0).
Proof.
  intros Hm Hp Hd Hpre Hty Hinc Hi Hn Hf Hdelay.
  assert (E : parseRetryMs err
              = Num.ceil (Num.mul (of_decimal false ip fp 0) (of_Z 1000))).
  { destruct (details_object v _ Hd) as (l & ->).
    unfold parseRetryMs, retry_try_block, parse_object_text.
    rewrite Hm, (object_text_starts_with_brace msg l Hp), Hp.
    cbn [bind]. rewrite Hd. cbn [or_else truthy iterate bind].
    rewrite (retry_loop_others pre (d :: post) Hpre).
    rewrite (retry_loop_hit d post ty ip fp EmptyString Hty Hinc Hi Hn Hf Hdelay).
    reflexivity. }
  split; [exact E|]. split; [|exact no_delay_zero].
  intros He Hlt. rewrite E. destruct fp; [|discriminate He].
  apply whole_seconds_exact; assumption.
Qed.

(** The example of the specification through [retry_delay_extracted]: a
    delay of 3.5s gives 3500 milliseconds. *)
Lemma retry_delay_extracted_witness :
  parseRetryMs (retry_error "3.5s") = of_Z 3500.
Proof.
  exact (eq_trans
           (proj1 (retry_delay_extracted
              (retry_error "3.5s") (retry_message "3.5s")
              (VObj [("error",
                      VObj [("code", VNum (of_Z 429));
                            ("details",
                             VArr [VObj [("@type",
                                          VStr "type.googleapis.com/google.rpc.RetryInfo");
                                         ("retryDelay", VStr "3.5s")]])])])
              [] []
              (VObj [("@type", VStr "type.googleapis.com/google.rpc.RetryInfo");
                     ("retryDelay", VStr "3.5s")])
              "type.googleapis.com/google.rpc.RetryInfo" "3" "5"
              eq_refl eq_refl eq_refl (Forall_nil _) eq_refl eq_refl
              eq_refl eq_refl eq_refl eq_refl))
           eq_refl).
Defined.

(** The delay at the head of a message of 330 characters: a one and 309
    zeros, more than binary64 holds. *)
Definition huge_delay : string := String "1" (zeros 309) ++ "s".

(** C10 as stated fails: the delay is well formed, and the result is
    [Infinity], which is not an integer. *)
Lemma huge_delay_is_infinite :
  parseRetryMs (retry_error huge_delay) = Inf false /\
  is_nat (parseRetryMs (retry_error huge_delay)) = false.
Proof. split; vm_compute; reflexivity. Qed.

(** The expression is not anchored: it finds a number and the letter s
    anywhere in the delay. *)
Lemma unanchored_match : parseRetryMs (retry_error "about 5s") = of_Z 5000.
Proof. vm_compute. reflexivity. Qed.

(** The delay of a one and 306 zeros is within the binary64 range, and
    its product with 1000 is not: the result is [Infinity] as well. *)
Definition large_delay : string := String "1" (zeros 306) ++ "s".

Lemma product_overflow_is_infinite :
  Num.is_nat (parseFloat (String "1" (zeros 306))) = true /\
  Num.mul (parseFloat (String "1" (zeros 306))) (of_Z 1000) = Inf false /\
  parseRetryMs (retry_error large_delay) = Inf false.
Proof. repeat split; vm_compute; reflexivity. Qed.

(** C10 (amended).  [parseRetryMs] is a total function that throws
    nothing: whatever its [try] block throws is caught and gives 0.  On every
    error value - [null], an error without a message or with a message that is
    no text, a message that is no JSON, JSON without [error.details] - its
    result is a non-negative integer or [Infinity], and [Infinity] only when a
    delay is found - the message is a text that parses as JSON with an
    [error.details] list, in which an entry has a truthy [@type] that includes
    [RetryInfo] and a delay that the expression matches - and the binary64
    product of the matched number and 1000 is [Infinity].  The result is 0
    whenever no such entry is found. *)
Theorem parseRetryMs_total (err : value) :
  (is_nat (parseRetryMs err) = true \/
   (parseRetryMs err = Inf false /\
    exists m v ds d g,
      get err "message" = VStr m /\ JSON_parse m = Ok v /\
      get (get v "error") "details" = VArr ds /\ In d ds /\ delay_entry d g /\
      Num.mul (parseFloat g) (of_Z 1000) = Inf false)) /\
  (forall e, retry_try_block err = Throw e -> parseRetryMs err = of_Z 0) /\
  (~ delay_found err -> parseRetryMs err = of_Z 0).
Proof.
  split; [|split].
  - unfold parseRetryMs.
    destruct (retry_try_block err) as [[n|] | e] eqn:E; try (left; reflexivity).
    destruct (try_block_found err n E)
      as (m & v & ds & d & g & Hm & Hp & Hds & Hin & Hd & ->).
    pose proof Hd as (_ & _ & _ & text & _ & Hg).
    destruct (exec_delay_shape text g Hg) as (ip & fp & Hi & Hn & Hf & Heq).
    assert (Hc : is_nat (Num.ceil (Num.mul (parseFloat g) (of_Z 1000))) = true \/
                 Num.ceil (Num.mul (parseFloat g) (of_Z 1000)) = Inf false).
    { rewrite Heq, (parseFloat_decimal ip fp Hi Hn Hf).
      apply ceil_nonneg, mul_1000_nonneg, of_decimal_nonneg. }
    destruct Hc as [Hc | Hc]; [left; exact Hc | right].
    split; [exact Hc|].
    exists m, v, ds, d, g. repeat split; try assumption; try apply Hd.
    apply ceil_infinite. exact Hc.
  - intros e E. unfold parseRetryMs. rewrite E. reflexivity.
  - apply no_delay_zero.
Qed.

(** [parseRetryMs_total] on [null]: nothing is found and the delay is 0. *)
Lemma parseRetryMs_total_witness : parseRetryMs VNull = of_Z 0.
Proof.
  apply (proj2 (proj2 (parseRetryMs_total VNull))).
  intros (m & v & ds & d & g & Hm & _). discriminate Hm.
Defined.

End RetryFacts.

(** ** The resilient invoker *)

Module InvokerFacts.

Import Num JS Eff Quota Actions QuotaFacts Prompts PromptFacts.

Section Backend.

Variable backend : trace -> string -> result value.

(** The line that [console.warn] prints when the quota is hit. *)
Definition quota_warning (err : value) : event :=
  Console LWarn ("Quota hit for " ++ preferredModel ++ ". Waiting "
                 ++ Num.to_string (parseRetryMs err)
                 ++ "ms (if provided) then trying fallback model "
                 ++ fallbackModel ++ ".").

Definition both_failed : event :=
  Console LError ("Both preferred model (" ++ preferredModel
                  ++ ") and fallback model (" ++ fallbackModel ++ ") failed.").

(** The suspension: for the suggested delay, or none at all. *)
Definition suspension (err : value) : trace :=
  if gt0 (parseRetryMs err) then [Sleep (parseRetryMs err)] else [].

(** What has happened when the fallback model is asked. *)
Definition before_fallback (err : value) : trace :=
  ([Generate preferredModel; quota_warning err] ++ suspension err)%list.

Lemma primary_ok (tr : trace) (r : value) :
  backend tr preferredModel = Ok r ->
  generate_with_fallback backend tr = (Ok r, (tr ++ [Generate preferredModel])%list).
Proof.
  intros H. unfold generate_with_fallback, catch, attemptGenerate, generateContent.
  rewrite H. reflexivity.
Qed.

Lemma primary_fatal (tr : trace) (err : value) :
  backend tr preferredModel = Throw err ->
  isQuotaError err = Ok false ->
  generate_with_fallback backend tr
  = (Throw err, (tr ++ [Generate preferredModel])%list).
Proof.
  intros H Hq. unfold generate_with_fallback, catch, attemptGenerate, generateContent.
  rewrite H. unfold bindM, lift. rewrite Hq. reflexivity.
Qed.

Lemma primary_quota (tr : trace) (err : value) :
  backend tr preferredModel = Throw err ->
  isQuotaError err = Ok true ->
  generate_with_fallback backend tr
  = match backend (tr ++ before_fallback err)%list fallbackModel with
    | Ok r => (Ok r, (tr ++ before_fallback err ++ [Generate fallbackModel])%list)
    | Throw err2 =>
        (Throw err2,
         (tr ++ before_fallback err ++ [Generate fallbackModel; both_failed])%list)
    end.
Proof.
  intros H Hq. unfold generate_with_fallback, catch, attemptGenerate, generateContent.
  rewrite H. unfold bindM, lift. rewrite Hq.
  unfold console, emit, before_fallback, suspension, quota_warning, both_failed, ret, throw.
  destruct (gt0 (parseRetryMs err)); cbn [app];
    rewrite <- !app_assoc; cbn [app];
    match goal with
    | |- context [backend ?t fallbackModel] => destruct (backend t fallbackModel)
    end; rewrite <- ?app_assoc; reflexivity.
Qed.

Lemma isQuotaError_total (err : value) :
  isQuotaError err = Ok true \/ isQuotaError err = Ok false.
Proof.
  destruct (isQuotaError_returns err) as ([|] & H); auto.
Qed.

(** C6.  When the primary invocation fails with an error that is not
    classified as rate-limited, the invoker throws that very error at once:
    the request ends after the one invocation of the preferred model, the
    fallback model is not invoked.  ([generateCoverLetter], for a request
    whose prompt can be written, then reports the failure to its caller under
    its own message, still without a second invocation.) *)
Theorem non_quota_error_propagates (tr : trace) (err : value) :
  backend tr preferredModel = Throw err ->
  isQuotaError err = Ok false ->
  generate_with_fallback backend tr
  = (Throw err, (tr ++ [Generate preferredModel])%list) /\
  invocations (snd (generate_with_fallback backend tr))
  = (invocations tr ++ [Generate preferredModel])%list /\
  forall db userId user data,
    truthy userId = true -> truthy user = true -> letter_prompt_ok data user ->
    generateCoverLetter backend db userId user data tr
    = (Throw (Error "Failed to generate cover letter"),
       (tr ++ [Generate preferredModel; Console LError "Error generating cover letter:"])%list).
Proof.
  intros H Hq. pose proof (primary_fatal tr err H Hq) as E.
  split; [exact E|]. split.
  - rewrite E. unfold invocations. cbn [snd]. rewrite filter_app. reflexivity.
  - intros db userId user data Hu Hv Hp.
    rewrite (generateCoverLetter_try backend db userId user data tr Hu Hv Hp).
    unfold catch, bindM. rewrite E.
    unfold console, emit, throw. rewrite <- app_assoc. reflexivity.
Qed.

Lemma invocations_before_fallback (err : value) :
  invocations (before_fallback err) = [Generate preferredModel].
Proof.
  unfold before_fallback, suspension.
  destruct (gt0 (parseRetryMs err)); reflexivity.
Qed.

(** C7.  A request makes one invocation, of the preferred model, or two,
    the second of the fallback model; it makes the second exactly when the
    first fails with an error classified as rate-limited.  The events of the
    request are then: the first invocation, the warning, a suspension for the
    extracted delay if that is positive and none otherwise, and the one
    invocation of the fallback model, followed by nothing but the report of
    its failure if it fails.  There is no loop. *)
Theorem at_most_two_invocations (tr : trace) :
  exists new,
    snd (generate_with_fallback backend tr) = (tr ++ new)%list /\
    (invocations new = [Generate preferredModel] \/
     invocations new = [Generate preferredModel; Generate fallbackModel]) /\
    (invocations new = [Generate preferredModel; Generate fallbackModel] <->
     exists err, backend tr preferredModel = Throw err /\ isQuotaError err = Ok true) /\
    (forall err,
        backend tr preferredModel = Throw err -> isQuotaError err = Ok true ->
        exists tail,
          new = (before_fallback err ++ Generate fallbackModel :: tail)%list /\
          (tail = [] \/ tail = [both_failed])).
Proof.
  destruct (backend tr preferredModel) as [r | err] eqn:H.
  - exists [Generate preferredModel]. rewrite (primary_ok tr r H).
    split; [reflexivity|]. split; [left; reflexivity|]. split.
    + split; [discriminate | intros (err & He & _); discriminate He].
    + intros err He. discriminate He.
  - destruct (isQuotaError_total err) as [Hq | Hq].
    + rewrite (primary_quota tr err H Hq).
      destruct (backend (tr ++ before_fallback err)%list fallbackModel) as [r | err2].
      * exists (before_fallback err ++ [Generate fallbackModel])%list.
        split; [reflexivity|].
        assert (Hi : invocations (before_fallback err ++ [Generate fallbackModel])%list
                     = [Generate preferredModel; Generate fallbackModel]).
        { unfold invocations. rewrite filter_app.
          fold (invocations (before_fallback err)).
          rewrite invocations_before_fallback. reflexivity. }
        split; [right; exact Hi|]. split.
        -- split; [intros _; exists err; split; [reflexivity | exact Hq] | intros _; exact Hi].
        -- intros err' [= <-] _. exists []. split; [reflexivity | left; reflexivity].
      * exists (before_fallback err ++ [Generate fallbackModel; both_failed])%list.
        split; [reflexivity|].
        assert (Hi : invocations
                       (before_fallback err ++ [Generate fallbackModel; both_failed])%list
                     = [Generate preferredModel; Generate fallbackModel]).
        { unfold invocations. rewrite filter_app.
          fold (invocations (before_fallback err)).
          rewrite invocations_before_fallback. reflexivity. }
        split; [right; exact Hi|]. split.
        -- split; [intros _; exists err; split; [reflexivity | exact Hq] | intros _; exact Hi].
        -- intros err' [= <-] _. exists [both_failed].
           split; [reflexivity | right; reflexivity].
    + exists [Generate preferredModel]. rewrite (primary_fatal tr err H Hq).
      split; [reflexivity|]. split; [left; reflexivity|]. split.
      * split; [discriminate|].
        intros (err' & [= <-] & Hq'). rewrite Hq in Hq'. discriminate Hq'.
      * intros err' [= <-] Hq'. rewrite Hq in Hq'. discriminate Hq'.
Qed.

(** C8.  When the primary invocation failed rate-limited and the
    invocation of the fallback model fails as well, the invoker throws the
    error of the fallback, the second one; the first error is not what the
    caller gets. *)
Theorem fallback_error_surfaces (tr : trace) (err err2 : value) :
  backend tr preferredModel = Throw err ->
  isQuotaError err = Ok true ->
  backend (tr ++ before_fallback err)%list fallbackModel = Throw err2 ->
  generate_with_fallback backend tr
  = (Throw err2,
     (tr ++ before_fallback err ++ [Generate fallbackModel; both_failed])%list).
Proof.
  intros H Hq H2. rewrite (primary_quota tr err H Hq), H2. reflexivity.
Qed.

(** A backend that answers every request with a server error. *)
Definition always_500 (tr : trace) (modelName : string) : result value :=
  Throw (VObj [("status", VNum (of_Z 500)); ("message", VStr "Internal error")]).

End Backend.

(** Scenario B of the specification through [non_quota_error_propagates]:
    a 500 from the preferred model ends the request. *)
Lemma non_quota_error_propagates_witness :
  generate_with_fallback always_500 []
  = (Throw (VObj [("status", VNum (of_Z 500)); ("message", VStr "Internal error")]),
     [Generate preferredModel]).
Proof.
  exact (proj1 (non_quota_error_propagates always_500 []
                  (VObj [("status", VNum (of_Z 500)); ("message", VStr "Internal error")])
                  eq_refl eq_refl)).
Defined.

(** The error of a spent quota, with a delay of two seconds. *)
Definition quota_429 : value :=
  VObj [("status", VNum (of_Z 429)); ("message", VStr (RetryFacts.retry_message "2s"))].

(** Scenario A of the specification: the preferred model is out of quota,
    the fallback model answers. *)
Definition quota_then_result (tr : trace) (modelName : string) : result value :=
  if String.eqb modelName preferredModel then Throw quota_429
  else Ok (VObj [("text", VStr "RESULT")]).

(** Scenario A through [at_most_two_invocations]: the warning, two
    seconds of suspension, and the one invocation of the fallback model. *)
Lemma at_most_two_invocations_witness :
  exists tail,
    snd (generate_with_fallback quota_then_result [])
    = ([Generate preferredModel; quota_warning quota_429; Sleep (of_Z 2000)]
       ++ Generate fallbackModel :: tail)%list.
Proof.
  destruct (at_most_two_invocations quota_then_result []) as (new & Hsnd & _ & _ & H4).
  destruct (H4 quota_429 eq_refl eq_refl) as (tail & -> & _).
  exists tail. exact Hsnd.
Defined.

(** A backend out of quota for the preferred model and out of service
    for the fallback model. *)
Definition quota_then_503 (tr : trace) (modelName : string) : result value :=
  if String.eqb modelName preferredModel then Throw quota_429
  else Throw (VObj [("status", VNum (of_Z 503)); ("message", VStr "Unavailable")]).

(** [fallback_error_surfaces] on it: the caller gets the 503. *)
Lemma fallback_error_surfaces_witness :
  fst (generate_with_fallback quota_then_503 [])
  = Throw (VObj [("status", VNum (of_Z 503)); ("message", VStr "Unavailable")]).
Proof.
  exact (f_equal fst
           (fallback_error_surfaces quota_then_503 [] quota_429
              (VObj [("status", VNum (of_Z 503)); ("message", VStr "Unavailable")])
              eq_refl eq_refl eq_refl)).
Defined.

End InvokerFacts.

(** ** Failures of the actions *)

Module ActionFacts.

Import Num JS Json Eff Quota Actions JsonFacts ExtractFacts Prompts PromptFacts.

Section Collaborators.

Variable backend : trace -> string -> result value.
Variable db : trace -> string -> value -> result value.

Definition pro : string := "gemini-2.5-pro".

(** The three ways in which a generation by the [pro] model fails, as the
    specification names them; [clean] is the cleaning of the action. *)
Inductive generation_failure (clean : string -> string) (tr : trace) : value -> Prop :=
| BackendError (e : value) :
    backend tr pro = Throw e ->
    generation_failure clean tr e
| MalformedResponse (r e : value) :
    backend tr pro = Ok r ->
    fst (extractText r (tr ++ [Generate pro])%list) = Throw e ->
    generation_failure clean tr e
| InvalidJson (r : value) (text : string) :
    backend tr pro = Ok r ->
    fst (extractText r (tr ++ [Generate pro])%list) = Ok text ->
    ~ valid_json (clean text) ->
    generation_failure clean tr SyntaxError.

Lemma generateContent_eq (m : string) (tr : trace) :
  generateContent backend m tr = (backend tr m, (tr ++ [Generate m])%list).
Proof. reflexivity. Qed.

Lemma extractText_throw (r : value) (tr : trace) (e : value) :
  fst (extractText r tr) = Throw e ->
  exists tr', extractText r tr = (Throw e, tr').
Proof.
  intros H. destruct (extractText r tr) as [x tr'] eqn:E.
  simpl in H. subst x. eauto.
Qed.

(** A failed generation makes [generateAIInsights] throw the error of the
    failure. *)
Lemma insights_failure (tr : trace) (e industry : value) :
  printable industry ->
  generation_failure cleanedText tr e ->
  fst (generateAIInsights backend industry tr) = Throw e.
Proof.
  intros Hp. rewrite (generateAIInsights_try backend industry tr Hp).
  unfold bindM. rewrite generateContent_eq.
  intros [e' H | r e' H He | r text H Ht Hj]; unfold pro in *; rewrite H.
  - reflexivity.
  - destruct (extractText_throw _ _ _ He) as (tr' & ->). reflexivity.
  - rewrite (extractText_pure _ _ _ Ht). unfold lift.
    rewrite (invalid_json_throws _ Hj). reflexivity.
Qed.

Lemma get_strict_object (item : value) (k : string) :
  item <> VUndef -> item <> VNull -> get_strict item k = Ok (get item k).
Proof. intros Hu Hn. destruct item; try reflexivity; congruence. Qed.

(** C3.  When the text extracted from the answer of the backend is not
    syntactically valid JSON once cleaned, the call fails: [generateAIInsights]
    and the Inngest job throw the [SyntaxError] of [JSON.parse], [generateQuiz]
    its own error; no value is returned, and the failure is terminal: the one
    invocation of the backend is the last event of the request, but for the
    line [generateQuiz] prints; nothing is repaired, nothing is written, no
    further invocation follows.  (The calls are those whose prompt can be
    written, which is what brings them to the backend.) *)
Theorem invalid_json_is_terminal (tr : trace) (r : value) (text : string) :
  backend tr pro = Ok r ->
  fst (extractText r (tr ++ [Generate pro])%list) = Ok text ->
  (~ valid_json (cleanedText text) ->
   forall industry, printable industry ->
     generateAIInsights backend industry tr
     = (Throw SyntaxError, (tr ++ [Generate pro])%list)) /\
  (~ valid_json (cleanedText text) ->
   forall item rest, item <> VUndef -> item <> VNull ->
     printable (get item "industry") ->
     generateIndustryInsights backend db (item :: rest) tr
     = (Throw SyntaxError, (tr ++ [Generate pro])%list)) /\
  (~ valid_json (cleaned text) ->
   forall userId user, truthy userId = true -> truthy user = true ->
     quiz_prompt_ok user ->
     generateQuiz backend userId user tr
     = (Throw (Error "Failed to generate quiz questions"),
        (tr ++ [Generate pro; Console LError "Error generating quiz:"])%list)).
Proof.
  intros H Ht. unfold pro in *. repeat split.
  - intros Hj industry Hp. rewrite (generateAIInsights_try backend industry tr Hp).
    unfold bindM. rewrite generateContent_eq, H.
    rewrite (extractText_pure _ _ _ Ht). unfold lift.
    rewrite (invalid_json_throws _ Hj). reflexivity.
  - intros Hj item rest Hu Hn (s & Hp).
    unfold generateIndustryInsights. cbn [industry_loop].
    unfold bindM, lift. rewrite (get_strict_object item "industry" Hu Hn), Hp.
    rewrite generateContent_eq, H.
    rewrite (extractText_pure _ _ _ Ht).
    rewrite (invalid_json_throws _ Hj). reflexivity.
  - intros Hj userId user Hu Hv Hp.
    rewrite (generateQuiz_try backend userId user tr Hu Hv Hp).
    unfold catch, bindM. rewrite generateContent_eq, H.
    rewrite (extractText_pure _ _ _ Ht). unfold lift.
    rewrite (invalid_json_throws _ Hj).
    unfold console, emit, throw. rewrite <- app_assoc. reflexivity.
Qed.

(** A failed generation of the cover letter: the invoker throws (a
    [BackendError]), or its answer has none of the known shapes (a
    [MalformedResponse]). *)
Inductive letter_failure (tr : trace) : Prop :=
| LetterBackend (e : value) :
    fst (generate_with_fallback backend tr) = Throw e ->
    letter_failure tr
| LetterMalformed (r e : value) (tr' : trace) :
    generate_with_fallback backend tr = (Ok r, tr') ->
    fst (extractText r tr') = Throw e ->
    letter_failure tr.

(** A failed generation of the improvement tip. *)
Inductive tip_failure (tr : trace) : Prop :=
| TipBackend (e : value) :
    backend tr pro = Throw e ->
    tip_failure tr
| TipMalformed (r e : value) :
    backend tr pro = Ok r ->
    fst (extractText r (tr ++ [Generate pro])%list) = Throw e ->
    tip_failure tr.

(** The record that [saveQuizResult] writes. *)
Definition assessment (user score : value) (results : list value) (tip : value) : value :=
  VObj [("userId", get user "id");
        ("quizScore", score);
        ("questions", VArr results);
        ("category", VStr "Technical");
        ("improvementTip", tip)].

Lemma quiz_failure (tr : trace) (e userId user : value) :
  truthy userId = true -> truthy user = true -> quiz_prompt_ok user ->
  generation_failure cleaned tr e ->
  fst (generateQuiz backend userId user tr)
  = Throw (Error "Failed to generate quiz questions").
Proof.
  intros Hu Hv Hp HF. rewrite (generateQuiz_try backend userId user tr Hu Hv Hp).
  unfold catch, bindM. rewrite generateContent_eq.
  destruct HF as [e' H | r e' H He | r text H Ht Hj]; unfold pro in *; rewrite H.
  - reflexivity.
  - destruct (extractText_throw _ _ _ He) as (tr' & ->). reflexivity.
  - rewrite (extractText_pure _ _ _ Ht). unfold lift.
    rewrite (invalid_json_throws _ Hj). reflexivity.
Qed.

Lemma letter_failure_thrown (tr : trace) (userId user data : value) :
  truthy userId = true -> truthy user = true -> letter_prompt_ok data user ->
  letter_failure tr ->
  fst (generateCoverLetter backend db userId user data tr)
  = Throw (Error "Failed to generate cover letter").
Proof.
  intros Hu Hv Hp HF.
  rewrite (generateCoverLetter_try backend db userId user data tr Hu Hv Hp).
  unfold catch at 1. unfold bindM at 1.
  destruct HF as [e H | r e tr' H He].
  - destruct (generate_with_fallback backend tr) as [x tr'].
    simpl in H. subst x. reflexivity.
  - rewrite H.
    pose proof (extractContent_throw r tr' e He) as Hc.
    unfold bindM. destruct (extractContent r tr') as [x tr''].
    simpl in Hc. subst x. reflexivity.
Qed.

Lemma tip_failure_swallowed (tr : trace) :
  tip_failure tr ->
  exists tr2,
    catch (bindM (generateContent backend pro) (fun tipResult =>
           bindM (extractText tipResult) (fun tipText =>
           ret (VStr (Str.trim tipText)))))
          (fun _ => bindM (console LError "Error generating improvement tip:")
                          (fun _ => ret VNull)) tr
    = (Ok VNull, tr2).
Proof.
  intros [e H | r e H He]; unfold catch, bindM; rewrite generateContent_eq, H.
  - eexists. reflexivity.
  - destruct (extractText_throw _ _ _ He) as (tr' & ->). eexists. reflexivity.
Qed.

(** C9.  Every failed generation - a [BackendError], a
    [MalformedResponse], an [InvalidJson] - makes the action that asked for it
    fail towards its caller: [generateAIInsights], its caller
    [getIndustryInsights] and the Inngest job throw the error itself,
    [generateQuiz] and [generateCoverLetter] throw their own error in its
    place.  The one exception is the improvement tip of [saveQuizResult]: when
    its generation fails, the error is logged, the tip stays [null], and the
    result is that of writing the assessment.  (The calls are those whose
    prompt can be written, which is what brings them to the generation; the
    answers of the quiz are an array.) *)
Theorem failures_reach_the_caller (tr : trace) (userId user : value) :
  truthy userId = true -> truthy user = true ->
  (forall e, generation_failure cleanedText tr e ->
     (forall industry, printable industry ->
        fst (generateAIInsights backend industry tr) = Throw e) /\
     (truthy (get user "industryInsight") = false ->
      printable (get user "industry") ->
      fst (getIndustryInsights backend db userId user tr) = Throw e) /\
     (forall item rest, item <> VUndef -> item <> VNull ->
        printable (get item "industry") ->
        fst (generateIndustryInsights backend db (item :: rest) tr) = Throw e)) /\
  (forall e, quiz_prompt_ok user -> generation_failure cleaned tr e ->
     fst (generateQuiz backend userId user tr)
     = Throw (Error "Failed to generate quiz questions")) /\
  (forall data, letter_prompt_ok data user -> letter_failure tr ->
     fst (generateCoverLetter backend db userId user data tr)
     = Throw (Error "Failed to generate cover letter")) /\
  (forall questions answers score results,
     questionResults questions (VArr answers) 0 = Ok results ->
     filter (fun q => negb (isCorrect q)) results <> [] ->
     tip_prompt_ok results ->
     tip_failure tr ->
     exists tr2,
       fst (saveQuizResult backend db userId user (VArr questions) (VArr answers) score tr)
       = match db tr2 "assessment" (assessment user score results VNull) with
         | Ok a => Ok a
         | Throw _ => Throw (Error "Failed to save quiz result")
         end).
Proof.
  intros Hu Hv. split; [|split; [|split]].
  - intros e HF.
    split; [intros industry Hp; exact (insights_failure tr e industry Hp HF)|].
    split.
    + intros Hn Hp. pose proof (insights_failure tr e _ Hp HF) as Hi.
      unfold getIndustryInsights. rewrite Hu, Hv, Hn. cbn [negb].
      unfold bindM at 1.
      destruct (generateAIInsights backend (get user "industry") tr) as [x tr'].
      simpl in Hi. subst x. reflexivity.
    + intros item rest Hundef Hnull Hp.
      pose proof (insights_failure tr e _ Hp HF) as Hi.
      rewrite (generateAIInsights_try backend _ tr Hp) in Hi.
      destruct Hp as (s & Hp).
      unfold generateIndustryInsights. cbn [industry_loop].
      unfold bindM at 1. unfold lift at 1.
      rewrite (get_strict_object item "industry" Hundef Hnull).
      unfold bindM at 1. unfold lift at 1. rewrite Hp.
      revert Hi. unfold bindM.
      destruct (generateContent backend "gemini-2.5-pro" tr) as [[res | e0] tr1];
        [|exact (fun H => H)].
      destruct (extractText res tr1) as [[text | e1] tr2]; [|exact (fun H => H)].
      unfold lift. destruct (JSON_parse (cleanedText text)); [discriminate|].
      exact (fun H => H).
  - intros e Hp HF. exact (quiz_failure tr e userId user Hu Hv Hp HF).
  - intros data Hp HF. exact (letter_failure_thrown tr userId user data Hu Hv Hp HF).
  - intros questions answers score results Hres Hwrong Hp HF.
    destruct (tip_failure_swallowed tr HF) as (tr2 & Htip).
    exists tr2. unfold saveQuizResult. rewrite Hu, Hv. cbn [negb].
    unfold bindM at 1. unfold lift at 1. rewrite Hres.
    pose proof (tip_lines_ok results Hp) as Hlines.
    destruct (filter (fun q => negb (isCorrect q)) results) as [|w ws] eqn:Hf;
      [contradiction|].
    cbn [List.length Nat.ltb Nat.leb].
    unfold bindM at 1. unfold bindM at 1. unfold lift at 1. rewrite Hlines.
    unfold pro in Htip. rewrite Htip.
    unfold catch, db_write, assessment.
    destruct (db tr2 "assessment" _); reflexivity.
Qed.

End Collaborators.

(** A backend whose answer is a direct text that is no JSON. *)
Definition chatty (tr : trace) (modelName : string) : result value :=
  Ok (VObj [("text", VStr "Sure, here it is")]).

(** [invalid_json_is_terminal] on it. *)
Lemma invalid_json_is_terminal_witness :
  generateAIInsights chatty (VStr "tech") [] = (Throw SyntaxError, [Generate pro]).
Proof.
  refine (proj1 (invalid_json_is_terminal chatty (fun _ _ _ => Ok VNull) []
                   (VObj [("text", VStr "Sure, here it is")]) "Sure, here it is"
                   eq_refl eq_refl) _ (VStr "tech") _).
  - intros (v & Hv). discriminate Hv.
  - exists "tech". reflexivity.
Defined.

(** A database that stores what it is given. *)
Definition db_ok (tr : trace) (table : string) (data : value) : result value := Ok data.

Definition one_question : value :=
  VObj [("question", VStr "What is a closure?"); ("correctAnswer", VStr "a")].

Definition one_result : value :=
  VObj [("question", VStr "What is a closure?"); ("answer", VStr "a");
        ("userAnswer", VStr "b"); ("isCorrect", VBool false); ("explanation", VUndef)].

Lemma one_result_prompt : tip_prompt_ok [one_result].
Proof.
  constructor; [|constructor].
  repeat split; eexists; reflexivity.
Defined.

(** [failures_reach_the_caller] on a wrong answer and a backend that is
    down: the assessment is saved, with no tip. *)
Lemma failures_reach_the_caller_witness :
  fst (saveQuizResult InvokerFacts.always_500 db_ok (VStr "user_1")
         (VObj [("id", VStr "7")]) (VArr [one_question]) (VArr [VStr "b"])
         (VNum (of_Z 0)) [])
  = Ok (assessment (VObj [("id", VStr "7")]) (VNum (of_Z 0)) [one_result] VNull).
Proof.
  destruct (proj2 (proj2 (proj2
              (failures_reach_the_caller InvokerFacts.always_500 db_ok []
                 (VStr "user_1") (VObj [("id", VStr "7")]) eq_refl eq_refl)))
              [one_question] [VStr "b"] (VNum (of_Z 0)) [one_result]
              eq_refl ltac:(discriminate) one_result_prompt
              (TipBackend InvokerFacts.always_500 [] _ eq_refl))
    as (tr2 & H).
  exact H.
Defined.

End ActionFacts.

(** ** Cleaning a text of its fences *)

Module CleanFacts.

Import Str JS Json Regex Actions StrFacts FenceFacts JsonFacts JsonTrim.

(** *** [trim] is a projection *)

Lemma trimStart_length (n : nat) :
  forall s, (String.length s <= n)%nat ->
            (String.length (trimStart s) <= String.length s)%nat.
Proof.
  induction n as [|n IH]; intros s Hlen.
  - destruct s; [simpl; lia | simpl in Hlen; lia].
  - destruct s as [|c1 r1]; [simpl; lia|].
    rewrite trimStart_eq. simpl in Hlen.
    destruct (ws1 c1).
    { specialize (IH r1 ltac:(lia)). simpl. lia. }
    destruct r1 as [|c2 r2]; [lia|].
    destruct (ws2 c1 c2).
    { simpl in Hlen. specialize (IH r2 ltac:(lia)). simpl. lia. }
    destruct r2 as [|c3 r3]; [lia|].
    destruct (ws3 c1 c2 c3); [|lia].
    simpl in Hlen. specialize (IH r3 ltac:(lia)). simpl. lia.
Qed.

(** A text that [trimStart] leaves alone starts with no white space. *)
Lemma trimStart_fixed (c1 : ascii) (r1 : string) :
  trimStart (String c1 r1) = String c1 r1 ->
  ws1 c1 = false /\
  match r1 with
  | EmptyString => True
  | String c2 r2 =>
      ws2 c1 c2 = false /\
      match r2 with
      | EmptyString => True
      | String c3 _ => ws3 c1 c2 c3 = false
      end
  end.
Proof.
  rewrite trimStart_eq. intros H.
  assert (L : forall s, (String.length (trimStart s) <= String.length s)%nat).
  { intros s. apply (trimStart_length (String.length s)). lia. }
  destruct (ws1 c1).
  { pose proof (L r1) as Hl. rewrite H in Hl. simpl in Hl. lia. }
  split; [reflexivity|].
  destruct r1 as [|c2 r2]; [exact I|].
  destruct (ws2 c1 c2).
  { pose proof (L r2) as Hl. rewrite H in Hl. simpl in Hl. lia. }
  split; [reflexivity|].
  destruct r2 as [|c3 r3]; [exact I|].
  destruct (ws3 c1 c2 c3); [|reflexivity].
  pose proof (L r3) as Hl. rewrite H in Hl. simpl in Hl. lia.
Qed.

Lemma trimStart_idem_aux (n : nat) :
  forall s, (String.length s <= n)%nat -> trimStart (trimStart s) = trimStart s.
Proof.
  induction n as [|n IH]; intros s Hlen.
  - destruct s; [reflexivity | simpl in Hlen; lia].
  - destruct s as [|c1 r1]; [reflexivity|]. simpl in Hlen.
    rewrite (trimStart_eq c1 r1).
    destruct (ws1 c1) eqn:H1; [apply IH; lia|].
    destruct r1 as [|c2 r2].
    { rewrite trimStart_eq, H1. reflexivity. }
    destruct (ws2 c1 c2) eqn:H2; [apply IH; simpl in Hlen; lia|].
    destruct r2 as [|c3 r3].
    { rewrite trimStart_eq, H1, H2. reflexivity. }
    destruct (ws3 c1 c2 c3) eqn:H3; [apply IH; simpl in Hlen; lia|].
    rewrite trimStart_eq, H1, H2, H3. reflexivity.
Qed.

Lemma trimStart_idem (s : string) : trimStart (trimStart s) = trimStart s.
Proof. apply (trimStart_idem_aux (String.length s)). lia. Qed.

Lemma trimEnd_cons (c : ascii) (r : string) :
  trimEnd (String c r)
  = if isEmpty (trimStart (String c r)) then EmptyString else String c (trimEnd r).
Proof. reflexivity. Qed.

(** What [trimEnd] removes is white space. *)
Lemma trimEnd_split (s : string) :
  exists w, s = trimEnd s ++ w /\ trimStart w = EmptyString.
Proof.
  induction s as [|c r (w & Hr & Hw)]; [exists EmptyString; split; reflexivity|].
  rewrite trimEnd_cons.
  destruct (trimStart (String c r)) eqn:E; cbv [isEmpty].
  - exists (String c r). split; [reflexivity | exact E].
  - exists w. split; [simpl; now rewrite <- Hr | exact Hw].
Qed.

Lemma trimStart_app_blank_aux (w : string) (n : nat) :
  forall p, (String.length p <= n)%nat ->
            trimStart p = EmptyString -> trimStart (p ++ w) = trimStart w.
Proof.
  induction n as [|n IH]; intros p Hlen Hp.
  - destruct p; [reflexivity | simpl in Hlen; lia].
  - destruct p as [|c1 r1]; [reflexivity|]. simpl in Hlen.
    change ((String c1 r1) ++ w) with (String c1 (r1 ++ w)).
    rewrite trimStart_eq in Hp. rewrite trimStart_eq.
    destruct (ws1 c1); [apply IH; [lia | exact Hp]|].
    destruct r1 as [|c2 r2]; [discriminate Hp|].
    change ((String c2 r2) ++ w) with (String c2 (r2 ++ w)). cbv iota.
    destruct (ws2 c1 c2); [apply IH; [simpl in Hlen; lia | exact Hp]|].
    destruct r2 as [|c3 r3]; [discriminate Hp|].
    change ((String c3 r3) ++ w) with (String c3 (r3 ++ w)). cbv iota.
    destruct (ws3 c1 c2 c3); [apply IH; [simpl in Hlen; lia | exact Hp]|].
    discriminate Hp.
Qed.

(** A text that is not all white space has a trimmed end that is not. *)
Lemma trimEnd_not_blank (s : string) :
  isEmpty (trimStart s) = false -> isEmpty (trimStart (trimEnd s)) = false.
Proof.
  intros H. destruct (trimStart (trimEnd s)) eqn:E; [|reflexivity].
  destruct (trimEnd_split s) as (w & Hs & Hw).
  rewrite Hs in H.
  rewrite (trimStart_app_blank_aux w (String.length (trimEnd s)) _ (le_n _) E), Hw in H.
  discriminate H.
Qed.

Lemma trimEnd_idem (s : string) : trimEnd (trimEnd s) = trimEnd s.
Proof.
  induction s as [|c r IH]; [reflexivity|].
  rewrite trimEnd_cons.
  destruct (isEmpty (trimStart (String c r))) eqn:E; [reflexivity|].
  pose proof (trimEnd_not_blank _ E) as E'.
  rewrite trimEnd_cons, E in E'.
  rewrite trimEnd_cons, E', IH. reflexivity.
Qed.

Lemma trimEnd_inv (s : string) (c : ascii) (t : string) :
  trimEnd s = String c t -> exists r, s = String c r /\ t = trimEnd r.
Proof.
  destruct s as [|x r]; [discriminate|]. rewrite trimEnd_cons.
  destruct (isEmpty (trimStart (String x r))); [discriminate|].
  intros [= -> <-]. eauto.
Qed.

(** Trimming the end brings no white space to the start. *)
Lemma trimStart_trimEnd (y : string) :
  trimStart y = y -> trimStart (trimEnd y) = trimEnd y.
Proof.
  intros Hy. destruct (trimEnd y) as [|c1 t1] eqn:E; [reflexivity|].
  destruct (trimEnd_inv _ _ _ E) as (r1 & -> & ->).
  destruct (trimStart_fixed _ _ Hy) as (H1 & H).
  rewrite trimStart_eq, H1.
  destruct (trimEnd r1) as [|c2 t2] eqn:E1; [reflexivity|].
  destruct (trimEnd_inv _ _ _ E1) as (r2 & -> & ->).
  destruct H as (H2 & H). rewrite H2.
  destruct (trimEnd r2) as [|c3 t3] eqn:E2; [reflexivity|].
  destruct (trimEnd_inv _ _ _ E2) as (r3 & -> & ->).
  rewrite H. reflexivity.
Qed.

Lemma trim_idem (s : string) : trim (trim s) = trim s.
Proof.
  unfold trim.
  rewrite (trimStart_trimEnd (trimStart s) (trimStart_idem s)).
  apply trimEnd_idem.
Qed.


(** *** What the replacement leaves *)

Section Removal.

(** An expression that matches at the head of a text exactly when a fence
    stands there. *)
Variable f : string -> option nat.
Hypothesis f_match :
  forall s, String.prefix fence s = true -> exists n, f s = Some (S n).
Hypothesis f_none : forall s, String.prefix fence s = false -> f s = None.

Lemma remove_all_skip (k : nat) :
  forall s, remove_all f k s = remove_all f 0 (drop k s).
Proof.
  induction k as [|k IH]; intros s.
  - destruct s; reflexivity.
  - destruct s as [|c r]; [reflexivity|]. simpl drop. rewrite <- IH. reflexivity.
Qed.

Lemma remove_all_unmatched (c : ascii) (r : string) :
  String.prefix fence (String c r) = false ->
  remove_all f 0 (String c r) = String c (remove_all f 0 r).
Proof.
  intros H. cbn [remove_all]. rewrite (f_none _ H). reflexivity.
Qed.

Lemma remove_all_matched (c : ascii) (r : string) :
  String.prefix fence (String c r) = true ->
  exists n, remove_all f 0 (String c r) = remove_all f 0 (drop n r).
Proof.
  intros H. destruct (f_match _ H) as (n & Hn). exists n.
  cbn [remove_all]. rewrite Hn. apply remove_all_skip.
Qed.

Lemma drop_length (n : nat) :
  forall s, (String.length (drop n s) <= String.length s)%nat.
Proof.
  induction n as [|n IH]; intros s; [destruct s; simpl; lia|].
  destruct s as [|c r]; [simpl; lia|]. simpl. specialize (IH r). lia.
Qed.

(** No backtick at the head of the text, none at the head of the result;
    no two, no two. *)
Lemma remove_all_head1 (s : string) :
  String.prefix "`" s = false -> String.prefix "`" (remove_all f 0 s) = false.
Proof.
  destruct s as [|c r]; [reflexivity|]. intros H.
  rewrite remove_all_unmatched.
  - rewrite prefix_cons in *. destruct (ascii_dec "`" c); [|reflexivity].
    destruct r; discriminate H.
  - unfold fence. rewrite prefix_cons in *.
    destruct (ascii_dec "`" c); [|reflexivity]. destruct r; discriminate H.
Qed.

Lemma remove_all_head2 (s : string) :
  String.prefix "``" s = false -> String.prefix "``" (remove_all f 0 s) = false.
Proof.
  destruct s as [|c r]; [reflexivity|]. intros H.
  assert (Hf : String.prefix fence (String c r) = false).
  { unfold fence. rewrite prefix_cons in *.
    destruct (ascii_dec "`" c); [|reflexivity].
    destruct r as [|c2 r2]; [reflexivity|]. rewrite prefix_cons in *.
    destruct (ascii_dec "`" c2); [|reflexivity]. destruct r2; discriminate H. }
  rewrite (remove_all_unmatched c r Hf).
  rewrite prefix_cons in *. destruct (ascii_dec "`" c); [|reflexivity].
  apply remove_all_head1. exact H.
Qed.

Lemma remove_all_head3_aux (n : nat) :
  forall s, (String.length s <= n)%nat ->
            String.prefix fence (remove_all f 0 s) = false.
Proof.
  induction n as [|n IH]; intros s Hlen.
  - destruct s; [reflexivity | simpl in Hlen; lia].
  - destruct s as [|c r]; [reflexivity|]. simpl in Hlen.
    destruct (String.prefix fence (String c r)) eqn:Hf.
    + destruct (remove_all_matched c r Hf) as (k & ->).
      apply IH. pose proof (drop_length k r). lia.
    + rewrite (remove_all_unmatched c r Hf).
      unfold fence in *. rewrite prefix_cons in *.
      destruct (ascii_dec "`" c); [|reflexivity].
      apply remove_all_head2. exact Hf.
Qed.

Lemma remove_all_no_fence_aux (n : nat) :
  forall s, (String.length s <= n)%nat ->
            Str.includes (remove_all f 0 s) fence = false.
Proof.
  induction n as [|n IH]; intros s Hlen.
  - destruct s; [reflexivity | simpl in Hlen; lia].
  - destruct s as [|c r]; [reflexivity|]. simpl in Hlen.
    destruct (String.prefix fence (String c r)) eqn:Hf.
    + destruct (remove_all_matched c r Hf) as (k & ->).
      apply IH. pose proof (drop_length k r). lia.
    + pose proof (remove_all_head3_aux (S n) (String c r) ltac:(simpl; lia)) as H3.
      rewrite (remove_all_unmatched c r Hf) in *.
      cbn [Str.includes]. rewrite H3. apply IH. lia.
Qed.

(** A text with no fence in it is left as it is. *)
Lemma remove_all_id (t : string) :
  Str.includes t fence = false -> remove_all f 0 t = t.
Proof.
  induction t as [|c t IH]; [reflexivity|]. intros H.
  cbn [Str.includes] in H. apply orb_false_elim in H. destruct H as [Hp Hi].
  rewrite (remove_all_unmatched c t Hp), (IH Hi). reflexivity.
Qed.

End Removal.

Lemma fence_json_nl_match (s : string) :
  String.prefix fence s = true -> exists n, fence_json_nl s = Some (S n).
Proof. intros H. unfold fence_json_nl. rewrite H. eexists. reflexivity. Qed.

Lemma fence_or_json_match (s : string) :
  String.prefix fence s = true -> exists n, fence_or_json s = Some (S n).
Proof.
  intros H. unfold fence_or_json. rewrite H.
  destruct (String.prefix "```json" s); eexists; reflexivity.
Qed.

(** *** Substrings of a text without fences *)

Lemma includes_trimStart_aux (x : string) (n : nat) :
  forall s, (String.length s <= n)%nat ->
            Str.includes s x = false -> Str.includes (trimStart s) x = false.
Proof.
  assert (T : forall c r, Str.includes (String c r) x = false -> Str.includes r x = false).
  { intros c r H. cbn [Str.includes] in H. apply orb_false_elim in H. tauto. }
  induction n as [|n IH]; intros s Hlen H.
  - destruct s; [exact H | simpl in Hlen; lia].
  - destruct s as [|c1 r1]; [exact H|]. simpl in Hlen.
    rewrite trimStart_eq.
    destruct (ws1 c1); [apply IH; [lia | exact (T _ _ H)]|].
    destruct r1 as [|c2 r2]; [exact H|].
    destruct (ws2 c1 c2);
      [apply IH; [simpl in Hlen; lia | exact (T _ _ (T _ _ H))]|].
    destruct r2 as [|c3 r3]; [exact H|].
    destruct (ws3 c1 c2 c3); [|exact H].
    apply IH; [simpl in Hlen; lia | exact (T _ _ (T _ _ (T _ _ H)))].
Qed.

Lemma prefix_app_r (x a w : string) :
  String.prefix x a = true -> String.prefix x (a ++ w) = true.
Proof.
  revert a. induction x as [|c x IH]; intros a H; [destruct (a ++ w); reflexivity|].
  destruct a as [|d a]; [discriminate H|].
  change ((String d a) ++ w) with (String d (a ++ w)).
  rewrite prefix_cons in *. destruct (ascii_dec c d); [now apply IH | discriminate H].
Qed.

Lemma includes_app_l (x a w : string) :
  Str.includes (a ++ w) x = false -> Str.includes a x = false.
Proof.
  induction a as [|c a IH]; intros H.
  - simpl in H. cbn [Str.includes]. rewrite orb_false_r.
    destruct (String.prefix x EmptyString) eqn:E; [|reflexivity].
    pose proof (prefix_app_r x EmptyString w E) as E'. simpl in E'.
    destruct w; cbn [Str.includes] in H; rewrite E' in H; discriminate H.
  - change ((String c a) ++ w) with (String c (a ++ w)) in H.
    cbn [Str.includes] in *. apply orb_false_elim in H. destruct H as [Hp Hi].
    rewrite (IH Hi), orb_false_r.
    destruct (String.prefix x (String c a)) eqn:E; [|reflexivity].
    pose proof (prefix_app_r x (String c a) w E) as E'.
    change ((String c a) ++ w) with (String c (a ++ w)) in E'. congruence.
Qed.

Lemma includes_trim (s x : string) :
  Str.includes s x = false -> Str.includes (trim s) x = false.
Proof.
  intros H. unfold trim.
  apply (includes_trimStart_aux x (String.length s) s (le_n _)) in H.
  destruct (trimEnd_split (trimStart s)) as (w & Hs & _).
  rewrite Hs in H. exact (includes_app_l _ _ _ H).
Qed.


(** *** The two cleaning expressions *)

Lemma cleanedText_unfenced (t : string) :
  Str.includes t fence = false -> cleanedText t = trim t.
Proof.
  intros H. unfold cleanedText.
  now rewrite (remove_all_id fence_json_nl fence_json_nl_none t H).
Qed.

Lemma cleaned_unfenced (t : string) :
  Str.includes t fence = false -> cleaned t = trim t.
Proof.
  intros H. unfold cleaned.
  now rewrite (remove_all_id fence_or_json fence_or_json_none t H).
Qed.

Lemma cleanedText_no_fence (t : string) : Str.includes (cleanedText t) fence = false.
Proof.
  apply includes_trim.
  apply (remove_all_no_fence_aux fence_json_nl fence_json_nl_match fence_json_nl_none
           (String.length t)).
  lia.
Qed.

Lemma cleaned_no_fence (t : string) : Str.includes (cleaned t) fence = false.
Proof.
  apply includes_trim.
  apply (remove_all_no_fence_aux fence_or_json fence_or_json_match fence_or_json_none
           (String.length t)).
  lia.
Qed.

(** X1.  Whatever the text, no run of three backticks is left in it once
    it is cleaned, by the expression of [dashboard.js] and of the Inngest job
    as by that of [interview.js]: the markers removed do not bring the
    backticks around them together into a new marker. *)
Theorem no_fence_is_left (text : string) :
  Str.includes (cleanedText text) fence = false /\
  Str.includes (cleaned text) fence = false.
Proof. split; [apply cleanedText_no_fence | apply cleaned_no_fence]. Qed.

(** X2.  On a text with no run of three backticks the cleaning is
    [trim] alone; and when that text is JSON, with white space of any kind
    around it or not, [JSON.parse] of the cleaned text gives the value that
    [JSON.parse] of the text gives. *)
Theorem unfenced_text_is_parsed_as_is (t : string) :
  Str.includes t fence = false ->
  cleanedText t = trim t /\
  cleaned t = trim t /\
  (forall v, JSON_parse t = Ok v ->
             JSON_parse (cleanedText t) = Ok v /\ JSON_parse (cleaned t) = Ok v).
Proof.
  intros H. rewrite (cleanedText_unfenced t H), (cleaned_unfenced t H).
  repeat split; now apply JSON_parse_trim.
Qed.

(** [unfenced_text_is_parsed_as_is] on an object followed by a line
    feed. *)
Lemma unfenced_text_is_parsed_as_is_witness :
  Str.includes (String "{" (String "}" (String newline EmptyString))) fence = false /\
  JSON_parse (cleaned (String "{" (String "}" (String newline EmptyString))))
  = Ok (VObj []).
Proof.
  split; [reflexivity|].
  apply (proj2 (proj2 (unfenced_text_is_parsed_as_is
                         (String "{" (String "}" (String newline EmptyString)))
                         eq_refl))).
  reflexivity.
Defined.

(** X3.  Cleaning is idempotent: a cleaned text is left as it is by a
    second cleaning, for the two expressions alike. *)
Theorem cleaning_is_idempotent (text : string) :
  cleanedText (cleanedText text) = cleanedText text /\
  cleaned (cleaned text) = cleaned text.
Proof.
  split.
  - rewrite (cleanedText_unfenced _ (cleanedText_no_fence text)).
    unfold cleanedText. apply trim_idem.
  - rewrite (cleaned_unfenced _ (cleaned_no_fence text)).
    unfold cleaned. apply trim_idem.
Qed.

End CleanFacts.

(** ** The retry-delay expression: what it finds *)

Module DelayExpression.

Import Str Num JS Json Regex StrFacts DelayFacts JsonTrim.

Lemma span_digits_eq (s : string) :
  fst (span_digits s) ++ snd (span_digits s) = s.
Proof.
  induction s as [|c s IH]; [reflexivity|].
  simpl. destruct (is_digit c); [|reflexivity].
  destruct (span_digits s) as [d rest]. simpl in *. now rewrite IH.
Qed.

(** A match at the head of a text: the text starts with the group, then
    the letter s. *)
Lemma match_delay_sound (s g : string) :
  match_delay s = Some g -> exists rest, s = g ++ String "s" rest.
Proof.
  unfold match_delay.
  pose proof (span_digits_eq s) as E1.
  destruct (span_digits s) as [d1 r1]. cbn [fst snd] in E1.
  destruct (isEmpty d1); [discriminate|].
  destruct (expect "." r1) as [r2|] eqn:Ed.
  - apply expect_eq in Ed.
    pose proof (span_digits_eq r2) as E2.
    destruct (span_digits r2) as [d2 r3]. cbn [fst snd] in E2.
    destruct (isEmpty d2).
    + destruct (expect "s" r1) as [rest|] eqn:Es; [|discriminate].
      apply expect_eq in Es. rewrite Es in Ed. discriminate Ed.
    + destruct (expect "s" r3) as [rest|] eqn:Es.
      * apply expect_eq in Es. intros [= <-]. exists rest.
        rewrite <- E1, Ed, <- E2, Es.
        rewrite !append_assoc. reflexivity.
      * destruct (expect "s" r1) as [rest|] eqn:Es1; [|discriminate].
        apply expect_eq in Es1. rewrite Es1 in Ed. discriminate Ed.
  - destruct (expect "s" r1) as [rest|] eqn:Es; [|discriminate].
    apply expect_eq in Es. intros [= <-]. exists rest. now rewrite <- E1, Es.
Qed.

Lemma exec_delay_sound (s g : string) :
  exec_delay s = Some g -> exists pre rest, s = pre ++ g ++ String "s" rest.
Proof.
  induction s as [|c s IH]; rewrite exec_delay_eq.
  - destruct (match_delay EmptyString) eqn:E; [|discriminate].
    intros [= <-]. destruct (match_delay_sound _ _ E) as (rest & H).
    exists EmptyString, rest. exact H.
  - destruct (match_delay (String c s)) eqn:E.
    + intros [= <-]. destruct (match_delay_sound _ _ E) as (rest & H).
      exists EmptyString, rest. exact H.
    + intros H. destruct (IH H) as (pre & rest & ->).
      exists (String c pre), rest. reflexivity.
Qed.

Lemma exec_delay_complete (pre ip fp rest : string) :
  digits ip = true -> isEmpty ip = false -> digits fp = true ->
  exec_delay (pre ++ decimal ip fp ++ String "s" rest) <> None.
Proof.
  intros Hi Hn Hf. induction pre as [|c pre IH].
  - simpl. rewrite (exec_delay_decimal ip fp rest Hi Hn Hf). discriminate.
  - change ((String c pre) ++ decimal ip fp ++ String "s" rest)
      with (String c (pre ++ decimal ip fp ++ String "s" rest)).
    rewrite exec_delay_eq.
    destruct (match_delay _); [discriminate | exact IH].
Qed.

(** A decimal number followed by the letter s stands somewhere in the
    text. *)
Definition has_delay (text : string) : Prop :=
  exists pre ip fp rest,
    digits ip = true /\ isEmpty ip = false /\ digits fp = true /\
    text = pre ++ decimal ip fp ++ String "s" rest.

(** X4.  The expression of [parseRetryMs] finds a match in a text
    exactly when a decimal number (digits, or digits, a dot and digits)
    directly followed by the letter s stands somewhere in it; and the group
    it captures is such a number, standing in the text before an s. *)
Theorem delay_expression_finds (text : string) :
  (forall g, exec_delay text = Some g ->
             exists pre rest ip fp,
               text = pre ++ g ++ String "s" rest /\
               digits ip = true /\ isEmpty ip = false /\ digits fp = true /\
               g = decimal ip fp) /\
  (exec_delay text = None <-> ~ has_delay text).
Proof.
  split.
  - intros g H. destruct (exec_delay_sound _ _ H) as (pre & rest & Ht).
    destruct (exec_delay_shape _ _ H) as (ip & fp & Hi & Hn & Hf & Hg).
    exists pre, rest, ip, fp. auto.
  - split.
    + intros H (pre & ip & fp & rest & Hi & Hn & Hf & Ht).
      rewrite Ht in H. exact (exec_delay_complete pre ip fp rest Hi Hn Hf H).
    + intros H. destruct (exec_delay text) as [g|] eqn:E; [|reflexivity].
      exfalso. apply H.
      destruct (exec_delay_sound _ _ E) as (pre & rest & Ht).
      destruct (exec_delay_shape _ _ E) as (ip & fp & Hi & Hn & Hf & Hg).
      exists pre, ip, fp, rest. subst g. auto.
Qed.

End DelayExpression.

(** ** Traces: generations and writes *)

Module TraceFacts.

Import Num JS Json Eff Quota Actions.

Definition is_write (e : event) : bool :=
  match e with DbWrite _ _ => true | _ => false end.

(** The writes of a trace, in order. *)
Definition writes (tr : trace) : list event := filter is_write tr.

Lemma invocations_app (a b : trace) :
  invocations (a ++ b)%list = (invocations a ++ invocations b)%list.
Proof. apply filter_app. Qed.

Lemma writes_app (a b : trace) : writes (a ++ b)%list = (writes a ++ writes b)%list.
Proof. apply filter_app. Qed.

(** The extractor asks nothing of the backend or of the database. *)
Lemma extractText_quiet (r : value) (tr : trace) :
  exists new, snd (extractText r tr) = (tr ++ new)%list /\
              invocations new = [] /\ writes new = [].
Proof.
  unfold extractText.
  destruct (get r "text");
    try (exists []; rewrite app_nil_r; repeat split; reflexivity);
    (destruct (get (get r "response") "text");
     try (exists []; rewrite app_nil_r; repeat split; reflexivity);
     (destruct (truthy (parts_of r) && isArray (parts_of r));
      [ exists []; rewrite app_nil_r; repeat split; reflexivity
      | eexists; unfold bindM, console, emit, throw; cbn [snd];
        rewrite <- app_assoc; repeat split; reflexivity ])).
Qed.

End TraceFacts.

(** ** The shared extractor: how it fails *)

Module ExtractorFacts.

Import Num JS Json Eff Quota Actions ExtractFacts.

(** How deep arrays are nested in a value. *)
Fixpoint depth (v : value) : nat :=
  match v with
  | VArr l => S (fold_right (fun x n => Nat.max (depth x) n) 0%nat l)
  | _ => 0%nat
  end.

Lemma ToString_throws_aux (n : nat) :
  forall v e, (depth v <= n)%nat -> ToString v = Throw e -> e = TypeError.
Proof.
  induction n as [|n IH]; intros v e Hd;
    destruct v as [| | b | x | s | l | l]; try discriminate;
    try (cbn [ToString]; destruct (assoc "toString" l); [|discriminate];
         intros [= <-]; reflexivity).
  - simpl in Hd. lia.
  - cbn [ToString].
    match goal with |- ?f l = _ -> _ => set (elems := f) end.
    assert (Heq : forall x r,
               elems (x :: r)
               = match (match x with
                        | VUndef | VNull => Ok EmptyString
                        | _ => ToString x
                        end) with
                 | Throw e' => Throw e'
                 | Ok sx =>
                     match r with
                     | [] => Ok sx
                     | _ => match elems r with
                            | Throw e' => Throw e'
                            | Ok sr => Ok (sx ++ "," ++ sr)
                            end
                     end
                 end) by reflexivity.
    cbn [depth] in Hd. apply le_S_n in Hd.
    induction l as [|x r IHr]; [discriminate|].
    cbn [fold_right] in Hd.
    rewrite Heq.
    destruct (match x with VUndef | VNull => Ok EmptyString | _ => ToString x end)
      as [sx | ex] eqn:Ex.
    + destruct r as [|y r']; [discriminate|].
      destruct (elems (y :: r')) as [sr | er]; [discriminate|].
      intros [= <-]. apply IHr; [lia | reflexivity].
    + intros [= <-].
      destruct x; try discriminate Ex; (eapply IH; [|exact Ex]; lia).
Qed.

(** A conversion to a string throws nothing but a [TypeError]. *)
Lemma ToString_throws (v e : value) : ToString v = Throw e -> e = TypeError.
Proof. apply (ToString_throws_aux (depth v)). lia. Qed.

Lemma join_empty_throws (l : list value) (e : value) :
  join_empty l = Throw e -> e = TypeError.
Proof.
  induction l as [|x r IH]; [discriminate|]. cbn [join_empty].
  destruct (match x with VUndef | VNull => Ok EmptyString | _ => ToString x end)
    as [sx | ex] eqn:Ex.
  - destruct (join_empty r); [discriminate|]. intros [= <-]. now apply IH.
  - intros [= <-]. destruct x; try discriminate Ex; exact (ToString_throws _ _ Ex).
Qed.

Lemma map_fragments_throws (l : list value) (e : value) :
  map_result fragment_text l = Throw e -> e = TypeError.
Proof.
  induction l as [|x r IH]; [discriminate|]. cbn [map_result]. unfold JS.bind at 1.
  destruct (fragment_text x) as [y | ex] eqn:Ex.
  - unfold JS.bind. destruct (map_result fragment_text r); [discriminate|].
    intros [= <-]. now apply IH.
  - intros [= <-]. unfold fragment_text, get_strict in Ex.
    destruct x; cbn in Ex; congruence.
Qed.

Lemma join_parts_throws (p e : value) : join_parts p = Throw e -> e = TypeError.
Proof.
  unfold join_parts. destruct p as [| | b | n | s | l | l]; try (intros [= <-]; reflexivity).
  unfold JS.bind. destruct (map_result fragment_text l) as [ys | ex] eqn:Ex.
  - apply join_empty_throws.
  - intros [= <-]. exact (map_fragments_throws _ _ Ex).
Qed.

(** X15.  The extractor shared by [generateAIInsights], [generateQuiz],
    [saveQuizResult] and the Inngest job has two ways to fail, and no other:
    with [Error("AI returned no text")], after its two lines on the console,
    when the answer has none of the three shapes; and with a [TypeError], with
    no line on the console, which comes from the fragments of a list of parts
    (a fragment that is [null] or [undefined], a text that cannot be
    printed).  When it returns a text it has done nothing else. *)
Theorem extractor_fails_in_two_ways (r : value) (tr : trace) :
  (forall t tr', extractText r tr = (Ok t, tr') -> tr' = tr) /\
  (forall e tr',
      extractText r tr = (Throw e, tr') ->
      (e = TypeError /\ tr' = tr /\ isArray (parts_of r) = true) \/
      (e = Error "AI returned no text" /\
       tr' = (tr ++ [Console LWarn
                       "Unexpected response shape from GenAI SDK, printing raw response";
                     Console LLog EmptyString])%list /\
       is_string (get r "text") = false /\
       is_string (get (get r "response") "text") = false /\
       truthy (parts_of r) && isArray (parts_of r) = false)).
Proof.
  split.
  - intros t tr' H.
    pose proof (extractText_pure r tr t) as P. rewrite H in P.
    specialize (P eq_refl). congruence.
  - intros e tr'. unfold extractText.
    destruct (get r "text") eqn:E1; try (unfold ret; discriminate);
      (destruct (get (get r "response") "text") eqn:E2; try (unfold ret; discriminate);
       (destruct (truthy (parts_of r) && isArray (parts_of r)) eqn:G;
        [ unfold lift; intros [= H <-]; left;
          apply andb_prop in G; destruct G as [_ G];
          split; [exact (join_parts_throws _ _ H) | split; [reflexivity | exact G]]
        | unfold bindM, console, emit, throw; intros [= <- <-]; right;
          rewrite <- app_assoc; repeat split ])).
Qed.

End ExtractorFacts.

(** ** The weekly job: one generation and one write for each industry *)

Module JobFacts.

Import Num JS Json Eff Quota Actions ExtractFacts ActionFacts TraceFacts.

(** The turn of one industry has ended on a failure, after [m]
    generations. *)
Ltac stopped :=
  split; [reflexivity|]; split; [simpl; lia|]; split; [simpl; lia|];
  intros ? ?; discriminate.

Section Collaborators.

Variable backend : trace -> string -> result value.
Variable db : trace -> string -> value -> result value.

(** The turn of one industry: at most one generation, then at most one
    write. *)
Lemma item_trace (item : value) (tr : trace) (r : result value) (tr' : trace) :
  industry_loop backend db [item] tr = (r, tr') ->
  exists new,
    tr' = (tr ++ new)%list /\
    exists m, invocations new = repeat (Generate pro) m /\
              (m <= 1)%nat /\
              (List.length (writes new) <= m)%nat /\
              (forall v, r = Ok v ->
                         v = VUndef /\ m = 1%nat /\ List.length (writes new) = 1%nat).
Proof.
  intros E.
  cbn [industry_loop] in E. unfold bindM at 1 in E. unfold lift at 1 in E.
  destruct (get_strict item "industry") as [industry | e].
  2:{ injection E as <- <-. exists []. rewrite app_nil_r. split; [reflexivity|].
      exists 0%nat. stopped. }
  unfold bindM at 1 in E. unfold lift at 1 in E.
  destruct (ToString industry) as [printed | e].
  2:{ injection E as <- <-. exists []. rewrite app_nil_r. split; [reflexivity|].
      exists 0%nat. stopped. }
  unfold bindM at 1 in E. rewrite (generateContent_eq backend) in E.
  destruct (backend tr "gemini-2.5-pro") as [res | e].
  2:{ injection E as <- <-. exists [Generate pro]. split; [reflexivity|].
      exists 1%nat. stopped. }
  unfold bindM at 1 in E.
  destruct (extractText_quiet res (tr ++ [Generate "gemini-2.5-pro"])%list)
    as (ex & Hex & Hexi & Hexw).
  destruct (extractText res (tr ++ [Generate "gemini-2.5-pro"])%list)
    as [[text | e] tr1].
  2:{ cbn [snd] in Hex. subst tr1. injection E as <- <-.
      exists ([Generate pro] ++ ex)%list.
      rewrite <- app_assoc. split; [reflexivity|].
      exists 1%nat. rewrite invocations_app, writes_app, Hexi, Hexw. stopped. }
  cbn [snd] in Hex. subst tr1.
  unfold bindM at 1 in E. unfold lift at 1 in E.
  destruct (JSON_parse (cleanedText text)) as [insights | e].
  2:{ injection E as <- <-. exists ([Generate pro] ++ ex)%list.
      rewrite <- app_assoc. split; [reflexivity|].
      exists 1%nat. rewrite invocations_app, writes_app, Hexi, Hexw. stopped. }
  unfold bindM at 1 in E. unfold db_write at 1 in E.
  set (w := DbWrite "industryInsight"
              (VObj [("where", VObj [("industry", industry)]); ("data", insights)])) in E.
  destruct (db _ "industryInsight" _) as [written | e].
  2:{ injection E as <- <-. exists ([Generate pro] ++ ex ++ [w])%list.
      rewrite <- !app_assoc. split; [reflexivity|].
      exists 1%nat. rewrite !invocations_app, !writes_app, Hexi, Hexw. stopped. }
  unfold ret in E. injection E as <- <-.
  exists ([Generate pro] ++ ex ++ [w])%list.
  rewrite <- !app_assoc. split; [reflexivity|].
  exists 1%nat. rewrite !invocations_app, !writes_app, Hexi, Hexw.
  split; [reflexivity|]. split; [lia|]. split; [simpl; lia|].
  intros v [= <-]. repeat split.
Qed.

(** The job on a list: the turn of the first industry, then, if that
    ended well, the job on the others. *)
Lemma loop_cons (item : value) (rest : list value) (tr : trace) :
  industry_loop backend db (item :: rest) tr
  = match industry_loop backend db [item] tr with
    | (Ok _, tr1) => industry_loop backend db rest tr1
    | (Throw e, tr1) => (Throw e, tr1)
    end.
Proof.
  cbn [industry_loop]. unfold bindM, lift, ret.
  destruct (get_strict item "industry") as [industry | e]; [|reflexivity].
  destruct (ToString industry) as [printed | e]; [|reflexivity].
  destruct (generateContent backend "gemini-2.5-pro" tr) as [[res | e] tr1];
    [|reflexivity].
  destruct (extractText res tr1) as [[text | e] tr2]; [|reflexivity].
  destruct (JSON_parse (cleanedText text)) as [insights | e]; [|reflexivity].
  destruct (db_write db "industryInsight" _ tr2) as [[written | e] tr3]; reflexivity.
Qed.

(** The job on two lists, one after the other. *)
Lemma loop_app (a b : list value) :
  forall tr,
    industry_loop backend db (a ++ b) tr
    = match industry_loop backend db a tr with
      | (Ok _, tr1) => industry_loop backend db b tr1
      | (Throw e, tr1) => (Throw e, tr1)
      end.
Proof.
  induction a as [|item a IH]; intros tr; [reflexivity|].
  change ((item :: a) ++ b)%list with (item :: (a ++ b))%list.
  rewrite (loop_cons item (a ++ b)), (loop_cons item a).
  destruct (industry_loop backend db [item] tr) as [[v | e] tr1]; [apply IH | reflexivity].
Qed.

Lemma job_trace (industries : list value) :
  forall tr r tr',
    industry_loop backend db industries tr = (r, tr') ->
    exists new,
      tr' = (tr ++ new)%list /\
      exists m, invocations new = repeat (Generate pro) m /\
                (m <= List.length industries)%nat /\
                (List.length (writes new) <= m)%nat /\
                (forall v, r = Ok v ->
                           v = VUndef /\ m = List.length industries /\
                           List.length (writes new) = List.length industries).
Proof.
  induction industries as [|item rest IH]; intros tr r tr' E.
  - injection E as <- <-. exists []. rewrite app_nil_r. split; [reflexivity|].
    exists 0%nat. split; [reflexivity|]. split; [simpl; lia|]. split; [simpl; lia|].
    intros v [= <-]. repeat split.
  - rewrite loop_cons in E.
    destruct (industry_loop backend db [item] tr) as [r1 tr1] eqn:E1.
    destruct (item_trace _ _ _ _ E1) as (n1 & -> & m1 & Hm1 & Hle1 & Hw1 & Hok1).
    destruct r1 as [v1 | e1].
    + destruct (Hok1 v1 eq_refl) as (_ & -> & Hw1').
      destruct (IH _ _ _ E) as (n2 & -> & m2 & Hm2 & Hle2 & Hw2 & Hok2).
      exists (n1 ++ n2)%list. rewrite <- app_assoc. split; [reflexivity|].
      exists (1 + m2)%nat.
      rewrite invocations_app, writes_app, Hm1, Hm2, length_app, Hw1'.
      split; [reflexivity|]. split; [simpl; lia|]. split; [lia|].
      intros v Hv. destruct (Hok2 v Hv) as (-> & -> & Hw2').
      repeat split. simpl. lia.
    + injection E as <- <-. exists n1. split; [reflexivity|].
      exists m1. split; [exact Hm1|]. split; [simpl; lia|]. split; [exact Hw1|].
      intros v Hv. discriminate Hv.
Qed.

(** A job that throws has stopped at an industry: the industries before
    it had their turn, which ended well, and those after it have none. *)
Lemma job_stops (industries : list value) :
  forall tr e,
    fst (industry_loop backend db industries tr) = Throw e ->
    exists before item after,
      industries = (before ++ item :: after)%list /\
      fst (industry_loop backend db before tr) = Ok VUndef /\
      fst (industry_loop backend db [item] (snd (industry_loop backend db before tr)))
      = Throw e /\
      industry_loop backend db industries tr
      = industry_loop backend db (before ++ [item]) tr.
Proof.
  induction industries as [|item rest IH]; intros tr e H; [discriminate H|].
  pose proof (loop_cons item rest tr) as Hc.
  pose proof (loop_cons item [] tr) as Hc0.
  destruct (industry_loop backend db [item] tr) as [[v1 | e1] tr1] eqn:E1.
  - rewrite Hc in H. destruct (IH tr1 e H) as (b & it & af & -> & Hb & Hi & Hall).
    exists (item :: b), it, af.
    pose proof (loop_cons item b tr) as Hcb. rewrite E1 in Hcb.
    pose proof (loop_cons item (b ++ [it]) tr) as Hcbi. rewrite E1 in Hcbi.
    split; [reflexivity|]. rewrite Hcb. split; [exact Hb|]. split; [exact Hi|].
    rewrite Hc, Hall. symmetry. exact Hcbi.
  - rewrite Hc in H. cbn [fst] in H. injection H as ->.
    exists [], item, rest.
    change (industry_loop backend db [] tr) with (@Ok value VUndef, tr).
    cbn [app fst snd]. rewrite E1.
    split; [reflexivity|]. split; [reflexivity|].
    split; [reflexivity | exact Hc].
Qed.

(** X5.  The Inngest job asks the backend at most once for each industry
    and only for the [pro] model, and writes at most once for each generation.
    When it returns, its result is [undefined], and it has made exactly one
    generation and one write for each industry.  When it throws, it has
    stopped at the industry of the failure: the job on the industries before
    that one returns, the turn of that industry, taken after them, throws the
    error, and the run is exactly the run of the job on the list cut after
    that industry, so that no industry after it is asked for or written; there
    are then at least as many writes as industries before the failure, and at
    most one generation more than that. *)
Theorem job_asks_once_per_industry (industries : list value) (tr : trace) :
  exists new,
    snd (generateIndustryInsights backend db industries tr) = (tr ++ new)%list /\
    (exists m, invocations new = repeat (Generate pro) m /\
               (m <= List.length industries)%nat /\
               (List.length (writes new) <= m)%nat /\
               (forall v, fst (generateIndustryInsights backend db industries tr) = Ok v ->
                          v = VUndef /\ m = List.length industries /\
                          List.length (writes new) = List.length industries) /\
               (forall e,
                   fst (generateIndustryInsights backend db industries tr) = Throw e ->
                   exists before item after,
                     industries = (before ++ item :: after)%list /\
                     fst (generateIndustryInsights backend db before tr) = Ok VUndef /\
                     fst (generateIndustryInsights backend db [item]
                            (snd (generateIndustryInsights backend db before tr)))
                     = Throw e /\
                     generateIndustryInsights backend db industries tr
                     = generateIndustryInsights backend db (before ++ [item]) tr /\
                     (List.length before <= List.length (writes new))%nat /\
                     (m <= S (List.length before))%nat)).
Proof.
  unfold generateIndustryInsights.
  destruct (industry_loop backend db industries tr) as [r tr'] eqn:E.
  destruct (job_trace industries tr r tr' E) as (new & -> & m & Hm & Hle & Hw & Hok).
  exists new. split; [reflexivity|].
  exists m. split; [exact Hm|]. split; [exact Hle|]. split; [exact Hw|].
  split; [exact Hok|].
  cbn [fst]. intros e ->.
  destruct (job_stops industries tr e) as (before & item & after & Hi & Hb & Hit & Hall);
    [rewrite E; reflexivity|].
  exists before, item, after.
  split; [exact Hi|]. split; [exact Hb|]. split; [exact Hit|].
  rewrite <- E. split; [exact Hall|].
  (* the run is that of the industries before, then of the one of the failure *)
  rewrite E, loop_app in Hall.
  destruct (industry_loop backend db before tr) as [rb trb] eqn:Eb.
  cbn [fst snd] in Hb, Hit. subst rb.
  destruct (job_trace before tr _ _ Eb) as (nb & -> & mb & Hmb & _ & _ & Hokb).
  destruct (Hokb VUndef eq_refl) as (_ & -> & Hwb).
  destruct (industry_loop backend db [item] (tr ++ nb)%list) as [ri tri] eqn:Ei.
  destruct (item_trace _ _ _ _ Ei) as (ni & -> & mi & Hmi & Hlei & Hwi & _).
  cbn [fst] in Hit. subst ri. injection Hall as Hall.
  rewrite <- app_assoc in Hall. apply app_inv_head in Hall. subst new.
  rewrite invocations_app, Hmb, Hmi, <- repeat_app in Hm.
  apply (f_equal (@List.length event)) in Hm. rewrite !repeat_length in Hm.
  rewrite writes_app, length_app, Hwb. split; lia.
Qed.

End Collaborators.

End JobFacts.

(** ** The quiz: results, tip and questions *)

Module QuizFacts.

Import Str Num JS Json Eff Quota Actions StrFacts JsonFacts DelayFacts ExtractFacts
       ActionFacts TraceFacts CleanFacts Prompts.

(** *** [answers[index]] *)

Lemma code_chr (z : Z) : 0 <= z < 256 -> code (chr z) = z.
Proof.
  intros H. unfold code, chr.
  rewrite N_ascii_embedding by lia. lia.
Qed.

Lemma dec_digits_acc (f : nat) :
  forall n acc, dec_digits f n acc = dec_digits f n EmptyString ++ acc.
Proof.
  induction f as [|f IH]; intros n acc; [reflexivity|].
  cbn [dec_digits]. destruct (n <? 10); [reflexivity|].
  rewrite IH, (IH _ (String _ EmptyString)), append_assoc. reflexivity.
Qed.

Lemma dec_digits_step (f : nat) (n : Z) :
  dec_digits (S f) n EmptyString
  = if n <? 10 then String (chr (48 + n mod 10)) EmptyString
    else dec_digits f (n / 10) EmptyString ++ String (chr (48 + n mod 10)) EmptyString.
Proof.
  cbn [dec_digits]. destruct (n <? 10); [reflexivity|]. apply dec_digits_acc.
Qed.

Lemma digits_snoc (x : string) (c : ascii) :
  digits (x ++ String c EmptyString) = digits x && is_digit c.
Proof.
  induction x as [|a x IH]; simpl; [now rewrite andb_true_r|].
  rewrite IH. now rewrite andb_assoc.
Qed.

Lemma dec_value_snoc (x : string) (c : ascii) :
  forall a, dec_value a (x ++ String c EmptyString) = 10 * dec_value a x + digit_val c.
Proof.
  induction x as [|b x IH]; intros a; [reflexivity|]. simpl. apply IH.
Qed.

Lemma digit_chr (d : Z) :
  0 <= d < 10 -> is_digit (chr (48 + d)) = true /\ digit_val (chr (48 + d)) = d.
Proof.
  intros H. unfold is_digit, digit_val. rewrite code_chr by lia.
  split; [|lia]. apply andb_true_intro. split; apply Z.leb_le; lia.
Qed.

(** The digits printed for [n] are digits, write [n], and start with no
    zero unless [n] is zero. *)
Lemma dec_digits_ok (f : nat) :
  forall n, 0 <= n < 10 ^ Z.of_nat f ->
    digits (dec_digits f n EmptyString) = true /\
    dec_value 0 (dec_digits f n EmptyString) = n /\
    (f = 0%nat \/
     exists c r, dec_digits f n EmptyString = String c r /\
                 is_digit c = true /\
                 (1 <= n -> Ascii.eqb c "0" = false) /\
                 (n = 0 -> r = EmptyString)).
Proof.
  induction f as [|f IH]; intros n Hn.
  - simpl in *. repeat split; [lia | now left].
  - rewrite dec_digits_step.
    assert (Hm : 0 <= n mod 10 < 10) by (apply Z.mod_pos_bound; lia).
    destruct (digit_chr _ Hm) as (Hd & Hv).
    destruct (Z.ltb_spec n 10).
    + rewrite Z.mod_small in * by lia.
      cbn [digits dec_value]. rewrite Hd, Hv.
      split; [reflexivity|]. split; [lia|]. right.
      exists (chr (48 + n)), EmptyString. repeat split; [exact Hd|].
      intros H1. destruct (Ascii.eqb_spec (chr (48 + n)) "0") as [E|]; [|reflexivity].
      apply (f_equal code) in E. rewrite code_chr in E by lia.
      change (code "0") with 48 in E. lia.
    + assert (Hq : 0 <= n / 10 < 10 ^ Z.of_nat f).
      { split; [apply Z.div_pos; lia|].
        apply Z.div_lt_upper_bound; [lia|].
        replace (10 * 10 ^ Z.of_nat f) with (10 ^ Z.of_nat (S f)); [lia|].
        rewrite Nat2Z.inj_succ, Z.pow_succ_r by lia. reflexivity. }
      destruct (IH _ Hq) as (Hdig & Hval & Hhead).
      rewrite digits_snoc, dec_value_snoc, Hdig, Hd, Hval, Hv.
      split; [reflexivity|]. split; [pose proof (Z.div_mod n 10); lia|]. right.
      assert (H1 : 1 <= n / 10) by (apply Z.div_le_lower_bound; lia).
      destruct Hhead as [-> | (c & r & E & Hc & Hz & _)].
      { simpl in Hq. lia. }
      rewrite E. exists c, (r ++ String (chr (48 + n mod 10)) EmptyString).
      repeat split; [exact Hc | intros _; exact (Hz H1) | lia].
Qed.

Lemma forallb_digits (k : string) :
  forallb is_digit (list_ascii_of_string k) = digits k.
Proof. induction k as [|c k IH]; simpl; [reflexivity | now rewrite IH]. Qed.

Lemma log2_fuel (n : Z) : 0 <= n -> n < 10 ^ Z.of_nat (S (Z.to_nat (Z.log2 n))).
Proof.
  intros H. rewrite Nat2Z.inj_succ, Z2Nat.id by apply Z.log2_nonneg.
  destruct (Z.eq_dec n 0) as [-> |]; [reflexivity|].
  pose proof (Z.log2_spec n ltac:(lia)) as (_ & Hlt).
  pose proof (Z.log2_nonneg n).
  assert (2 ^ Z.succ (Z.log2 n) <= 10 ^ Z.succ (Z.log2 n))
    by (apply Z.pow_le_mono_l; lia).
  lia.
Qed.

(** The name of index [n] reads back as [n]. *)
Lemma index_of_key_print (n : nat) :
  index_of_key (Z_to_string (Z.of_nat n)) = Some n /\
  String.eqb (Z_to_string (Z.of_nat n)) "length" = false.
Proof.
  unfold Z_to_string.
  destruct (dec_digits_ok _ _ (conj (Nat2Z.is_nonneg n) (log2_fuel _ (Nat2Z.is_nonneg n))))
    as (Hd & Hv & [Hf | (c & r & E & Hc & Hz & Hr)]); [discriminate Hf|].
  rewrite E in *. split.
  - unfold index_of_key. rewrite forallb_digits, Hd, Hv, Nat2Z.id.
    destruct (Z.eq_dec (Z.of_nat n) 0) as [H0 | H0].
    + rewrite (Hr H0). cbn [isEmpty]. rewrite orb_true_r. reflexivity.
    + rewrite (Hz ltac:(lia)). reflexivity.
  - cbn [String.eqb]. apply is_digit_code in Hc.
    destruct (Ascii.eqb_spec c "l") as [-> |]; [|reflexivity].
    change (code "l") with 108 in Hc. lia.
Qed.

Lemma answers_index (a : list value) (n : nat) :
  get (VArr a) (Z_to_string (Z.of_nat n)) = nth n a VUndef.
Proof.
  destruct (index_of_key_print n) as (Hi & Hl).
  unfold get. rewrite Hl, Hi. reflexivity.
Qed.


(** *** The results stored for the questions *)

(** An object, anything but [null] and [undefined]: its properties can be
    read. *)
Definition readable (q : value) : Prop := q <> VUndef /\ q <> VNull.

Lemma questionResults_nth (a : list value) (l : list value) :
  forall i rs,
    questionResults l (VArr a) i = Ok rs ->
    List.length rs = List.length l /\
    forall k q,
      nth_error l k = Some q ->
      exists r,
        nth_error rs k = Some r /\
        get r "question" = get q "question" /\
        get r "answer" = get q "correctAnswer" /\
        get r "userAnswer" = nth (i + k) a VUndef /\
        get r "isCorrect"
        = VBool (strict_eq (get q "correctAnswer") (nth (i + k) a VUndef)) /\
        get r "explanation" = get q "explanation".
Proof.
  induction l as [|q0 l IH]; intros i rs.
  - intros [= <-]. split; [reflexivity|]. intros [|k] q H; discriminate H.
  - cbn [questionResults]. unfold JS.bind at 1.
    destruct (get_strict q0 "question") as [question|] eqn:Eq; [|discriminate].
    apply RetryFacts.get_strict_ok in Eq. subst question.
    cbn [get_strict JS.bind]. rewrite answers_index.
    destruct (questionResults l (VArr a) (S i)) as [others|] eqn:Eo; [|discriminate].
    intros [= <-]. destruct (IH _ _ Eo) as (Hlen & Hnth).
    split; [simpl; now rewrite Hlen|].
    intros [|k] q H.
    + injection H as <-. eexists. split; [reflexivity|].
      rewrite Nat.add_0_r. repeat split.
    + destruct (Hnth k q H) as (r & Hr & H1 & H2 & H3 & H4 & H5).
      exists r. rewrite Nat.add_succ_r. simpl in H3, H4. repeat split; assumption.
Qed.

Lemma questionResults_total (a : list value) (l : list value) :
  forall i, Forall readable l <-> exists rs, questionResults l (VArr a) i = Ok rs.
Proof.
  induction l as [|q0 l IH]; intros i.
  - split; [intros _; exists []; reflexivity | constructor].
  - cbn [questionResults]. split.
    + intros H. inversion H as [|? ? (Hu & Hn) Hl]; subst.
      rewrite (get_strict_object q0 "question" Hu Hn). cbn [JS.bind get_strict].
      destruct (proj1 (IH (S i)) Hl) as (rs & ->). eexists. reflexivity.
    + intros (rs & H). unfold JS.bind at 1 in H.
      destruct q0; try discriminate H;
        (constructor; [split; discriminate|]);
        cbn [get_strict JS.bind] in H;
        (destruct (questionResults l (VArr a) (S i)) as [others|] eqn:Eo;
         [|discriminate H]);
        apply (IH (S i)); eauto.
Qed.

(** X6.  For an array of answers, [saveQuizResult] stores one result for
    each question, in order; the result of question [k] carries the question,
    its correct answer and explanation, the answer [answers[k]]
    ([undefined] where the array has none), and [isCorrect] is the strict
    equality of the correct answer and that answer.  So a question left
    without an answer counts as right exactly when its [correctAnswer] is
    [undefined] as well, and as wrong in every other case.  The results exist
    exactly when no question is [null] or [undefined]. *)
Theorem results_follow_the_questions (questions answers : list value) :
  (Forall readable questions <->
   exists results, questionResults questions (VArr answers) 0 = Ok results) /\
  (forall results,
      questionResults questions (VArr answers) 0 = Ok results ->
      List.length results = List.length questions /\
      forall k q,
        nth_error questions k = Some q ->
        exists r,
          nth_error results k = Some r /\
          get r "question" = get q "question" /\
          get r "answer" = get q "correctAnswer" /\
          get r "userAnswer" = nth k answers VUndef /\
          get r "isCorrect"
          = VBool (strict_eq (get q "correctAnswer") (nth k answers VUndef)) /\
          get r "explanation" = get q "explanation" /\
          ((List.length answers <= k)%nat ->
           (isCorrect r = true <-> get q "correctAnswer" = VUndef))).
Proof.
  split; [apply questionResults_total|].
  intros results H. destruct (questionResults_nth _ _ _ _ H) as (Hlen & Hnth).
  split; [exact Hlen|]. intros k q Hq.
  destruct (Hnth k q Hq) as (r & Hr & H1 & H2 & H3 & H4 & H5).
  exists r. simpl in H3, H4. do 6 (split; [assumption|]).
  intros Hk. unfold isCorrect. rewrite H4, (nth_overflow _ _ Hk).
  destruct (get q "correctAnswer"); split; intros Hc;
    try reflexivity; discriminate Hc.
Qed.


(** [JSON.parse] returns no [undefined]. *)
Lemma JSON_parse_defined (s : string) (v : value) : JSON_parse s = Ok v -> v <> VUndef.
Proof.
  unfold JSON_parse.
  destruct (parse_value (fuel_for s) (skip_ws s)) as [v' rest| |] eqn:E; try discriminate.
  destruct (isEmpty (skip_ws rest)); [|discriminate]. intros [= <-].
  destruct (fuel_for s) as [|f]; [discriminate E|].
  destruct (skip_ws s) as [|c r]; [discriminate E|]. cbn [parse_value] in E.
  destruct (Ascii.eqb c "{").
  { destruct (expect "}" (skip_ws r)); [injection E as <- _; discriminate|].
    apply pmap_inv in E. destruct E as (a & _ & ->). discriminate. }
  destruct (Ascii.eqb c "[").
  { destruct (expect "]" (skip_ws r)); [injection E as <- _; discriminate|].
    apply pmap_inv in E. destruct E as (a & _ & ->). discriminate. }
  destruct (Ascii.eqb c dquote).
  { apply pmap_inv in E. destruct E as (a & _ & ->). discriminate. }
  destruct (String.prefix "true" (String c r)); [injection E as <- _; discriminate|].
  destruct (String.prefix "false" (String c r)); [injection E as <- _; discriminate|].
  destruct (String.prefix "null" (String c r)); [injection E as <- _; discriminate|].
  apply pmap_inv in E. destruct E as (a & _ & ->). discriminate.
Qed.

(** *** The improvement tip *)

Lemma no_wrong_answer (results : list value) :
  filter (fun q => negb (isCorrect q)) results = [] <->
  forallb isCorrect results = true.
Proof.
  induction results as [|r rs IH]; [split; reflexivity|].
  simpl. destruct (isCorrect r); simpl; [exact IH|].
  split; discriminate.
Qed.

Section Collaborators.

Variable backend : trace -> string -> result value.
Variable db : trace -> string -> value -> result value.

(** The tip, and what happened while it was asked for. *)
Lemma tip_trace (tr : trace) (r : result value) (tr' : trace) :
  catch (bindM (generateContent backend "gemini-2.5-pro") (fun tipResult =>
         bindM (extractText tipResult) (fun tipText =>
         ret (VStr (trim tipText)))))
        (fun _ => bindM (console LError "Error generating improvement tip:")
                        (fun _ => ret VNull)) tr
  = (r, tr') ->
  exists tip mid,
    r = Ok tip /\ tr' = (tr ++ mid)%list /\
    invocations mid = [Generate pro] /\ writes mid = [] /\
    (tip = VNull \/ exists s, tip = VStr s /\ trim s = s).
Proof.
  unfold catch, bindM at 1. rewrite (generateContent_eq backend).
  destruct (backend tr "gemini-2.5-pro") as [res | e].
  - unfold bindM.
    destruct (extractText_quiet res (tr ++ [Generate "gemini-2.5-pro"])%list)
      as (ex & Hex & Hexi & Hexw).
    destruct (extractText res (tr ++ [Generate "gemini-2.5-pro"])%list)
      as [[text | e] tr1]; cbn [snd] in Hex; subst tr1.
    + intros [= <- <-]. exists (VStr (trim text)), ([Generate pro] ++ ex)%list.
      rewrite <- app_assoc, invocations_app, writes_app, Hexi, Hexw.
      repeat split. right. exists (trim text). split; [reflexivity | apply trim_idem].
    + unfold console, emit, ret. intros [= <- <-].
      exists VNull,
        ([Generate pro] ++ ex ++ [Console LError "Error generating improvement tip:"])%list.
      rewrite <- !app_assoc, !invocations_app, !writes_app, Hexi, Hexw.
      repeat split. now left.
  - unfold bindM, console, emit, ret. intros [= <- <-].
    exists VNull, [Generate pro; Console LError "Error generating improvement tip:"].
    rewrite <- app_assoc. repeat split. now left.
Qed.

(** X7.  For an array of answers, once the results are made, and where
    the prompt of the tip can be written (the question, the correct answer and
    the user's answer of every wrong result can be converted to a string),
    [saveQuizResult] asks the backend for a tip exactly when some answer is
    wrong, and then once; with no wrong answer nothing happens before the write
    and the tip is [null].  In every case the results are then written once,
    with a tip that is [null] or a trimmed text, and nothing follows the write
    but the report of its failure. *)
Theorem tip_only_after_a_wrong_answer
  (tr : trace) (userId user : value) (questions answers : list value)
  (score : value) (results : list value) :
  truthy userId = true -> truthy user = true ->
  questionResults questions (VArr answers) 0 = Ok results ->
  tip_prompt_ok results ->
  exists tip mid tail,
    snd (saveQuizResult backend db userId user (VArr questions) (VArr answers) score tr)
    = (tr ++ mid ++ DbWrite "assessment" (assessment user score results tip) :: tail)%list /\
    invocations mid = (if forallb isCorrect results then [] else [Generate pro]) /\
    writes mid = [] /\
    (forallb isCorrect results = true -> mid = [] /\ tip = VNull) /\
    (tip = VNull \/ exists s, tip = VStr s /\ trim s = s) /\
    (tail = [] \/ tail = [Console LError "Error saving quiz result:"]).
Proof.
  intros Hu Hv Hres Hp.
  pose proof (PromptFacts.tip_lines_ok results Hp) as Hl.
  destruct (saveQuizResult backend db userId user (VArr questions) (VArr answers) score tr)
    as [r tr'] eqn:E.
  unfold saveQuizResult in E. rewrite Hu, Hv in E. cbn [negb] in E.
  unfold bindM at 1 in E. unfold lift at 1 in E. rewrite Hres in E.
  unfold bindM at 1 in E.
  assert (Hend : forall tip t0,
             catch (db_write db "assessment"
                      (VObj [("userId", get user "id"); ("quizScore", score);
                             ("questions", VArr results);
                             ("category", VStr "Technical");
                             ("improvementTip", tip)]))
                   (fun _ => bindM (console LError "Error saving quiz result:")
                                   (fun _ => throw (Error "Failed to save quiz result")))
                   t0 = (r, tr') ->
             exists tail,
               tr' = (t0 ++ DbWrite "assessment" (assessment user score results tip) :: tail)%list
               /\ (tail = [] \/ tail = [Console LError "Error saving quiz result:"])).
  { intros tip t0. unfold catch, db_write, assessment.
    destruct (db t0 "assessment" _).
    - intros [= _ <-]. exists []. split; [reflexivity | now left].
    - unfold bindM, console, emit, throw. intros [= _ <-].
      exists [Console LError "Error saving quiz result:"].
      rewrite <- app_assoc. split; [reflexivity | now right]. }
  destruct (filter (fun q => negb (isCorrect q)) results) as [|w ws] eqn:Hf.
  - apply no_wrong_answer in Hf. rewrite Hf.
    cbn [List.length Nat.ltb Nat.leb ret] in E.
    destruct (Hend _ _ E) as (tail & -> & Htail).
    exists VNull, [], tail. cbn [snd app].
    repeat split; try reflexivity; [now left | exact Htail].
  - assert (Hall : forallb isCorrect results = false).
    { destruct (forallb isCorrect results) eqn:Ha; [|reflexivity].
      apply no_wrong_answer in Ha. rewrite Ha in Hf. discriminate Hf. }
    rewrite Hall. cbn [List.length Nat.ltb Nat.leb] in E.
    match type of E with
    | match ?c tr with _ => _ end = _ => destruct (c tr) as [rt trt] eqn:Et
    end.
    unfold bindM at 1 in Et. unfold lift at 1 in Et. rewrite Hl in Et.
    destruct (tip_trace _ _ _ Et) as (tip & mid & -> & -> & Hi & Hw & Htip).
    destruct (Hend _ _ E) as (tail & -> & Htail).
    exists tip, mid, tail. cbn [snd]. rewrite <- app_assoc.
    repeat split; try assumption; discriminate.
Qed.

(** *** [generateQuiz] *)

(** X8.  [generateQuiz] checks nothing of the JSON it parses: whenever
    the cleaned text parses to a value other than [null], the action returns
    the [questions] property of that value as it is - [undefined] when there
    is none - after the one generation; and when the text parses to [null],
    reading the property fails and the action throws its own error. *)
Theorem quiz_questions_are_not_checked
  (tr : trace) (userId user r : value) (text : string) (quiz : value) :
  truthy userId = true -> truthy user = true -> quiz_prompt_ok user ->
  backend tr pro = Ok r ->
  fst (extractText r (tr ++ [Generate pro])%list) = Ok text ->
  JSON_parse (cleaned text) = Ok quiz ->
  (quiz <> VNull ->
   generateQuiz backend userId user tr
   = (Ok (get quiz "questions"), (tr ++ [Generate pro])%list)) /\
  (quiz = VNull ->
   generateQuiz backend userId user tr
   = (Throw (Error "Failed to generate quiz questions"),
      (tr ++ [Generate pro; Console LError "Error generating quiz:"])%list)).
Proof.
  intros Hu Hv Hp H Ht Hq. unfold pro in *.
  rewrite (PromptFacts.generateQuiz_try backend userId user tr Hu Hv Hp).
  unfold catch, bindM. rewrite (generateContent_eq backend), H.
  rewrite (extractText_pure _ _ _ Ht). unfold lift. rewrite Hq.
  split.
  - intros Hn.
    rewrite (get_strict_object quiz "questions" (JSON_parse_defined _ _ Hq) Hn).
    reflexivity.
  - intros ->. cbn [get_strict]. unfold console, emit, throw.
    rewrite <- app_assoc. reflexivity.
Qed.

End Collaborators.

(** The result stored for [one_question] answered rightly. *)
Definition right_result : value :=
  VObj [("question", VStr "What is a closure?"); ("answer", VStr "a");
        ("userAnswer", VStr "a"); ("isCorrect", VBool true); ("explanation", VUndef)].

(** [tip_only_after_a_wrong_answer] on a right answer, with a backend that
    is down: the backend is not asked. *)
Lemma tip_only_after_a_wrong_answer_witness :
  exists tip mid tail,
    snd (saveQuizResult InvokerFacts.always_500 db_ok (VStr "user_1")
           (VObj [("id", VStr "7")]) (VArr [one_question]) (VArr [VStr "a"])
           (VNum (of_Z 1)) [])
    = (mid ++ DbWrite "assessment"
                (assessment (VObj [("id", VStr "7")]) (VNum (of_Z 1)) [right_result] tip)
           :: tail)%list /\
    invocations mid = [].
Proof.
  destruct (tip_only_after_a_wrong_answer InvokerFacts.always_500 db_ok []
              (VStr "user_1") (VObj [("id", VStr "7")]) [one_question]
              [VStr "a"] (VNum (of_Z 1)) [right_result]
              eq_refl eq_refl eq_refl (Forall_nil _))
    as (tip & mid & tail & H1 & H2 & _).
  exists tip, mid, tail. split; [exact H1 | exact H2].
Defined.

(** A user with an industry and no skills. *)
Definition plain_user : value := VObj [("industry", VStr "tech")].

Lemma plain_user_prompt : quiz_prompt_ok plain_user.
Proof. split; [exists "tech"; reflexivity | discriminate]. Defined.

(** A backend whose answer is the text of an empty object. *)
Definition empty_object (tr : trace) (modelName : string) : result value :=
  Ok (VObj [("text", VStr "{}")]).

(** [quiz_questions_are_not_checked] on it: the quiz is [undefined]. *)
Lemma quiz_questions_are_not_checked_witness :
  generateQuiz empty_object (VStr "user_1") plain_user [] = (Ok VUndef, [Generate pro]).
Proof.
  apply (proj1 (quiz_questions_are_not_checked empty_object [] (VStr "user_1") plain_user
                  (VObj [("text", VStr "{}")]) "{}" (VObj [])
                  eq_refl eq_refl plain_user_prompt eq_refl eq_refl eq_refl)).
  discriminate.
Defined.

End QuizFacts.

(** ** [improveWithAI]: one generation, one error *)

Module ResumeFacts.

Import Str Num JS Json Eff Quota Actions Resume ExtractFacts ActionFacts TraceFacts
       CleanFacts Prompts.

(** The argument and the user of a call of [improveWithAI] that gets as
    far as its [try]. *)
Definition improve_ready (arg userId user : value) : Prop :=
  arg <> VUndef /\ arg <> VNull /\
  truthy userId = true /\ truthy user = true /\
  printable (get arg "type") /\ printable (get user "industry") /\
  printable (get arg "current").

Lemma extractImproved_ok (r : value) (tr : trace) (t : string) :
  fst (extractText r tr) = Ok t -> extractImproved r tr = (Ok (trim t), tr).
Proof.
  intros H. apply extractText_pure in H. revert H.
  unfold extractText, extractImproved.
  destruct (get r "text");
    try (unfold ret; intros [= ->]; reflexivity);
    (destruct (get (get r "response") "text");
     try (unfold ret; intros [= ->]; reflexivity);
     (destruct (truthy (parts_of r) && isArray (parts_of r));
      [ unfold bindM, lift, ret; intros [= ->]; reflexivity
      | intros H; apply (f_equal fst) in H; cbn in H; discriminate H ])).
Qed.

Lemma extractImproved_throw (r : value) (tr : trace) (e : value) :
  fst (extractText r tr) = Throw e ->
  exists new, extractImproved r tr = (Throw e, (tr ++ new)%list) /\
              invocations new = [] /\ writes new = [].
Proof.
  unfold extractText, extractImproved.
  destruct (get r "text");
    try (unfold ret; simpl fst; discriminate);
    (destruct (get (get r "response") "text");
     try (unfold ret; simpl fst; discriminate);
     (destruct (truthy (parts_of r) && isArray (parts_of r));
      [ unfold bindM, lift, ret; simpl fst;
        destruct (join_parts (parts_of r)); [discriminate|];
        intros [= ->]; exists []; rewrite app_nil_r; repeat split
      | unfold bindM, console, emit, throw; cbn [fst];
        intros [= <-]; eexists; split; [reflexivity | split; reflexivity] ])).
Qed.

Section Collaborators.

Variable backend : trace -> string -> result value.

Lemma improve_try (arg userId user : value) (tr : trace) :
  improve_ready arg userId user ->
  improveWithAI backend arg userId user tr
  = catch (bindM (generateContent backend "gemini-2.5-pro") (fun result =>
           bindM (extractImproved result) (fun improvedContent =>
           ret (VStr improvedContent))))
          (fun _ => bindM (console LError "Error improving content:")
                          (fun _ => throw (Error "Failed to improve content"))) tr.
Proof.
  intros (Hu & Hn & Hid & Hus & (s1 & H1) & (s2 & H2) & (s3 & H3)).
  unfold improveWithAI. unfold bindM at 1. unfold lift at 1.
  rewrite (get_strict_object arg "current" Hu Hn), Hid, Hus. cbn [negb].
  unfold bindM at 1. unfold lift at 1. rewrite H1.
  unfold bindM at 1. unfold lift at 1. rewrite H2.
  unfold bindM at 1. unfold lift at 1. rewrite H3.
  reflexivity.
Qed.

(** X9.  A call of [improveWithAI] that gets as far as its [try] returns
    the text that the shared extractor selects from the answer of the backend,
    trimmed - a text that a further [trim] leaves as it is - and throws
    [Error("Failed to improve content")] for every failure: of the backend, or
    of the extraction. *)
Theorem improved_content_is_the_trimmed_text
  (arg userId user : value) (tr : trace) :
  improve_ready arg userId user ->
  (forall r t, backend tr pro = Ok r ->
               fst (extractText r (tr ++ [Generate pro])%list) = Ok t ->
               improveWithAI backend arg userId user tr
               = (Ok (VStr (trim t)), (tr ++ [Generate pro])%list)) /\
  (forall r e, backend tr pro = Ok r ->
               fst (extractText r (tr ++ [Generate pro])%list) = Throw e ->
               fst (improveWithAI backend arg userId user tr)
               = Throw (Error "Failed to improve content")) /\
  (forall e, backend tr pro = Throw e ->
             fst (improveWithAI backend arg userId user tr)
             = Throw (Error "Failed to improve content")) /\
  (forall v, fst (improveWithAI backend arg userId user tr) = Ok v ->
             exists s, v = VStr s /\ trim s = s).
Proof.
  intros Hready. rewrite (improve_try arg userId user tr Hready).
  unfold pro, catch, bindM. rewrite (generateContent_eq backend).
  repeat split.
  - intros r t H Ht. rewrite H, (extractImproved_ok _ _ _ Ht). reflexivity.
  - intros r e H He. rewrite H.
    destruct (extractImproved_throw _ _ _ He) as (new & -> & _). reflexivity.
  - intros e H. rewrite H. reflexivity.
  - intros v. destruct (backend tr "gemini-2.5-pro") as [r | e]; [|discriminate].
    destruct (extractText r (tr ++ [Generate "gemini-2.5-pro"])%list)
      as [[t | e] tr1] eqn:Et.
    + rewrite (extractImproved_ok r _ t) by (rewrite Et; reflexivity).
      intros [= <-]. exists (trim t). split; [reflexivity | apply trim_idem].
    + destruct (extractImproved_throw r (tr ++ [Generate "gemini-2.5-pro"])%list e)
        as (new & -> & _); [rewrite Et; reflexivity | discriminate].
Qed.

(** X10.  [improveWithAI] has no fallback: a call that gets as far as
    its [try] asks the backend once, for the [pro] model, whatever the answer;
    an error of the backend, a spent quota as any other, ends the call after
    that one generation with the report of the failure. *)
Theorem improve_asks_once (arg userId user : value) (tr : trace) :
  improve_ready arg userId user ->
  (exists new,
      snd (improveWithAI backend arg userId user tr) = (tr ++ new)%list /\
      invocations new = [Generate pro] /\ writes new = []) /\
  (forall e, backend tr pro = Throw e ->
             improveWithAI backend arg userId user tr
             = (Throw (Error "Failed to improve content"),
                (tr ++ [Generate pro; Console LError "Error improving content:"])%list)).
Proof.
  intros Hready. rewrite (improve_try arg userId user tr Hready).
  unfold pro, catch, bindM. rewrite (generateContent_eq backend).
  split.
  - destruct (backend tr "gemini-2.5-pro") as [r | e].
    + destruct (extractText r (tr ++ [Generate "gemini-2.5-pro"])%list)
        as [[t | e] tr1] eqn:Et.
      * rewrite (extractImproved_ok r _ t) by (rewrite Et; reflexivity).
        exists [Generate "gemini-2.5-pro"]. repeat split.
      * destruct (extractImproved_throw r (tr ++ [Generate "gemini-2.5-pro"])%list e)
          as (new & -> & Hi & Hw); [rewrite Et; reflexivity|].
        exists ([Generate "gemini-2.5-pro"] ++ new
                ++ [Console LError "Error improving content:"])%list.
        unfold console, emit, throw. cbn [snd].
        rewrite <- !app_assoc, !invocations_app, !writes_app, Hi, Hw.
        repeat split.
    + exists [Generate "gemini-2.5-pro"; Console LError "Error improving content:"].
      unfold console, emit, throw. cbn [snd]. rewrite <- app_assoc. repeat split.
  - intros e H. rewrite H. unfold console, emit, throw.
    rewrite <- app_assoc. reflexivity.
Qed.

End Collaborators.

(** A request to improve the summary of a resume. *)
Definition summary_request : value :=
  VObj [("current", VStr "I write code"); ("type", VStr "summary")].

Lemma summary_request_ready :
  improve_ready summary_request (VStr "user_1") QuizFacts.plain_user.
Proof.
  repeat split; try discriminate; eexists; reflexivity.
Defined.

(** A backend whose answer is a text between two line feeds. *)
Definition padded_answer (tr : trace) (modelName : string) : result value :=
  Ok (VObj [("text", VStr (String Regex.newline ("Ships software." ++
                                 String Regex.newline EmptyString)))]).

(** [improved_content_is_the_trimmed_text] on it. *)
Lemma improved_content_is_the_trimmed_text_witness :
  improveWithAI padded_answer summary_request (VStr "user_1") QuizFacts.plain_user []
  = (Ok (VStr "Ships software."), [Generate pro]).
Proof.
  exact (proj1 (improved_content_is_the_trimmed_text padded_answer summary_request
                  (VStr "user_1") QuizFacts.plain_user [] summary_request_ready)
               _ _ eq_refl eq_refl).
Defined.

(** [improve_asks_once] on a spent quota: no second generation. *)
Lemma improve_asks_once_witness :
  improveWithAI InvokerFacts.quota_then_result summary_request (VStr "user_1")
    QuizFacts.plain_user []
  = (Throw (Error "Failed to improve content"),
     [Generate pro; Console LError "Error improving content:"]).
Proof.
  exact (proj2 (improve_asks_once InvokerFacts.quota_then_result summary_request
                  (VStr "user_1") QuizFacts.plain_user [] summary_request_ready)
               InvokerFacts.quota_429 eq_refl).
Defined.

End ResumeFacts.

(** ** The cover letter: what is written, and when *)

Module LetterFacts.

Import Str Num JS Json Eff Quota Actions ExtractFacts QuotaFacts InvokerFacts ActionFacts
       TraceFacts CleanFacts Prompts.

(** The record that [generateCoverLetter] writes for the extracted text
    [t]. *)
Definition letter (t : string) (data user : value) : value :=
  VObj [("content", VStr (trim t));
        ("jobDescription", get data "jobDescription");
        ("companyName", get data "companyName");
        ("jobTitle", get data "jobTitle");
        ("status", VStr "completed");
        ("userId", get user "id")].

Lemma extractContent_quiet (r : value) (tr : trace) :
  exists new, snd (extractContent r tr) = (tr ++ new)%list /\ writes new = [].
Proof.
  unfold extractContent, catch.
  destruct (get r "text");
    try (exists []; rewrite app_nil_r; split; reflexivity);
    (destruct (get (get r "response") "text");
     try (exists []; rewrite app_nil_r; split; reflexivity);
     (destruct (truthy (parts_of r) && isArray (parts_of r));
      [ unfold bindM, lift; destruct (join_parts (parts_of r));
        [ exists []; rewrite app_nil_r; split; reflexivity
        | eexists; unfold console, emit, throw; cbn [snd]; split; reflexivity ]
      | eexists; unfold bindM, console, emit, throw; cbn [snd];
        rewrite <- !app_assoc; split; reflexivity ])).
Qed.

Section Collaborators.

Variable backend : trace -> string -> result value.
Variable db : trace -> string -> value -> result value.

Lemma writes_before_fallback (err : value) : writes (before_fallback err) = [].
Proof.
  unfold before_fallback, suspension.
  destruct (gt0 (parseRetryMs err)); reflexivity.
Qed.

(** The invoker writes nothing. *)
Lemma fallback_quiet (tr : trace) :
  exists new, snd (generate_with_fallback backend tr) = (tr ++ new)%list /\
              writes new = [].
Proof.
  destruct (backend tr preferredModel) as [r | err] eqn:H.
  - exists [Generate preferredModel]. rewrite (primary_ok backend tr r H).
    split; reflexivity.
  - destruct (isQuotaError_total err) as [Hq | Hq].
    + rewrite (primary_quota backend tr err H Hq).
      destruct (backend (tr ++ before_fallback err)%list fallbackModel);
        eexists; (split; [reflexivity|]);
        rewrite writes_app, writes_before_fallback; reflexivity.
    + exists [Generate preferredModel]. rewrite (primary_fatal backend tr err H Hq).
      split; reflexivity.
Qed.

(** X11.  Where the prompt can be written, [generateCoverLetter] writes
    one record when the invoker has an answer from which the shared extractor
    selects a text: the record carries that text trimmed, the three fields of
    the request, the status [completed] and the user's id; the action returns
    what the database returns, and its own error if the write fails.  When the
    generation fails, or the extraction, nothing is written. *)
Theorem letter_is_written_after_success
  (tr : trace) (userId user data : value) :
  truthy userId = true -> truthy user = true -> letter_prompt_ok data user ->
  (forall r tr1 t,
      generate_with_fallback backend tr = (Ok r, tr1) ->
      fst (extractText r tr1) = Ok t ->
      generateCoverLetter backend db userId user data tr
      = match db tr1 "coverLetter" (letter t data user) with
        | Ok c => (Ok c, (tr1 ++ [DbWrite "coverLetter" (letter t data user)])%list)
        | Throw _ =>
            (Throw (Error "Failed to generate cover letter"),
             (tr1 ++ [DbWrite "coverLetter" (letter t data user);
                      Console LError "Error generating cover letter:"])%list)
        end) /\
  (letter_failure backend tr ->
   exists new,
     snd (generateCoverLetter backend db userId user data tr) = (tr ++ new)%list /\
     writes new = []).
Proof.
  intros Hu Hv Hp.
  rewrite (PromptFacts.generateCoverLetter_try backend db userId user data tr Hu Hv Hp).
  split.
  - intros r tr1 t Hg Ht. unfold catch, bindM. rewrite Hg.
    rewrite (extractContent_ok r tr1 t Ht). unfold db_write, letter.
    destruct (db tr1 "coverLetter" _); [reflexivity|].
    unfold console, emit, throw. rewrite <- app_assoc. reflexivity.
  - intros HF. unfold catch at 1. unfold bindM at 1.
    destruct (fallback_quiet tr) as (g & Hg & Hgw).
    destruct HF as [e H | r e tr' H He].
    + destruct (generate_with_fallback backend tr) as [x tr1].
      cbn [fst snd] in *. subst x tr1.
      exists (g ++ [Console LError "Error generating cover letter:"])%list.
      unfold bindM, console, emit, throw. cbn [snd].
      rewrite <- app_assoc, writes_app, Hgw. split; reflexivity.
    + rewrite H in *. cbn [snd] in Hg. subst tr'.
      pose proof (extractContent_throw r _ e He) as Hc.
      destruct (extractContent_quiet r (tr ++ g)%list) as (x & Hx & Hxw).
      unfold bindM at 1.
      destruct (extractContent r (tr ++ g)%list) as [y tr2].
      cbn [fst snd] in *. subst y tr2.
      exists (g ++ x ++ [Console LError "Error generating cover letter:"])%list.
      unfold bindM, console, emit, throw. cbn [snd].
      rewrite <- !app_assoc, !writes_app, Hgw, Hxw. split; reflexivity.
Qed.

End Collaborators.

(** A request for a cover letter, and its user. *)
Definition letter_request : value :=
  VObj [("jobTitle", VStr "Engineer"); ("companyName", VStr "Acme");
        ("jobDescription", VStr "Builds things")].

Definition letter_user : value :=
  VObj [("id", VStr "7"); ("industry", VStr "tech"); ("experience", VNum (of_Z 3));
        ("skills", VArr [VStr "Coq"; VStr "OCaml"]); ("bio", VStr "Hello")].

Lemma letter_request_ok : letter_prompt_ok letter_request letter_user.
Proof.
  unfold letter_prompt_ok, joinable.
  repeat split; try discriminate; try (eexists; reflexivity).
  right. right. eexists. split; [reflexivity | eexists; reflexivity].
Defined.

(** Scenario A of the specification to its end, through
    [letter_is_written_after_success]: the quota is spent, the fallback model
    answers, and the letter is stored. *)
Lemma letter_is_written_after_success_witness :
  fst (generateCoverLetter quota_then_result db_ok (VStr "user_1") letter_user
         letter_request [])
  = Ok (letter "RESULT" letter_request letter_user).
Proof.
  rewrite (proj1 (letter_is_written_after_success quota_then_result db_ok []
                    (VStr "user_1") letter_user letter_request
                    eq_refl eq_refl letter_request_ok)
                 (VObj [("text", VStr "RESULT")])
                 (snd (generate_with_fallback quota_then_result []))
                 "RESULT").
  - reflexivity.
  - vm_compute. reflexivity.
  - reflexivity.
Defined.

End LetterFacts.

(** ** The guards of the actions *)

Module GuardFacts.

Import Str Num JS Json Eff Quota Actions Resume ActionFacts QuizFacts.

Section Collaborators.

Variable backend : trace -> string -> result value.
Variable db : trace -> string -> value -> result value.

(** X12.  The actions do nothing for a caller they do not know: with no
    user id each of them throws [Error("Unauthorized")], and with a user id
    but no user record [Error("User not found")], as it is and not under the
    message of the action, before any generation, write or line on the
    console.  And [getIndustryInsights] returns the insights that the user
    record carries, when it carries some, without asking for new ones. *)
Theorem guards_come_first (tr : trace) (userId user : value) (e : value) :
  (truthy userId = false /\ e = Error "Unauthorized") \/
  (truthy userId = true /\ truthy user = false /\ e = Error "User not found") ->
  (forall data, generateCoverLetter backend db userId user data tr = (Throw e, tr)) /\
  getIndustryInsights backend db userId user tr = (Throw e, tr) /\
  generateQuiz backend userId user tr = (Throw e, tr) /\
  (forall questions answers score,
      saveQuizResult backend db userId user questions answers score tr = (Throw e, tr)) /\
  (forall arg, readable arg -> improveWithAI backend arg userId user tr = (Throw e, tr)).
Proof.
  intros [(Hu & ->) | (Hu & Hv & ->)].
  - unfold generateCoverLetter, getIndustryInsights, generateQuiz, saveQuizResult,
      improveWithAI. rewrite Hu. cbn [negb]. repeat split.
    intros arg (Ha & Hn). unfold bindM, lift.
    rewrite (get_strict_object arg "current" Ha Hn). reflexivity.
  - unfold generateCoverLetter, getIndustryInsights, generateQuiz, saveQuizResult,
      improveWithAI. rewrite Hu, Hv. cbn [negb]. repeat split.
    intros arg (Ha & Hn). unfold bindM, lift.
    rewrite (get_strict_object arg "current" Ha Hn). reflexivity.
Qed.

(** X13.  [getIndustryInsights] returns the insights that the record of
    the user carries, when it carries some, and asks for nothing; when it
    carries none, and the prompt can be written, it asks the backend once, and
    writes one record if the answer could be parsed, none if not. *)
Theorem stored_insights_are_returned (tr : trace) (userId user : value) :
  truthy userId = true -> truthy user = true ->
  (truthy (get user "industryInsight") = true ->
   getIndustryInsights backend db userId user tr = (Ok (get user "industryInsight"), tr)) /\
  (truthy (get user "industryInsight") = false ->
   Prompts.printable (get user "industry") ->
   exists new,
     snd (getIndustryInsights backend db userId user tr) = (tr ++ new)%list /\
     invocations new = [Generate pro] /\
     List.length (TraceFacts.writes new)
     = match fst (generateAIInsights backend (get user "industry") tr) with
       | Ok _ => 1%nat
       | Throw _ => 0%nat
       end).
Proof.
  intros Hu Hv. split.
  - intros Hi. unfold getIndustryInsights. rewrite Hu, Hv, Hi. reflexivity.
  - intros Hi Hp.
    destruct (getIndustryInsights backend db userId user tr) as [res tr'] eqn:E.
    unfold getIndustryInsights in E. rewrite Hu, Hv, Hi in E. cbn [negb] in E.
    unfold bindM at 1 in E.
    rewrite (PromptFacts.generateAIInsights_try backend _ tr Hp) in E.
    rewrite (PromptFacts.generateAIInsights_try backend _ tr Hp). revert E.
    unfold bindM at 1. unfold bindM at 3.
    rewrite (generateContent_eq backend).
    destruct (backend tr "gemini-2.5-pro") as [r | err].
    2:{ intros [= <- <-]. exists [Generate pro]. repeat split. }
    unfold bindM at 1. unfold bindM at 2.
    destruct (TraceFacts.extractText_quiet r (tr ++ [Generate "gemini-2.5-pro"])%list)
      as (ex & Hex & Hexi & Hexw).
    destruct (extractText r (tr ++ [Generate "gemini-2.5-pro"])%list)
      as [[text | err] tr1]; cbn [snd] in Hex; subst tr1.
    2:{ intros [= <- <-]. exists ([Generate pro] ++ ex)%list. rewrite <- app_assoc.
        rewrite TraceFacts.invocations_app, TraceFacts.writes_app, Hexi, Hexw.
        repeat split. }
    unfold lift. destruct (JSON_parse (cleanedText text)) as [insights | err].
    2:{ intros [= <- <-]. exists ([Generate pro] ++ ex)%list. rewrite <- app_assoc.
        rewrite TraceFacts.invocations_app, TraceFacts.writes_app, Hexi, Hexw.
        repeat split. }
    unfold bindM, db_write, ret.
    set (w := DbWrite "industryInsight" _).
    intros E. exists ([Generate pro] ++ ex ++ [w])%list.
    rewrite !TraceFacts.invocations_app, !TraceFacts.writes_app, Hexi, Hexw.
    split; [|split; reflexivity].
    destruct (db _ "industryInsight" _); injection E as _ <-;
      cbn [snd]; rewrite <- !app_assoc; reflexivity.
Qed.

End Collaborators.

(** [guards_come_first] on a caller who is not signed in. *)
Lemma guards_come_first_witness :
  generateQuiz InvokerFacts.always_500 VNull VUndef []
  = (Throw (Error "Unauthorized"), []).
Proof.
  exact (proj1 (proj2 (proj2
           (guards_come_first InvokerFacts.always_500 db_ok [] VNull VUndef
              (Error "Unauthorized") (or_introl (conj eq_refl eq_refl)))))).
Defined.

(** A user whose record carries insights. *)
Definition informed_user : value :=
  VObj [("industry", VStr "tech"); ("industryInsight", VObj [("growthRate", VNum (of_Z 5))])].

(** [stored_insights_are_returned] on it, with a backend that is down. *)
Lemma stored_insights_are_returned_witness :
  getIndustryInsights InvokerFacts.always_500 db_ok (VStr "user_1") informed_user []
  = (Ok (VObj [("growthRate", VNum (of_Z 5))]), []).
Proof.
  exact (proj1 (stored_insights_are_returned InvokerFacts.always_500 db_ok []
                  (VStr "user_1") informed_user eq_refl eq_refl) eq_refl).
Defined.

End GuardFacts.

(** ** The records of the insights: what the answer can set *)

Module RecordFacts.

Import Str Num JS Json DelayFacts QuizFacts Records.

(** The value that the fields give to the name [k]: that of its last
    definition. *)
Definition last_of (k : string) (fields : list (string * value)) : option value :=
  assoc k (rev fields).

Lemma assoc_app (k : string) (a b : list (string * value)) :
  assoc k (a ++ b)
  = match assoc k a with Some v => Some v | None => assoc k b end.
Proof.
  induction a as [|[k' v] a IH]; [reflexivity|].
  simpl. destruct (String.eqb k k'); [reflexivity | exact IH].
Qed.

Lemma assoc_existsb (k : string) (o : list (string * value)) :
  existsb (fun kv => String.eqb (fst kv) k) o = false -> assoc k o = None.
Proof.
  induction o as [|[k' v] o IH]; [reflexivity|].
  simpl. rewrite (String.eqb_sym k' k).
  destruct (String.eqb k k'); [discriminate | exact IH].
Qed.

Lemma assoc_obj_set (k k' : string) (v : value) (o : list (string * value)) :
  assoc k (obj_set o k' v) = if String.eqb k k' then Some v else assoc k o.
Proof.
  unfold obj_set.
  destruct (existsb (fun kv => String.eqb (fst kv) k') o) eqn:E.
  - induction o as [|[k0 v0] o IH]; [discriminate E|].
    simpl in E. simpl. destruct (String.eqb_spec k0 k') as [-> |Hne]; simpl.
    + destruct (String.eqb_spec k k') as [-> |Hk]; [reflexivity|].
      clear IH E. induction o as [|[k1 v1] o IH]; [reflexivity|].
      simpl. destruct (String.eqb_spec k1 k') as [-> |]; simpl.
      * destruct (String.eqb_spec k k'); [contradiction | exact IH].
      * destruct (String.eqb k k1); [reflexivity | exact IH].
    + simpl in E. destruct (String.eqb_spec k k0) as [-> |].
      * destruct (String.eqb_spec k0 k'); [contradiction | reflexivity].
      * exact (IH E).
  - rewrite assoc_app. simpl.
    destruct (String.eqb_spec k k') as [-> |].
    + rewrite (assoc_existsb _ _ E). reflexivity.
    + destruct (assoc k o); reflexivity.
Qed.


Lemma assoc_fold (k : string) (fields : list (string * value)) :
  forall o,
    assoc k (fold_left (fun o kv => obj_set o (fst kv) (snd kv)) fields o)
    = match last_of k fields with
      | Some v => Some v
      | None => assoc k o
      end.
Proof.
  unfold last_of. induction fields as [|[k0 v0] rest IH]; intros o; [reflexivity|].
  cbn [fold_left fst snd rev]. rewrite IH, assoc_app, assoc_obj_set.
  destruct (assoc k (rev rest)); [reflexivity|].
  simpl. destruct (String.eqb k k0); reflexivity.
Qed.

(** Reading a property of an object literal. *)
Lemma get_object_of (k : string) (fields : list (string * value)) :
  get (object_of fields) k
  = match last_of k fields with Some v => v | None => VUndef end.
Proof.
  unfold object_of, get. rewrite assoc_fold.
  destruct (last_of k fields); reflexivity.
Qed.

Lemma last_of_app (k : string) (a b : list (string * value)) :
  last_of k (a ++ b)
  = match last_of k b with Some v => Some v | None => last_of k a end.
Proof. unfold last_of. rewrite rev_app_distr. apply assoc_app. Qed.

Lemma assoc_absent (k : string) (l : list (string * value)) :
  ~ In k (map fst l) -> assoc k l = None.
Proof.
  induction l as [|[k0 v0] l IH]; [reflexivity|]. simpl. intros H.
  destruct (String.eqb_spec k k0) as [-> |]; [exfalso; apply H; now left|].
  apply IH. intros Hin. apply H. now right.
Qed.

(** The names of an object are distinct: the last definition of a name
    is its only one. *)
Lemma last_of_unique (k : string) (l : list (string * value)) :
  NoDup (map fst l) -> last_of k l = assoc k l.
Proof.
  unfold last_of. induction l as [|[k0 v0] l IH]; [reflexivity|].
  simpl. intros H. inversion H as [|? ? Hnot Hl]; subst.
  rewrite assoc_app, (IH Hl). simpl.
  destruct (String.eqb_spec k k0) as [-> |].
  - now rewrite (assoc_absent _ _ Hnot).
  - destruct (assoc k l); reflexivity.
Qed.

Lemma Z_to_string_digits (n : nat) : digits (Z_to_string (Z.of_nat n)) = true.
Proof.
  unfold Z_to_string.
  exact (proj1 (dec_digits_ok _ _
                  (conj (Nat2Z.is_nonneg n) (log2_fuel _ (Nat2Z.is_nonneg n))))).
Qed.

(** An index is no name made of letters. *)
Lemma last_of_indexed (k : string) (l : list value) :
  digits k = false -> forall i, last_of k (indexed i l) = None.
Proof.
  intros Hk. unfold last_of.
  induction l as [|x l IH]; intros i; [reflexivity|].
  cbn [indexed rev]. rewrite assoc_app, IH. simpl.
  destruct (String.eqb_spec k (Z_to_string (Z.of_nat i))) as [E|]; [|reflexivity].
  rewrite E, Z_to_string_digits in Hk. discriminate Hk.
Qed.

Lemma last_of_spread (k : string) (v : value) :
  digits k = false -> (forall l, v <> VObj l) -> last_of k (spread v) = None.
Proof.
  intros Hk Hv. destruct v as [| | b | n | s | l | l]; try reflexivity.
  - now apply last_of_indexed.
  - now apply last_of_indexed.
  - exfalso. exact (Hv l eq_refl).
Qed.

(** X14.  What the answer of the model can set in the record of the
    insights.  The dates are those of the clock, whatever the answer: the
    [nextUpdate] of the record that [getIndustryInsights] creates, the
    [lastUpdated] and [nextUpdate] of the update of the Inngest job.  The
    [industry] of the created record is that of the user unless the answer is
    an object with an [industry] of its own, which then replaces it.  Every
    other property of the record is that of the answer. *)
Theorem answer_cannot_set_the_dates
  (user insights lastUpdated nextUpdate : value) :
  get (created_data user insights nextUpdate) "nextUpdate" = nextUpdate /\
  get (updated_data insights lastUpdated nextUpdate) "lastUpdated" = lastUpdated /\
  get (updated_data insights lastUpdated nextUpdate) "nextUpdate" = nextUpdate /\
  ((forall l, insights <> VObj l) ->
   get (created_data user insights nextUpdate) "industry" = get user "industry") /\
  (forall l, insights = VObj l -> NoDup (map fst l) ->
     get (created_data user insights nextUpdate) "industry"
     = match assoc "industry" l with
       | Some v => v
       | None => get user "industry"
       end /\
     (forall k, k <> "industry" -> k <> "nextUpdate" ->
                get (created_data user insights nextUpdate) k = get insights k) /\
     (forall k, k <> "lastUpdated" -> k <> "nextUpdate" ->
                get (updated_data insights lastUpdated nextUpdate) k = get insights k)).
Proof.
  unfold created_data, updated_data.
  split; [|split; [|split; [|split]]].
  - rewrite get_object_of, !last_of_app. reflexivity.
  - rewrite get_object_of, last_of_app. reflexivity.
  - rewrite get_object_of, last_of_app. reflexivity.
  - intros Hv. rewrite get_object_of, !last_of_app.
    rewrite (last_of_spread "industry" insights eq_refl Hv). reflexivity.
  - intros l -> Hl. cbn [spread]. split; [|split].
    + rewrite get_object_of, !last_of_app, (last_of_unique _ _ Hl).
      cbn. destruct (assoc "industry" l); reflexivity.
    + intros k H1 H2. rewrite get_object_of, !last_of_app, (last_of_unique _ _ Hl).
      unfold last_of. cbn [rev app assoc get].
      apply String.eqb_neq in H1, H2. rewrite H1, H2.
      destruct (assoc k l); reflexivity.
    + intros k H1 H2. rewrite get_object_of, last_of_app, (last_of_unique _ _ Hl).
      unfold last_of. cbn [rev app assoc get].
      apply String.eqb_neq in H1, H2. rewrite H1, H2.
      destruct (assoc k l); reflexivity.
Qed.

End RecordFacts.
